(** * MCP demo client: a shallow embedding of [mcp_client_demo.py]

    The client speaks a length-prefixed JSON protocol over one TCP
    connection.  Its methods are [async] coroutines that run on a single
    event loop; between two [await]s a coroutine runs without interruption.

    The embedding follows that structure:
    - Python values received from or sent to the peer are [json] trees;
    - every method is a computation in the monad [M], which threads the
      whole program state ([World]) and carries Python exceptions;
    - a coroutine that is suspended at an [await] is a piece of state (a
      [Frame] for [send_request], a [Task] for the two background loops),
      and an [event] resumes one of them for one uninterrupted stretch;
    - the standard library ([json], [str.encode], [bytes.decode], [repr])
      is an interface, [PyLib]; the socket and the timers are oracles
      carried by the events.

    Two [await]s are not points of interleaving here: [drain] inside
    [_write_message] (which returns at once unless the transport holds too
    much unsent data), and the two [readexactly] of one frame, which is
    taken from the buffer once it is whole.  Every other [await] is one:
    [open_connection] in [connect], [wait_for] in [send_request],
    [wait_closed] in [close], [sleep] in the heartbeat loop, and the wait
    of the reader loop for the next frame.  A [connect()] during which
    nothing else runs is one event; one that is interleaved with other
    events is two, the call that parks and the connection that opens. *)

From Stdlib Require Import ZArith Lia.
From Stdlib Require PrimFloat.
From Stdlib Require Import Strings.Byte Strings.Ascii Strings.String.
From stdpp Require Import base option list strings pretty gmap.

Open Scope Z_scope.

(** ** Python values *)

(** A decoded JSON document, as [json.loads] builds it: [None], [bool],
    [int], [float], [str], [list] and [dict].  A [dict] keeps its keys in
    insertion order. *)
#[warnings="-register-all"]
Inductive json : Type :=
| JNull
| JBool (b : bool)
| JInt (n : Z)
| JFloat (f : PrimFloat.float)
| JStr (s : string)
| JList (l : list json)
| JDict (d : list (string * json)).

(** The exceptions that the client raises, catches or lets through. *)
Inductive exn : Type :=
| ConnectionError (msg : string)
| ConnectionResetError
| ConnectionRefusedError
| IncompleteReadError
| TimeoutError
| CancelledError
| JSONDecodeError
| UnicodeDecodeError
| UnicodeEncodeError
| StructError
| AttributeError
| AssertionError
| InvalidStateError
| RecursionError
| OSError.

(** [isinstance(e, Exception)]: [asyncio.CancelledError] derives from
    [BaseException] only, so [except Exception] lets it through. *)
Definition is_Exception (e : exn) : bool :=
  match e with
  | CancelledError => false
  | _ => true
  end.

(** [isinstance(e, ConnectionError)]. *)
Definition is_ConnectionError (e : exn) : bool :=
  match e with
  | ConnectionError _ | ConnectionResetError | ConnectionRefusedError => true
  | _ => false
  end.

(** What running a stretch of a coroutine yields: a value, an exception, or
    [Wait] when the coroutine cannot go on before more input arrives. *)
Inductive result (A : Type) : Type :=
| Ok (a : A)
| Raise (e : exn)
| Wait.
Arguments Ok {A} a.
Arguments Raise {A} e.
Arguments Wait {A}.

(** ** Dictionaries *)

(** A Python [dict] with string keys: an association list in insertion
    order, one entry per key. *)
Module Dict.
Section ops.
Context {V : Type}.
Implicit Types (d : list (string * V)) (k : string) (v : V).

(** [d.get(k)] *)
Fixpoint get k d : option V :=
  match d with
  | [] => None
  | (k', v') :: d' => if decide (k = k') then Some v' else get k d'
  end.

(** [d[k] = v]: the value is replaced where the key stands, or the
    entry is appended. *)
Fixpoint set k v d : list (string * V) :=
  match d with
  | [] => [(k, v)]
  | (k', v') :: d' =>
      if decide (k = k') then (k', v) :: d' else (k', v') :: set k v d'
  end.

(** [d.setdefault(k, v)] *)
Definition setdefault k v d : list (string * V) :=
  match get k d with
  | Some _ => d
  | None => set k v d
  end.

(** [d.pop(k, None)] *)
Fixpoint pop k d : list (string * V) :=
  match d with
  | [] => []
  | (k', v') :: d' => if decide (k = k') then d' else (k', v') :: pop k d'
  end.

(** [d.values()] *)
Definition values d : list V := d.*2.

(** [d.keys()] *)
Definition keys d : list string := d.*1.
End ops.
End Dict.

Abbreviation pydict := (list (string * json)).

(** ** The standard library *)

(** The functions of the Python standard library that the client calls.
    They are not part of the repository: the development holds for every
    implementation of this interface. *)
Class PyLib : Type := {
  (** [json.dumps(obj, separators=(",", ":"), ensure_ascii=False)] *)
  json_dumps : json → string;
  (** [json.loads(s)]; [None] stands for [JSONDecodeError] *)
  json_loads : string → option json;
  (** [s.encode("utf-8")]; [None] stands for [UnicodeEncodeError] *)
  str_encode : string → option (list byte);
  (** [b.decode("utf-8")]; [None] stands for [UnicodeDecodeError] *)
  bytes_decode : list byte → option string;
  (** [repr(v)] *)
  py_repr : json → string
}.

(** [str(v)].  The registry is keyed by [str(msg_id)] and searched by
    [str(reply_to)]. *)
Definition py_str `{PyLib} (v : json) : string :=
  match v with
  | JNull => "None"
  | JBool true => "True"
  | JBool false => "False"
  | JInt n => pretty n
  | JStr s => s
  | JFloat _ | JList _ | JDict _ => py_repr v
  end.

(** ** [struct.pack(">I", n)] and [struct.unpack(">I", b)] *)

Definition LENGTH_PREFIX : string := ">I".

Definition byte_of_Z (z : Z) : byte :=
  default x00 (Byte.of_N (Z.to_N (Z.land z 255))).

Definition Z_of_byte (b : byte) : Z := Z.of_N (Byte.to_N b).

(** Big-endian unsigned 32-bit; [struct.error] outside [0, 2^32). *)
Definition struct_pack_I (n : Z) : result (list byte) :=
  if bool_decide (0 ≤ n < 2 ^ 32) then
    Ok [byte_of_Z (Z.shiftr n 24); byte_of_Z (Z.shiftr n 16);
        byte_of_Z (Z.shiftr n 8); byte_of_Z n]
  else Raise StructError.

Definition struct_unpack_I (bs : list byte) : result Z :=
  match bs with
  | [b3; b2; b1; b0] =>
      Ok (Z.lor (Z.shiftl (Z_of_byte b3) 24)
            (Z.lor (Z.shiftl (Z_of_byte b2) 16)
               (Z.lor (Z.shiftl (Z_of_byte b1) 8) (Z_of_byte b0))))
  | _ => Raise StructError
  end.

(** ** Streams *)

(** An [asyncio.StreamReader]: the bytes received and not yet consumed,
    whether end of stream was fed, and the exception set on the stream by a
    broken connection. *)
Record StreamReader : Type := mkReader {
  buffer : list byte;
  eof : bool;
  rexception : option exn
}.

(** An [asyncio.StreamWriter]: the bytes handed to the transport so far. *)
Record StreamWriter : Type := mkWriter {
  sent : list byte;
  wclosed : bool
}.

Definition at_eof (r : StreamReader) : bool :=
  eof r && bool_decide (buffer r = []).

(** [reader.readexactly(n)] with the reader left behind: [Wait] while
    fewer than [n] bytes are buffered and the stream is still open. *)
Definition readexactly (n : Z) (r : StreamReader) : result (list byte) * StreamReader :=
  match rexception r with
  | Some e => (Raise e, r)
  | None =>
      let k := Z.to_nat n in
      if bool_decide (k ≤ length (buffer r))%nat then
        (Ok (take k (buffer r)), mkReader (drop k (buffer r)) (eof r) None)
      else if eof r then
        (Raise IncompleteReadError, mkReader [] true None)
      else (Wait, r)
  end.

(** ** Program state *)

(** Addresses of futures, addresses of dict objects, numbers of tasks. *)
Abbreviation addr := nat.
Abbreviation loc := nat.
Abbreviation tid := nat.

(** An [asyncio.Future]. *)
Inductive Future : Type :=
| FPending
| FResult (v : json)
| FException (e : exn)
| FCancelled.

Definition fut_is_done (f : Future) : bool :=
  match f with
  | FPending => false
  | _ => true
  end.

(** The two background coroutines and the [await] at which one is parked. *)
Inductive coroutine : Type := ReaderLoop | HeartbeatLoop.

Inductive position : Type :=
| Created                 (** scheduled by [create_task], not yet started *)
| AtRead                  (** [_reader_loop], inside [readexactly] *)
| AtSleep                 (** [_heartbeat_loop], inside [asyncio.sleep] *)
| AtRequest (fut : addr)  (** [_heartbeat_loop], inside [send_request] *)
| Finished.

Record Task : Type := mkTask {
  coro : coroutine;
  pos : position;
  must_cancel : bool      (** [cancel()] was called and is not yet delivered *)
}.

(** A [send_request] call parked in [asyncio.wait_for(fut, timeout)]: its
    local [msg_id] and who awaits it.  The frame is filed under the address
    of its local [fut]. *)
Inductive caller : Type := External | Heartbeat (t : tid).

Record Frame : Type := mkFrame {
  fr_msg_id : Z;
  fr_caller : caller
}.

(** The fields of an [MCPClient] instance ([host], [port] and
    [heartbeat_interval] play no part in the control flow). *)
Record MCPClient : Type := mkClient {
  _reader : option StreamReader;
  _writer : option StreamWriter;
  _receive_task : option tid;
  _heartbeat_task : option tid;
  _response_futures : list (string * addr);
  _msg_id_counter : Z;
  _closed : bool
}.

Record World : Type := mkWorld {
  self : MCPClient;
  futures : list Future;        (** every future created so far *)
  objects : list pydict;        (** every [dict] passed or built as a payload;
                                    the values that it holds are immutable trees *)
  tasks : list Task;            (** every task created so far *)
  frames : gmap addr Frame;     (** the [send_request] calls now waiting *)
  closing : nat;                (** [close()] calls parked in [wait_closed] *)
  stdout : list json;           (** what [print("Notification:", msg)] wrote *)
  connecting : list (option loc)
                                (** the [connect()] calls parked in
                                    [open_connection]: one made by a caller, or
                                    one made by [send_request] for the payload
                                    that it names *)
}.

Definition set_reader (v : option StreamReader) (c : MCPClient) : MCPClient :=
  mkClient v (_writer c) (_receive_task c) (_heartbeat_task c)
    (_response_futures c) (_msg_id_counter c) (_closed c).
Definition set_writer (v : option StreamWriter) (c : MCPClient) : MCPClient :=
  mkClient (_reader c) v (_receive_task c) (_heartbeat_task c)
    (_response_futures c) (_msg_id_counter c) (_closed c).
Definition set_receive_task (v : option tid) (c : MCPClient) : MCPClient :=
  mkClient (_reader c) (_writer c) v (_heartbeat_task c)
    (_response_futures c) (_msg_id_counter c) (_closed c).
Definition set_heartbeat_task (v : option tid) (c : MCPClient) : MCPClient :=
  mkClient (_reader c) (_writer c) (_receive_task c) v
    (_response_futures c) (_msg_id_counter c) (_closed c).
Definition set_response_futures (v : list (string * addr)) (c : MCPClient) : MCPClient :=
  mkClient (_reader c) (_writer c) (_receive_task c) (_heartbeat_task c)
    v (_msg_id_counter c) (_closed c).
Definition set_msg_id_counter (v : Z) (c : MCPClient) : MCPClient :=
  mkClient (_reader c) (_writer c) (_receive_task c) (_heartbeat_task c)
    (_response_futures c) v (_closed c).
Definition set_closed (v : bool) (c : MCPClient) : MCPClient :=
  mkClient (_reader c) (_writer c) (_receive_task c) (_heartbeat_task c)
    (_response_futures c) (_msg_id_counter c) v.

Definition set_self (v : MCPClient) (w : World) : World :=
  mkWorld v (futures w) (objects w) (tasks w) (frames w) (closing w) (stdout w) (connecting w).
Definition set_futures (v : list Future) (w : World) : World :=
  mkWorld (self w) v (objects w) (tasks w) (frames w) (closing w) (stdout w) (connecting w).
Definition set_objects (v : list pydict) (w : World) : World :=
  mkWorld (self w) (futures w) v (tasks w) (frames w) (closing w) (stdout w) (connecting w).
Definition set_tasks (v : list Task) (w : World) : World :=
  mkWorld (self w) (futures w) (objects w) v (frames w) (closing w) (stdout w) (connecting w).
Definition set_frames (v : gmap addr Frame) (w : World) : World :=
  mkWorld (self w) (futures w) (objects w) (tasks w) v (closing w) (stdout w) (connecting w).
Definition set_closing (v : nat) (w : World) : World :=
  mkWorld (self w) (futures w) (objects w) (tasks w) (frames w) v (stdout w) (connecting w).
Definition set_stdout (v : list json) (w : World) : World :=
  mkWorld (self w) (futures w) (objects w) (tasks w) (frames w) (closing w) v (connecting w).
Definition set_connecting (v : list (option loc)) (w : World) : World :=
  mkWorld (self w) (futures w) (objects w) (tasks w) (frames w) (closing w) (stdout w) v.

(** [MCPClient.__init__]. *)
Definition new_client : MCPClient :=
  mkClient None None None None [] 0 false.

(** A fresh client in a program that has built the dicts [objs]. *)
Definition init (objs : list pydict) : World :=
  mkWorld new_client [] objs [] ∅ 0%nat [] [].

(** ** The monad of coroutine stretches *)

Definition M (A : Type) : Type := World → result A * World.

Definition ret {A} (a : A) : M A := λ w, (Ok a, w).

Definition bind {A B} (m : M A) (f : A → M B) : M B := λ w,
  match m w with
  | (Ok a, w') => f a w'
  | (Raise e, w') => (Raise e, w')
  | (Wait, w') => (Wait, w')
  end.

Declare Scope M_scope.
Delimit Scope M_scope with M.
Bind Scope M_scope with M.
Notation "x ← y ; z" := (bind y (λ x, z))
  (at level 20, y at level 100, z at level 200, only parsing) : M_scope.
Notation "' x ← y ; z" := (bind y (λ x, z))
  (at level 20, x pattern, y at level 100, z at level 200, only parsing) : M_scope.
Notation "y ;; z" := (bind y (λ _, z))
  (at level 100, z at level 200, only parsing, right associativity) : M_scope.
Open Scope M_scope.

Definition raise {A} (e : exn) : M A := λ w, (Raise e, w).
Definition wait {A} : M A := λ w, (Wait, w).
Definition lift {A} (r : result A) : M A := λ w, (r, w).
Definition or_raise {A} (e : exn) (o : option A) : M A :=
  match o with
  | Some a => ret a
  | None => raise e
  end.
Definition get_self : M MCPClient := λ w, (Ok (self w), w).
Definition modify (f : World → World) : M unit := λ w, (Ok tt, f w).
Definition modify_self (f : MCPClient → MCPClient) : M unit :=
  modify (λ w, set_self (f (self w)) w).

(** [try: body  except ...: handler]; the handler re-raises what its
    [except] clauses do not name. *)
Definition try_except {A} (body : M A) (handler : exn → M A) : M A := λ w,
  match body w with
  | (Raise e, w') => handler e w'
  | r => r
  end.

(** [try: body  finally: cleanup] *)
Definition try_finally {A} (body : M A) (cleanup : M unit) : M A := λ w,
  match body w with
  | (Ok a, w') => (cleanup ;; ret a) w'
  | (Raise e, w') => (cleanup ;; raise e) w'
  | (Wait, w') => (Wait, w')
  end.

(** Run [m] and hand its outcome back as a value. *)
Definition attempt {A} (m : M A) : M (result A) := λ w,
  match m w with
  | (Wait, w') => (Wait, w')
  | (r, w') => (Ok r, w')
  end.

(** [m], unless it has to wait: then nothing of [m] has taken place, and
    [parked] runs from the state as it was. *)
Definition on_wait {A} (m parked : M A) : M A := λ w,
  match m w with
  | (Wait, _) => parked w
  | r => r
  end.

(** [for x in l: f(x)] *)
Fixpoint for_each {A} (l : list A) (f : A → M unit) : M unit :=
  match l with
  | [] => ret tt
  | x :: l' => f x ;; for_each l' f
  end.

(** ** Futures, tasks and dict objects *)

(** [fut.done()]; an address that was never allocated counts as done. *)
Definition fut_done (a : addr) : M bool := λ w,
  (Ok (from_option fut_is_done true (futures w !! a)), w).

(** [fut.set_result(v)]: [InvalidStateError] on a future that is done. *)
Definition fut_set_result (a : addr) (v : json) : M unit :=
  d ← fut_done a;
  if d then raise InvalidStateError
  else modify (λ w, set_futures (<[a := FResult v]> (futures w)) w).

(** [fut.set_exception(e)]: [InvalidStateError] on a future that is done. *)
Definition fut_set_exception (a : addr) (e : exn) : M unit :=
  d ← fut_done a;
  if d then raise InvalidStateError
  else modify (λ w, set_futures (<[a := FException e]> (futures w)) w).

(** [fut.cancel()]: does nothing, and returns [False], on a done future. *)
Definition fut_cancel (a : addr) : M bool :=
  d ← fut_done a;
  if d then ret false
  else modify (λ w, set_futures (<[a := FCancelled]> (futures w)) w) ;; ret true.

(** [asyncio.get_event_loop().create_future()] *)
Definition create_future : M addr := λ w,
  (Ok (length (futures w)), set_futures (futures w ++ [FPending]) w).

(** [asyncio.create_task(coro)] *)
Definition create_task (c : coroutine) : M tid := λ w,
  (Ok (length (tasks w)), set_tasks (tasks w ++ [mkTask c Created false]) w).

(** [task.cancel()]: a request, delivered when the task next runs. *)
Definition task_cancel (t : tid) : M unit :=
  modify (λ w,
    match tasks w !! t with
    | Some tk =>
        match pos tk with
        | Finished => w
        | _ => set_tasks (<[t := mkTask (coro tk) (pos tk) true]> (tasks w)) w
        end
    | None => w
    end).

Definition set_pos (t : tid) (p : position) : M unit :=
  modify (λ w,
    match tasks w !! t with
    | Some tk => set_tasks (<[t := mkTask (coro tk) p (must_cancel tk)]> (tasks w)) w
    | None => w
    end).

(** The task ends: nothing is left to cancel. *)
Definition finish (t : tid) : M unit :=
  modify (λ w,
    match tasks w !! t with
    | Some tk => set_tasks (<[t := mkTask (coro tk) Finished false]> (tasks w)) w
    | None => w
    end).

(** A new dict object: a literal [{...}] or [dict(other)]. *)
Definition new_dict (d : pydict) : M loc := λ w,
  (Ok (length (objects w)), set_objects (objects w ++ [d]) w).

(** The entries of the dict at [p]. *)
Definition read_dict (p : loc) : M pydict := λ w,
  (Ok (default [] (objects w !! p)), w).

(** [dict(p)]: a new dict with the entries of [p]. *)
Definition dict_copy (p : loc) : M loc :=
  d ← read_dict p; new_dict d.

(** [p.setdefault(k, v)] *)
Definition dict_setdefault (p : loc) (k : string) (v : json) : M unit :=
  modify (λ w, set_objects (alter (Dict.setdefault k v) p (objects w)) w).

(** [p[k] = v] *)
Definition dict_setitem (p : loc) (k : string) (v : json) : M unit :=
  modify (λ w, set_objects (alter (Dict.set k v) p (objects w)) w).

(** ** The socket, as the events describe it *)

(** How an operation on the socket fails. *)
Inductive io_error : Type := io_timeout | io_refused | io_reset | io_other.

Definition io_exn (e : io_error) : exn :=
  match e with
  | io_timeout => TimeoutError
  | io_refused => ConnectionRefusedError
  | io_reset => ConnectionResetError
  | io_other => OSError
  end.

(** The outcome of one operation on the socket: [None] when it succeeds. *)
Definition oracle := option io_error.

(** How a call parked in [asyncio.wait_for(fut, timeout)] is resumed. *)
Inductive wakeup : Type :=
| FutureDone        (** the future has completed *)
| TimerFired        (** the timeout has run out *)
| CallerCancelled.  (** the task awaiting the call was cancelled *)

(** ** The methods of [MCPClient] *)

Section methods.
Context `{PyLib}.

(** [_next_msg_id] *)
Definition _next_msg_id : M Z :=
  modify_self (λ c, set_msg_id_counter (_msg_id_counter c + 1) c) ;;
  c ← get_self;
  ret (_msg_id_counter c).

(** [connect]; [net] is the outcome of
    [asyncio.wait_for(asyncio.open_connection(host, port), timeout)]. *)
Definition connect (net : oracle) : M unit :=
  c ← get_self;
  if from_option (λ r, negb (at_eof r)) false (_reader c) then ret tt
  else
    match net with
    | Some e => raise (io_exn e)
    | None =>
        modify_self (λ c, set_writer (Some (mkWriter [] false))
                            (set_reader (Some (mkReader [] false None)) c)) ;;
        t ← create_task ReaderLoop;
        modify_self (set_receive_task (Some t)) ;;
        t' ← create_task HeartbeatLoop;
        modify_self (set_heartbeat_task (Some t'))
    end.

(** [connect], from the end of
    [await asyncio.wait_for(asyncio.open_connection(host, port), timeout)]
    on: the part of [connect] behind its guard. *)
Definition connect_finish (net : oracle) : M unit :=
  match net with
  | Some e => raise (io_exn e)
  | None =>
      modify_self (λ c, set_writer (Some (mkWriter [] false))
                          (set_reader (Some (mkReader [] false None)) c)) ;;
      t ← create_task ReaderLoop;
      modify_self (set_receive_task (Some t)) ;;
      t' ← create_task HeartbeatLoop;
      modify_self (set_heartbeat_task (Some t'))
  end.

(** The loop of [close] and of the [finally] clause of [_reader_loop]:
    [for fut in self._response_futures.values():
       if not fut.done(): fut.set_exception(e)] *)
Definition fail_pending (e : exn) : M unit :=
  c ← get_self;
  for_each (Dict.values (_response_futures c)) (λ fut,
    d ← fut_done fut;
    if negb d then fut_set_exception fut e else ret tt).

(** [close], up to [await self._writer.wait_closed()].  Returns whether
    the call is parked there. *)
Definition close_begin : M bool :=
  modify_self (set_closed true) ;;
  c ← get_self;
  match _heartbeat_task c with Some t => task_cancel t | None => ret tt end ;;
  match _receive_task c with Some t => task_cancel t | None => ret tt end ;;
  match _writer c with
  | Some wr =>
      modify_self (set_writer (Some (mkWriter (sent wr) true))) ;;
      ret true
  | None => ret false
  end.

(** [close], from there on: an error of [wait_closed] is swallowed, then
    the pending futures are failed. *)
Definition close_end : M unit :=
  fail_pending (ConnectionError "Client closed").

(** [_write_message]; [drain] is the outcome of
    [await self._writer.drain()]. *)
Definition _write_message (obj : json) (drain : oracle) : M unit :=
  c ← get_self;
  match _writer c with
  | None => raise (ConnectionError "Not connected")
  | Some wr =>
      data ← or_raise UnicodeEncodeError (str_encode (json_dumps obj));
      prefix ← lift (struct_pack_I (Z.of_nat (length data)));
      modify_self (set_writer (Some (mkWriter (sent wr ++ prefix ++ data) (wclosed wr)))) ;;
      match drain with
      | Some e => raise (io_exn e)
      | None => ret tt
      end
  end.

(** [send_request], up to [await asyncio.wait_for(fut, timeout)].
    Returns the locals [msg_id] and [fut]. *)
Definition send_request_begin (payload : loc) (net drain : oracle) : M (Z * addr) :=
  c ← get_self;
  if _closed c then raise (ConnectionError "Client is closed")
  else
    match _writer c with None => connect net | Some _ => ret tt end ;;
    msg_id ← _next_msg_id;
    payload ← dict_copy payload;
    dict_setdefault payload "type" (JStr "request") ;;
    dict_setitem payload "msg_id" (JInt msg_id) ;;
    fut ← create_future;
    modify_self (λ c, set_response_futures
                        (Dict.set (pretty msg_id) fut (_response_futures c)) c) ;;
    obj ← read_dict payload;
    _write_message (JDict obj) drain ;;
    ret (msg_id, fut).

(** [send_request], from the end of [await self.connect()] up to
    [await asyncio.wait_for(fut, timeout)]: the part of [send_request]
    behind its two guards. *)
Definition send_request_body (payload : loc) (drain : oracle) : M (Z * addr) :=
  msg_id ← _next_msg_id;
  payload ← dict_copy payload;
  dict_setdefault payload "type" (JStr "request") ;;
  dict_setitem payload "msg_id" (JInt msg_id) ;;
  fut ← create_future;
  modify_self (λ c, set_response_futures
                      (Dict.set (pretty msg_id) fut (_response_futures c)) c) ;;
  obj ← read_dict payload;
  _write_message (JDict obj) drain ;;
  ret (msg_id, fut).

(** [asyncio.wait_for(fut, timeout)], resumed by [how]. *)
Definition wait_for (fut : addr) (how : wakeup) : M json :=
  match how with
  | FutureDone => λ w,
      match futures w !! fut with
      | Some (FResult v) => (Ok v, w)
      | Some (FException e) => (Raise e, w)
      | Some FCancelled => (Raise CancelledError, w)
      | Some FPending | None => (Wait, w)
      end
  | TimerFired => fut_cancel fut ;; raise TimeoutError
  | CallerCancelled => fut_cancel fut ;; raise CancelledError
  end.

(** [send_request], from [await asyncio.wait_for(fut, timeout)] on:
    [try: response = await ...; return response
     finally: self._response_futures.pop(str(msg_id), None)] *)
Definition send_request_end (msg_id : Z) (fut : addr) (how : wakeup) : M json :=
  try_finally
    (response ← wait_for fut how; ret response)
    (modify_self (λ c, set_response_futures
                         (Dict.pop (pretty msg_id) (_response_futures c)) c)).

(** [_read_exact] *)
Definition _read_exact (n : Z) : M (option (list byte)) :=
  c ← get_self;
  match _reader c with
  | None => raise AssertionError
  | Some r =>
      try_except
        (let '(res, r') := readexactly n r in
         modify_self (set_reader (Some r')) ;;
         data ← lift res;
         ret (Some data))
        (λ e, match e with
              | IncompleteReadError | ConnectionResetError => ret None
              | _ => raise e
              end)
  end.

(** [_read_message]; Python's [None] is [JNull]. *)
Definition _read_message : M json :=
  c ← get_self;
  match _reader c with
  | None => raise AssertionError
  | Some _ =>
      prefix_bytes ← _read_exact 4;
      match prefix_bytes with
      | None => ret JNull
      | Some prefix_bytes =>
          length ← lift (struct_unpack_I prefix_bytes);
          if bool_decide (length = 0) then ret JNull
          else
            body ← _read_exact length;
            match body with
            | None => ret JNull
            | Some body =>
                try_except
                  (s ← or_raise UnicodeDecodeError (bytes_decode body);
                   or_raise JSONDecodeError (json_loads s))
                  (λ e, match e with
                        | JSONDecodeError => ret JNull
                        | _ => raise e
                        end)
            end
      end
  end.

(** [msg.get(key)]: [AttributeError] unless [msg] is a dict. *)
Definition py_get (msg : json) (key : string) : M json :=
  match msg with
  | JDict d => ret (default JNull (Dict.get key d))
  | _ => raise AttributeError
  end.

(** [_handle_message] *)
Definition _handle_message (msg : json) : M unit :=
  reply_to ← py_get msg "reply_to";
  completed ←
    match reply_to with
    | JNull => ret false
    | _ =>
        c ← get_self;
        match Dict.get (py_str reply_to) (_response_futures c) with
        | Some fut =>
            d ← fut_done fut;
            if negb d then fut_set_result fut msg ;; ret true
            else ret false
        | None => ret false
        end
    end;
  if (completed : bool) then ret tt
  else modify (λ w, set_stdout (stdout w ++ [msg]) w).

(** One pass through the body of the [while] of [_reader_loop]; returns
    whether the loop goes on. *)
Definition _reader_loop_body : M bool :=
  c ← get_self;
  match _reader c with
  | None => raise AttributeError
  | Some r =>
      if at_eof r then ret false
      else
        msg ← _read_message;
        match msg with
        | JNull => ret false
        | _ => _handle_message msg ;; ret true
        end
  end.

(** One stretch of [_reader_loop] from inside its [try]: [resumed] is
    what the task is resumed with.  Both [except] clauses pass, and the
    [finally] clause runs when the loop is left.  Returns whether the
    loop goes on. *)
Definition _reader_loop_turn (resumed : M bool) : M bool :=
  go_on ← try_except resumed
            (λ e, match e with
                  | CancelledError => ret false
                  | _ => if is_Exception e then ret false else raise e
                  end);
  if (go_on : bool) then ret true
  else fail_pending (ConnectionError "Connection lost") ;; ret false.

(** The head of the [while] of [_heartbeat_loop], reached by task [t]:
    leave the loop, or sleep. *)
Definition _heartbeat_loop_head (t : tid) : M unit :=
  c ← get_self;
  if _closed c then finish t else set_pos t AtSleep.

(** What [_heartbeat_loop] does with the outcome [r] of its
    [send_request]: [except Exception: pass] goes round the loop,
    [except asyncio.CancelledError: pass] ends the coroutine. *)
Definition _heartbeat_loop_after (t : tid) (r : result json) : M unit :=
  match r with
  | Ok _ => _heartbeat_loop_head t
  | Raise e => if is_Exception e then _heartbeat_loop_head t else finish t
  | Wait => wait
  end.
End methods.

(** ** The event loop *)

(** What can happen next: a caller enters a method, the peer or the
    network acts on the socket, a timer runs out, or the loop resumes a
    parked coroutine.  Each event stands for one uninterrupted stretch. *)
Inductive event : Type :=
| EvNewDict (d : pydict)                            (** a caller builds a dict *)
| EvConnect (net : oracle)                          (** a caller runs [connect()], which opens the
                                                        connection without being interleaved *)
| EvSendRequest (payload : loc) (net drain : oracle) (** a caller enters [send_request(payload)],
                                                        which runs up to its [wait_for] *)
| EvWake (fut : addr)                               (** the call waiting on [fut] sees it done *)
| EvTimeout (fut : addr)                            (** the timeout of the call waiting on [fut] *)
| EvCancelCall (fut : addr)                         (** the caller waiting on [fut] is cancelled *)
| EvFeedData (data : list byte)                     (** bytes arrive from the peer *)
| EvFeedEof                                         (** the stream ends *)
| EvConnectionLost (e : io_error)                   (** the connection breaks *)
| EvTask (t : tid) (net drain : oracle)             (** the loop runs task [t] *)
| EvClose                                           (** a caller enters [close()] *)
| EvCloseResume                                     (** a [close()] parked in [wait_closed] goes on *)
| EvConnectPark                                     (** a caller enters [connect()], which parks in
                                                        [open_connection] *)
| EvSendRequestPark (payload : loc)                 (** a caller enters [send_request(payload)], whose
                                                        [connect()] parks in [open_connection] *)
| EvConnected (i : nat) (net drain : oracle).       (** the [open_connection] of the [i]-th parked
                                                        [connect()] ends, and the call goes on *)

Section machine.
Context `{PyLib}.

Definition get_world : M World := λ w, (Ok w, w).

(** The call waiting on [fut] is resumed and runs to its end; its
    outcome goes to whoever awaits it. *)
Definition resume_call (fut : addr) (how : wakeup) : M unit :=
  w ← get_world;
  match frames w !! fut with
  | None => ret tt
  | Some fr =>
      r ← attempt (send_request_end (fr_msg_id fr) fut how);
      modify (λ w, set_frames (delete fut (frames w)) w) ;;
      match fr_caller fr with
      | External => ret tt
      | Heartbeat t => _heartbeat_loop_after t r
      end
  end.

(** A call made by a task whose cancellation is due is resumed with
    [CancelledError], whatever else was about to resume it. *)
Definition wake_as (w : World) (fut : addr) (how : wakeup) : wakeup :=
  match frames w !! fut with
  | Some (mkFrame _ (Heartbeat t)) =>
      if from_option must_cancel false (tasks w !! t) then CallerCancelled else how
  | _ => how
  end.

(** An outside caller enters [send_request]; on success the call parks. *)
Definition call_send_request (payload : loc) (net drain : oracle) : M unit :=
  '(msg_id, fut) ← send_request_begin payload net drain;
  modify (λ w, set_frames (<[fut := mkFrame msg_id External]> (frames w)) w).

(** [_heartbeat_loop] wakes from its sleep:
    [try: await self.send_request({"type": "heartbeat"}, timeout=3.0)
     except Exception: pass] *)
Definition heartbeat_send (t : tid) (net drain : oracle) : M unit :=
  payload ← new_dict [("type", JStr "heartbeat")];
  r ← attempt (send_request_begin payload net drain);
  match r with
  | Ok (msg_id, fut) =>
      modify (λ w, set_frames (<[fut := mkFrame msg_id (Heartbeat t)]> (frames w)) w) ;;
      set_pos t (AtRequest fut)
  | Raise e => _heartbeat_loop_after t (Raise e)
  | Wait => wait
  end.

(** A stretch of [_reader_loop] run by task [t].  When the loop has to
    wait for a frame, the task is parked in [readexactly], inside the
    [try]; nothing of the frame has been taken from the buffer. *)
Definition reader_turn (t : tid) (resumed : M bool) : M unit :=
  on_wait
    (go_on ← _reader_loop_turn resumed;
     if (go_on : bool) then set_pos t AtRead else finish t)
    (set_pos t AtRead).

(** The loop runs task [t].  A cancellation that is due is delivered
    first: a coroutine that never started is dropped, one parked at an
    [await] gets [CancelledError] there. *)
Definition run_task (t : tid) (net drain : oracle) : M unit :=
  w ← get_world;
  match tasks w !! t with
  | None => ret tt
  | Some tk =>
      match coro tk, pos tk, must_cancel tk with
      | _, Finished, _ => ret tt
      | _, Created, true => finish t
      | ReaderLoop, Created, false =>
          (* assert self._reader is not None, outside the try *)
          match _reader (self w) with
          | None => finish t
          | Some _ => reader_turn t _reader_loop_body
          end
      | ReaderLoop, AtRead, false => reader_turn t _reader_loop_body
      | ReaderLoop, AtRead, true => reader_turn t (raise CancelledError)
      | HeartbeatLoop, Created, false => _heartbeat_loop_head t
      | HeartbeatLoop, AtSleep, false => heartbeat_send t net drain
      | HeartbeatLoop, AtSleep, true => finish t
      | HeartbeatLoop, AtRequest fut, true => resume_call fut CallerCancelled
      | HeartbeatLoop, AtRequest fut, false => ret tt
      | _, _, _ => ret tt
      end
  end.

(** [connect] up to [await asyncio.wait_for(asyncio.open_connection(...))],
    called by a caller or, for a payload, by [send_request]: past its
    guard, the call parks. *)
Definition park_connect (who : option loc) : M unit :=
  c ← get_self;
  if from_option (λ r, negb (at_eof r)) false (_reader c) then ret tt
  else modify (λ w, set_connecting (connecting w ++ [who]) w).

(** [send_request] up to the [open_connection] of its [connect()].  A
    call that needs no connection does not park: it is [EvSendRequest]. *)
Definition park_send_request (payload : loc) : M unit :=
  c ← get_self;
  if _closed c then raise (ConnectionError "Client is closed")
  else
    match _writer c with
    | None => park_connect (Some payload)
    | Some _ => ret tt
    end.

(** The [open_connection] of the [i]-th parked [connect()] ends with
    [net].  The call goes on without looking at any guard again: the rest
    of [connect], and for a [send_request] the rest of it up to its
    [wait_for], where it parks. *)
Definition resume_connect (i : nat) (net drain : oracle) : M unit :=
  w ← get_world;
  match connecting w !! i with
  | None => ret tt
  | Some who =>
      modify (λ w, set_connecting (delete i (connecting w)) w) ;;
      connect_finish net ;;
      match who with
      | None => ret tt
      | Some payload =>
          '(msg_id, fut) ← send_request_body payload drain;
          modify (λ w, set_frames (<[fut := mkFrame msg_id External]> (frames w)) w)
      end
  end.

(** The protocol feeds the reader: [feed_data], [feed_eof],
    [set_exception]. *)
Definition feed (f : StreamReader → StreamReader) : M unit :=
  modify_self (λ c, set_reader (f <$> _reader c) c).

Definition feed_data (data : list byte) (r : StreamReader) : StreamReader :=
  if eof r then r else mkReader (buffer r ++ data) (eof r) (rexception r).

Definition feed_eof (r : StreamReader) : StreamReader :=
  mkReader (buffer r) true (rexception r).

Definition set_exception (e : exn) (r : StreamReader) : StreamReader :=
  mkReader (buffer r) (eof r) (Some e).

Definition handle (e : event) : M unit :=
  match e with
  | EvNewDict d => new_dict d ;; ret tt
  | EvConnect net => connect net
  | EvSendRequest payload net drain =>
      w ← get_world;
      if bool_decide (payload < length (objects w))%nat
      then call_send_request payload net drain
      else ret tt
  | EvWake fut => w ← get_world; resume_call fut (wake_as w fut FutureDone)
  | EvTimeout fut => w ← get_world; resume_call fut (wake_as w fut TimerFired)
  | EvCancelCall fut =>
      w ← get_world;
      match frames w !! fut with
      | Some (mkFrame _ External) => resume_call fut CallerCancelled
      | _ => ret tt
      end
  | EvFeedData data => feed (feed_data data)
  | EvFeedEof => feed feed_eof
  | EvConnectionLost e => feed (set_exception (io_exn e))
  | EvTask t net drain => run_task t net drain
  | EvClose =>
      parked ← close_begin;
      if (parked : bool)
      then modify (λ w, set_closing (S (closing w)) w)
      else close_end
  | EvCloseResume =>
      w ← get_world;
      match closing w with
      | O => ret tt
      | S n => modify (set_closing n) ;; close_end
      end
  | EvConnectPark => park_connect None
  | EvSendRequestPark payload =>
      w ← get_world;
      if bool_decide (payload < length (objects w))%nat
      then park_send_request payload
      else ret tt
  | EvConnected i net drain => resume_connect i net drain
  end.

(** One event.  An exception that escapes goes to the caller and leaves
    the state as it stands.  The one stretch that can end in [Wait] here
    is the wake-up of a call whose future is not done, which does not take
    place (a reader task that has to wait is parked by [reader_turn]). *)
Definition step (w : World) (e : event) : World :=
  match handle e w with
  | (Wait, _) => w
  | (_, w') => w'
  end.

Definition run (w : World) (es : list event) : World := foldl step w es.
End machine.

(** ** A small implementation of the library interface

    It prints and reads compact JSON made of [null], booleans, integers,
    the three floats that are not finite ([NaN], [Infinity] and
    [-Infinity], which [json] prints and reads under these names),
    strings without escapes, lists and dicts.  A finite float is outside
    of it: it is printed as [?], which nothing reads.  The theorems hold
    for every implementation of [PyLib]; this one serves to run the model
    on concrete frames. *)
Module Demo.
Local Close Scope M_scope.

Definition dquote : ascii := "034"%char.

Definition join (sep : string) (l : list string) : string :=
  match l with
  | [] => EmptyString
  | s :: l' => foldl (λ acc x, acc +:+ sep +:+ x) s l'
  end.

Definition quote (q : string) (s : string) : string := q +:+ s +:+ q.

(** The text of a float, given the spellings of NaN and of infinity. *)
Definition float_text (nan inf : string) (x : PrimFloat.float) : string :=
  if PrimFloat.is_nan x then nan
  else if PrimFloat.eqb x PrimFloat.infinity then inf
  else if PrimFloat.eqb x PrimFloat.neg_infinity then "-" +:+ inf
  else "?".

(** The text of [v] with the given separators, string quote and
    spellings of the constants. *)
Fixpoint print (item_sep key_sep q t f n nan inf : string) (v : json) : string :=
  match v with
  | JNull => n
  | JBool true => t
  | JBool false => f
  | JInt z => pretty z
  | JFloat x => float_text nan inf x
  | JStr s => quote q s
  | JList l =>
      "[" +:+ join item_sep (map (print item_sep key_sep q t f n nan inf) l) +:+ "]"
  | JDict d =>
      "{" +:+ join item_sep
                (map (λ kv, quote q kv.1 +:+ key_sep
                            +:+ print item_sep key_sep q t f n nan inf kv.2) d)
          +:+ "}"
  end.

Definition dumps : json → string :=
  print "," ":" (String dquote EmptyString) "true" "false" "null" "NaN" "Infinity".
Definition repr : json → string :=
  print ", " ": " "'" "True" "False" "None" "nan" "inf".

Definition is_space (c : ascii) : bool :=
  bool_decide (c = " "%char) || bool_decide (c = "010"%char)
  || bool_decide (c = "013"%char) || bool_decide (c = "009"%char).

Fixpoint skip_ws (s : string) : string :=
  match s with
  | String c s' => if is_space c then skip_ws s' else s
  | EmptyString => s
  end.

Definition digit (c : ascii) : option Z :=
  let n := Z.of_nat (nat_of_ascii c) in
  if bool_decide (48 ≤ n ≤ 57) then Some (n - 48) else None.

(** The digits at the head of [s], read onto [acc]. *)
Fixpoint digits (acc : Z) (s : string) : Z * string :=
  match s with
  | String c s' =>
      match digit c with
      | Some d => digits (10 * acc + d) s'
      | None => (acc, s)
      end
  | EmptyString => (acc, s)
  end.

Definition starts_with_digit (s : string) : bool :=
  match s with
  | String c _ => bool_decide (is_Some (digit c))
  | EmptyString => false
  end.

(** An integer literal; none if a fraction or an exponent follows. *)
Definition number (s : string) : option (Z * string) :=
  let '(neg, s1) := match s with
                    | String "-" s' => (true, s')
                    | _ => (false, s)
                    end in
  if starts_with_digit s1 then
    let '(n, rest) := digits 0 s1 in
    match rest with
    | String "." _ | String "e" _ | String "E" _ => None
    | _ => Some (if neg then - n else n, rest)
    end
  else None.

(** The characters up to the closing quote. *)
Fixpoint chars (s : string) : option (string * string) :=
  match s with
  | String "034" s' => Some (EmptyString, s')
  | String "\" _ => None
  | String c s' => '(body, rest) ← chars s'; Some (String c body, rest)
  | EmptyString => None
  end.

Definition literal (lit : string) (v : json) (s : string) : option (json * string) :=
  if String.prefix lit s
  then Some (v, String.substring (String.length lit) (String.length s - String.length lit) s)
  else None.

Fixpoint value (fuel : nat) (s : string) : option (json * string) :=
  match fuel with
  | O => None
  | S fuel =>
      match skip_ws s with
      | String "n" _ as s => literal "null" JNull s
      | String "t" _ as s => literal "true" (JBool true) s
      | String "f" _ as s => literal "false" (JBool false) s
      | String "N" _ as s => literal "NaN" (JFloat PrimFloat.nan) s
      | String "I" _ as s => literal "Infinity" (JFloat PrimFloat.infinity) s
      | String "-" (String "I" _) as s =>
          literal "-Infinity" (JFloat PrimFloat.neg_infinity) s
      | String "034" s' => '(body, rest) ← chars s'; Some (JStr body, rest)
      | String "[" s' =>
          match skip_ws s' with
          | String "]" rest => Some (JList [], rest)
          | s' => '(l, rest) ← elements fuel s'; Some (JList l, rest)
          end
      | String "{" s' =>
          match skip_ws s' with
          | String "}" rest => Some (JDict [], rest)
          | s' => '(d, rest) ← members fuel [] s'; Some (JDict d, rest)
          end
      | s => '(n, rest) ← number s; Some (JInt n, rest)
      end
  end
with elements (fuel : nat) (s : string) : option (list json * string) :=
  match fuel with
  | O => None
  | S fuel =>
      '(v, rest) ← value fuel s;
      match skip_ws rest with
      | String "," rest => '(l, rest) ← elements fuel rest; Some (v :: l, rest)
      | String "]" rest => Some ([v], rest)
      | _ => None
      end
  end
with members (fuel : nat) (acc : list (string * json)) (s : string)
    : option (list (string * json) * string) :=
  match fuel with
  | O => None
  | S fuel =>
      match skip_ws s with
      | String "034" s' =>
          '(k, rest) ← chars s';
          match skip_ws rest with
          | String ":" rest =>
              '(v, rest) ← value fuel rest;
              match skip_ws rest with
              | String "," rest => members fuel (Dict.set k v acc) rest
              | String "}" rest => Some (Dict.set k v acc, rest)
              | _ => None
              end
          | _ => None
          end
      | _ => None
      end
  end.

Definition loads (s : string) : option json :=
  '(v, rest) ← value (S (String.length s)) s;
  match skip_ws rest with
  | EmptyString => Some v
  | _ => None
  end.

Definition encode (s : string) : option (list byte) :=
  Some (String.list_byte_of_string s).

(** Whether [bs] has the shape of UTF-8: every lead byte is followed by
    the continuation bytes it announces. *)
Fixpoint utf8_shape (pending : nat) (bs : list byte) : bool :=
  match bs with
  | [] => bool_decide (pending = 0%nat)
  | b :: bs' =>
      let n := Z_of_byte b in
      match pending with
      | S k => bool_decide (128 ≤ n < 192) && utf8_shape k bs'
      | O =>
          if bool_decide (n < 128) then utf8_shape 0 bs'
          else if bool_decide (194 ≤ n < 224) then utf8_shape 1 bs'
          else if bool_decide (224 ≤ n < 240) then utf8_shape 2 bs'
          else if bool_decide (240 ≤ n < 245) then utf8_shape 3 bs'
          else false
      end
  end.

Definition decode (bs : list byte) : option string :=
  if utf8_shape 0 bs then Some (String.string_of_list_byte bs) else None.

(** A frame around the text [s]; the body of the frame that
    [_write_message] sends for [v], and the frame. *)
Definition frame_of_text (s : string) : list byte :=
  let data := String.list_byte_of_string s in
  match struct_pack_I (Z.of_nat (length data)) with
  | Ok prefix => prefix ++ data
  | _ => []
  end.


Definition frame (v : json) : list byte := frame_of_text (dumps v).

Definition lib : PyLib := {|
  json_dumps := dumps;
  json_loads := loads;
  str_encode := encode;
  bytes_decode := decode;
  py_repr := repr
|}.
End Demo.

(** ** The part of the state that the correlation of replies rests on *)

Record Core : Type := mkCore {
  c_futures : list Future;
  c_registry : list (string * addr);
  c_frames : gmap addr Frame;
  c_counter : Z;
  c_closed : bool;
  c_tasks : list Task
}.

Definition core (w : World) : Core :=
  mkCore (futures w) (_response_futures (self w)) (frames w)
    (_msg_id_counter (self w)) (_closed (self w)) (tasks w).

(** The two exceptions that the client sets on a future. *)
Definition connection_lost : exn := ConnectionError "Connection lost".
Definition client_closed : exn := ConnectionError "Client closed".

Section invariants.
Context `{PyLib}.

(** [msg] is a dict whose ["reply_to"] is not [None] and prints as the
    integer [m] does. *)
Definition replies_to (msg : json) (m : Z) : Prop :=
  ∃ d v, msg = JDict d ∧ Dict.get "reply_to" d = Some v ∧ v ≠ JNull
         ∧ py_str v = pretty m.

(** Every task whose cancellation is due, and every heartbeat loop that
    has ended, belongs to a closed client. *)
Definition tasks_ok (closed : bool) (ts : list Task) : Prop :=
  ∀ t tk, ts !! t = Some tk →
    (must_cancel tk = true → closed = true)
    ∧ (coro tk = HeartbeatLoop → pos tk = Finished → closed = true).

(** What holds of the state between any two events. *)
Record Inv (s : Core) : Prop := {
  inv_nodup : NoDup (Dict.keys (c_registry s));
  inv_counter : 0 ≤ c_counter s;
  inv_reg_alloc : ∀ k a, Dict.get k (c_registry s) = Some a →
    (a < length (c_futures s))%nat;
  inv_reg_keys : ∀ k a, Dict.get k (c_registry s) = Some a →
    ∃ m, k = pretty m ∧ 0 < m ≤ c_counter s;
  inv_frame_alloc : ∀ a fr, c_frames s !! a = Some fr →
    (a < length (c_futures s))%nat;
  inv_frame_ids : ∀ a fr, c_frames s !! a = Some fr →
    0 < fr_msg_id fr ≤ c_counter s;
  inv_frame_inj : ∀ a a' fr fr',
    c_frames s !! a = Some fr → c_frames s !! a' = Some fr' →
    fr_msg_id fr = fr_msg_id fr' → a = a';
  inv_reg_frame : ∀ k a fr,
    Dict.get k (c_registry s) = Some a → c_frames s !! a = Some fr →
    k = pretty (fr_msg_id fr);
  inv_result : ∀ a fr msg,
    c_frames s !! a = Some fr → c_futures s !! a = Some (FResult msg) →
    replies_to msg (fr_msg_id fr);
  inv_not_cancelled : ∀ a fr,
    c_frames s !! a = Some fr → c_futures s !! a ≠ Some FCancelled;
  inv_exn : ∀ a e, c_futures s !! a = Some (FException e) →
    e = connection_lost ∨ e = client_closed;
  inv_tasks : tasks_ok (c_closed s) (c_tasks s)
}.

(** When a pending future at [a] may take the state [f]. *)
Definition resolve_ok (s : Core) (a : addr) (f : Future) : Prop :=
  match f with
  | FPending => False
  | FResult msg => ∀ fr, c_frames s !! a = Some fr → replies_to msg (fr_msg_id fr)
  | FException e => e = connection_lost ∨ e = client_closed
  | FCancelled => c_frames s !! a = None
  end.

(** The elementary changes out of which every event is made. *)
Inductive effect (s : Core) : Core → Prop :=
| eff_resolve a f :
    c_futures s !! a = Some FPending →
    resolve_ok s a f →
    effect s (mkCore (<[a := f]> (c_futures s)) (c_registry s) (c_frames s)
                (c_counter s) (c_closed s) (c_tasks s))
| eff_register :
    effect s (mkCore (c_futures s ++ [FPending])
                (Dict.set (pretty (c_counter s + 1)) (length (c_futures s)) (c_registry s))
                (c_frames s) (c_counter s + 1) (c_closed s) (c_tasks s))
| eff_park a m who :
    c_futures s !! a = Some FPending →
    0 < m ≤ c_counter s →
    (∀ a' fr', c_frames s !! a' = Some fr' → fr_msg_id fr' < m) →
    (∀ k, Dict.get k (c_registry s) = Some a → k = pretty m) →
    effect s (mkCore (c_futures s) (c_registry s)
                (<[a := mkFrame m who]> (c_frames s))
                (c_counter s) (c_closed s) (c_tasks s))
| eff_finish a fr :
    c_frames s !! a = Some fr →
    effect s (mkCore (c_futures s)
                (Dict.pop (pretty (fr_msg_id fr)) (c_registry s))
                (delete a (c_frames s)) (c_counter s) (c_closed s) (c_tasks s))
| eff_tasks ts :
    tasks_ok (c_closed s) ts →
    effect s (mkCore (c_futures s) (c_registry s) (c_frames s)
                (c_counter s) (c_closed s) ts)
| eff_close :
    effect s (mkCore (c_futures s) (c_registry s) (c_frames s)
                (c_counter s) true (c_tasks s)).

(** What never goes back. *)
Record grows (s s' : Core) : Prop := {
  grows_done : ∀ a f, c_futures s !! a = Some f → fut_is_done f = true →
    c_futures s' !! a = Some f;
  grows_length : (length (c_futures s) ≤ length (c_futures s'))%nat;
  grows_counter : c_counter s ≤ c_counter s';
  grows_closed : c_closed s = true → c_closed s' = true;
  grows_absent : ∀ m, m ≤ c_counter s →
    Dict.get (pretty m) (c_registry s) = None →
    Dict.get (pretty m) (c_registry s') = None
}.
End invariants.

(** ** Concrete runs *)

Module Scenario.
Definition ping : pydict := [("type", JStr "ping")].
Definition request : json := JDict [("type", JStr "ping"); ("msg_id", JInt 1)].
Definition reply : json := JDict [("reply_to", JInt 1); ("payload", JStr "pong")].
Definition text_reply : json := JDict [("reply_to", JStr "1")].
Definition notice : json := JDict [("type", JStr "notice")].
Definition garbage : string := "{bad".


(** A client that has connected. *)
Definition connected : World := run (H := Demo.lib) (init [ping]) [EvConnect None].

(** A connected client with one request waiting for its reply. *)
Definition waiting : World :=
  run (H := Demo.lib) (init [ping]) [EvConnect None; EvSendRequest 0%nat None None].

(** The reply has arrived and the reader loop has handled it. *)
Definition replied : World :=
  run (H := Demo.lib) waiting [EvFeedData (Demo.frame reply); EvTask 0%nat None None].
End Scenario.

(** [m] leaves every dict object that exists as it is. *)
Definition keeps {A} (m : M A) : Prop :=
  ∀ w p d, objects w !! p = Some d → objects (m w).2 !! p = Some d.

(** ** What the further theorems speak of *)

(** [m] keeps the property [P] of the state. *)
Definition preserves {A} (P : World → Prop) (m : M A) : Prop :=
  ∀ w, P w → P (m w).2.

(** Every call that waits is registered under its own id. *)
Definition linked (w : World) : Prop :=
  ∀ a fr, frames w !! a = Some fr →
    Dict.get (pretty (fr_msg_id fr)) (_response_futures (self w)) = Some a.

(** How one event changes the registry and the calls that wait: not at
    all, by one request that registers and may park, or by one call that
    ends. *)
Definition calls_move (w w' : World) : Prop :=
  (_response_futures (self w') = _response_futures (self w) ∧ frames w' = frames w)
  ∨ (_response_futures (self w')
       = Dict.set (pretty (_msg_id_counter (self w) + 1)) (length (futures w))
           (_response_futures (self w))
     ∧ (frames w' = frames w
        ∨ ∃ who, frames w'
                 = <[length (futures w) := mkFrame (_msg_id_counter (self w) + 1) who]>
                     (frames w)))
  ∨ (∃ a fr, frames w !! a = Some fr
       ∧ _response_futures (self w')
         = Dict.pop (pretty (fr_msg_id fr)) (_response_futures (self w))
       ∧ frames w' = delete a (frames w)).

(** Every call that waits has a future that is done. *)
Definition all_done (w : World) : Prop :=
  ∀ a fr, frames w !! a = Some fr →
    ∃ f, futures w !! a = Some f ∧ fut_is_done f = true.

(** A [close()] parked in [wait_closed] belongs to a closed client. *)
Definition closing_closed (w : World) : Prop :=
  (0 < closing w)%nat → _closed (self w) = true.

(** The registry is [reg] and the calls that wait are [frs]. *)
Definition calls_are (reg : list (string * addr)) (frs : gmap addr Frame) (w : World) : Prop :=
  _response_futures (self w) = reg ∧ frames w = frs.

(** The tasks after [task.cancel()] on the task that a field of the
    client names, if it names one. *)
Definition cancel_in (t : option tid) (ts : list Task) : list Task :=
  match t with
  | Some t =>
      match ts !! t with
      | Some tk =>
          match pos tk with
          | Finished => ts
          | _ => <[t := mkTask (coro tk) (pos tk) true]> ts
          end
      | None => ts
      end
  | None => ts
  end.

(** The state in which [close] reaches its [wait_closed], or its loop
    over the futures when there is no writer. *)
Definition closed_state (w : World) : World :=
  mkWorld
    (mkClient (_reader (self w)) ((λ wr, mkWriter (sent wr) true) <$> _writer (self w))
       (_receive_task (self w)) (_heartbeat_task (self w))
       (_response_futures (self w)) (_msg_id_counter (self w)) true)
    (futures w) (objects w)
    (cancel_in (_receive_task (self w)) (cancel_in (_heartbeat_task (self w)) (tasks w)))
    (frames w) (closing w) (stdout w) (connecting w).

(** A task whose cancellation is due, or that has ended. *)
Definition marked (t : option tid) (ts : list Task) : Prop :=
  ∀ t' tk, t = Some t' → ts !! t' = Some tk → pos tk = Finished ∨ must_cancel tk = true.

Section wire.
Context `{PyLib}.

(** [sent_upto c bs]: the bytes [bs] are whole frames, each the
    encoding of a dict with a ["msg_id"]; the ids go up from frame to
    frame and stay at or below [c]. *)
Inductive sent_upto : Z → list byte → Prop :=
| sent_none c : sent_upto c []
| sent_more c m c' bs d data prefix :
    sent_upto c bs → c < m → m ≤ c' →
    Dict.get "msg_id" d = Some (JInt m) →
    str_encode (json_dumps (JDict d)) = Some data →
    struct_pack_I (Z.of_nat (length data)) = Ok prefix →
    sent_upto c' (bs ++ prefix ++ data).

(** What the writer of the client has sent are requests with ids up to
    the counter. *)
Definition wire_ok (w : World) : Prop :=
  ∀ wr, _writer (self w) = Some wr → sent_upto (_msg_id_counter (self w)) (sent wr).
End wire.

Section notices.
Context `{PyLib}.

(** A frame on the wire, with the dict that it decodes to: its prefix,
    its body, and a dict without ["reply_to"]. *)
Definition notice_frame (f : list byte * list byte * pydict) : Prop :=
  let '(prefix, body, d) := f in
  struct_pack_I (Z.of_nat (length body)) = Ok prefix ∧ body ≠ []
  ∧ (∃ s, bytes_decode body = Some s ∧ json_loads s = Some (JDict d))
  ∧ Dict.get "reply_to" d = None.

Definition frame_bytes (f : list byte * list byte * pydict) : list byte := f.1.1 ++ f.1.2.
Definition frame_dict (f : list byte * list byte * pydict) : json := JDict f.2.
End notices.

(** ** More concrete runs *)

Module Trial.
(** A connected client that has received three bytes. *)
Definition three_bytes : World :=
  run (H := Demo.lib) Scenario.connected [EvFeedData [x01; x02; x03]].

(** A JSON document that is no object. *)
Definition array : json := JList [JInt 1].

(** A request waits, [close()] is parked in [wait_closed], and the
    stream ends meanwhile. *)
Definition closing_while_waiting : World :=
  run (H := Demo.lib) (init [Scenario.ping])
    [EvConnect None; EvSendRequest 0%nat None None; EvClose; EvFeedEof].

(** A caller's dict that brings its own ["msg_id"] and ["type"]. *)
Definition own_fields : pydict :=
  [("msg_id", JInt 99); ("type", JStr "echo"); ("payload", JStr "hi")].

(** Two requests wait. *)
Definition two_waiting : World :=
  run (H := Demo.lib) (init [Scenario.ping])
    [EvConnect None; EvSendRequest 0%nat None None; EvSendRequest 0%nat None None].

(** Two notifications, as frames. *)
Definition tick : pydict := [("type", JStr "tick")].
Definition tock : pydict := [("type", JStr "tock")].
Definition as_frame (d : pydict) : list byte * list byte * pydict :=
  (take 4 (Demo.frame (JDict d)), drop 4 (Demo.frame (JDict d)), d).
End Trial.

(** * Proofs *)

Set Warnings "-clear-no-such-hyp".

(** ** Dictionaries *)

Section dict_facts.
Context {V : Type}.
Implicit Types (d : list (string * V)) (k : string) (v : V).

Lemma get_set_eq k v d : Dict.get k (Dict.set k v d) = Some v.
Proof.
  induction d as [|[k' v'] d IH]; simpl.
  - by rewrite decide_True.
  - destruct (decide (k = k')) as [->|Hne]; simpl.
    + by rewrite decide_True.
    + by rewrite decide_False.
Qed.

Lemma get_set_ne k k' v d : k ≠ k' → Dict.get k' (Dict.set k v d) = Dict.get k' d.
Proof.
  intros Hne. induction d as [|[k0 v0] d IH]; simpl.
  - by rewrite decide_False.
  - destruct (decide (k = k0)) as [->|Hne0]; simpl.
    + by rewrite !decide_False.
    + by rewrite IH.
Qed.

Lemma get_None_keys k d : Dict.get k d = None ↔ k ∉ Dict.keys d.
Proof.
  unfold Dict.keys. induction d as [|[k' v'] d IH]; simpl.
  - split; [intros _; apply not_elem_of_nil | done].
  - rewrite not_elem_of_cons. destruct (decide (k = k')); naive_solver.
Qed.

Lemma keys_set_elem k k' v d :
  k' ∈ Dict.keys (Dict.set k v d) ↔ k' = k ∨ k' ∈ Dict.keys d.
Proof.
  unfold Dict.keys. induction d as [|[k0 v0] d IH]; simpl.
  - rewrite list_elem_of_singleton. split; [auto|]. intros [?|Hin]; [done|].
    by apply elem_of_nil in Hin.
  - destruct (decide (k = k0)) as [->|Hne]; simpl; rewrite !elem_of_cons.
    + naive_solver.
    + rewrite IH. naive_solver.
Qed.

Lemma keys_set_nodup k v d : NoDup (Dict.keys d) → NoDup (Dict.keys (Dict.set k v d)).
Proof.
  unfold Dict.keys. induction d as [|[k0 v0] d IH]; simpl; intros Hnd.
  - apply NoDup_singleton.
  - destruct (decide (k = k0)) as [->|Hne]; simpl; [done|].
    apply NoDup_cons in Hnd as [Hnotin Hnd]. apply NoDup_cons. split; [|by apply IH].
    intros Hin. apply (keys_set_elem k k0 v d) in Hin as [?|?]; [congruence|done].
Qed.

Lemma keys_pop_elem k k' d : k' ∈ Dict.keys (Dict.pop k d) → k' ∈ Dict.keys d.
Proof.
  unfold Dict.keys. induction d as [|[k0 v0] d IH]; simpl; [done|].
  destruct (decide (k = k0)); simpl; rewrite !elem_of_cons; naive_solver.
Qed.

Lemma keys_pop_nodup k d : NoDup (Dict.keys d) → NoDup (Dict.keys (Dict.pop k d)).
Proof.
  unfold Dict.keys. induction d as [|[k0 v0] d IH]; simpl; intros Hnd; [done|].
  apply NoDup_cons in Hnd as [Hnotin Hnd].
  destruct (decide (k = k0)); simpl; [done|].
  apply NoDup_cons. split; [|by apply IH].
  intros Hin. by apply (keys_pop_elem k k0 d) in Hin.
Qed.

Lemma get_pop_ne k k' d : k ≠ k' → Dict.get k' (Dict.pop k d) = Dict.get k' d.
Proof.
  intros Hne. induction d as [|[k0 v0] d IH]; simpl; [done|].
  destruct (decide (k = k0)) as [->|Hne0]; simpl.
  - by rewrite decide_False.
  - by rewrite IH.
Qed.

Lemma get_pop_eq k d : NoDup (Dict.keys d) → Dict.get k (Dict.pop k d) = None.
Proof.
  unfold Dict.keys. induction d as [|[k0 v0] d IH]; simpl; intros Hnd; [done|].
  apply NoDup_cons in Hnd as [Hnotin Hnd].
  destruct (decide (k = k0)) as [->|Hne]; simpl.
  - by apply get_None_keys.
  - rewrite decide_False by done. by apply IH.
Qed.

Lemma get_pop_None k k' d : Dict.get k' d = None → Dict.get k' (Dict.pop k d) = None.
Proof.
  rewrite !get_None_keys. intros Hnot Hin. by apply keys_pop_elem in Hin.
Qed.

Lemma get_pop_Some k k' v d :
  NoDup (Dict.keys d) → Dict.get k' (Dict.pop k d) = Some v →
  k' ≠ k ∧ Dict.get k' d = Some v.
Proof.
  intros Hnd Hget. destruct (decide (k = k')) as [->|Hne].
  - by rewrite get_pop_eq in Hget.
  - by rewrite get_pop_ne in Hget.
Qed.

Lemma get_values k v d : Dict.get k d = Some v → v ∈ Dict.values d.
Proof.
  unfold Dict.values. induction d as [|[k0 v0] d IH]; simpl; [done|].
  destruct (decide (k = k0)); rewrite elem_of_cons; naive_solver.
Qed.
End dict_facts.

(** ** Elementary changes keep the invariant *)

Section effects.
Context `{PyLib}.

Lemma Inv_init : Inv (mkCore [] [] ∅ 0 false []).
Proof.
  split; simpl; try done.
  apply NoDup_nil_2.
Qed.

Lemma lookup_snoc_pending (fs : list Future) a f :
  (fs ++ [FPending]) !! a = Some f → f ≠ FPending → fs !! a = Some f.
Proof.
  intros Hl Hne. apply lookup_app_Some in Hl as [Hl|[_ Hl]]; [done|].
  apply list_lookup_singleton_Some in Hl as [_ <-]. done.
Qed.

Lemma lookup_insert_cases (fs : list Future) a a' f f' :
  <[a := f]> fs !! a' = Some f' → fs !! a = Some FPending →
  (a' = a ∧ f' = f) ∨ (a' ≠ a ∧ fs !! a' = Some f').
Proof.
  intros Hl Hp. destruct (decide (a = a')) as [->|Hne].
  - rewrite list_lookup_insert_eq in Hl by (by eapply lookup_lt_Some).
    left. split; congruence.
  - rewrite list_lookup_insert_ne in Hl by done. right. split; congruence.
Qed.

Lemma effect_Inv s s' : Inv s → effect s s' → Inv s'.
Proof.
  intros [Hnd Hc0 Hra Hrk Hfa Hfi Hfj Hrf Hres Hnc Hexn Htk] Heff.
  destruct Heff as [a f Hpend Hok| |a m who Hpend Hm Hothers Hkeys|a fr Hfr|ts Hts|].
  - (* a pending future is resolved *)
    split; simpl; try done.
    + intros k a' Hk. rewrite length_insert. eauto.
    + intros a' fr Hfr. rewrite length_insert. eauto.
    + intros a' fr msg Hfr Hl.
      destruct (lookup_insert_cases _ _ _ _ _ Hl Hpend) as [[-> <-]|[_ Hl']]; [|by eauto].
      by apply Hok.
    + intros a' fr Hfr Hl.
      destruct (lookup_insert_cases _ _ _ _ _ Hl Hpend) as [[-> <-]|[_ Hl']];
        [|by eapply Hnc].
      simpl in Hok. congruence.
    + intros a' e Hl.
      destruct (lookup_insert_cases _ _ _ _ _ Hl Hpend) as [[-> <-]|[_ Hl']];
        [done|by eauto].
  - (* a request is registered *)
    split; simpl; try done.
    + by apply keys_set_nodup.
    + lia.
    + intros k a Hk. rewrite length_app. simpl.
      destruct (decide (pretty (c_counter s + 1) = k)) as [<-|Hne].
      * rewrite get_set_eq in Hk. injection Hk as <-. lia.
      * rewrite get_set_ne in Hk by done. apply Hra in Hk. lia.
    + intros k a Hk.
      destruct (decide (pretty (c_counter s + 1) = k)) as [<-|Hne].
      * exists (c_counter s + 1). split; [done|lia].
      * rewrite get_set_ne in Hk by done.
        destruct (Hrk _ _ Hk) as (m & -> & Hm). exists m. split; [done|lia].
    + intros a fr Hfr. rewrite length_app. apply Hfa in Hfr. simpl. lia.
    + intros a fr Hfr. apply Hfi in Hfr. lia.
    + intros k a fr Hk Hfr.
      destruct (decide (pretty (c_counter s + 1) = k)) as [<-|Hne].
      * rewrite get_set_eq in Hk. injection Hk as <-. apply Hfa in Hfr. lia.
      * rewrite get_set_ne in Hk by done. eauto.
    + intros a fr msg Hfr Hl. apply lookup_snoc_pending in Hl; [eauto|done].
    + intros a fr Hfr Hl. apply lookup_snoc_pending in Hl; [by eapply Hnc|done].
    + intros a e Hl. apply lookup_snoc_pending in Hl; [eauto|done].
  - (* a call parks *)
    split; simpl; try done.
    + intros a' fr Hfr.
      apply lookup_insert_Some in Hfr as [[<- _]|[_ Hfr]]; [|by eauto].
      by eapply lookup_lt_Some.
    + intros a' fr Hfr.
      apply lookup_insert_Some in Hfr as [[_ <-]|[_ Hfr]]; [done|by eauto].
    + intros a1 a2 fr1 fr2 Hfr1 Hfr2 Heq.
      apply lookup_insert_Some in Hfr1 as [[<- <-]|[Hne1 Hfr1]];
        apply lookup_insert_Some in Hfr2 as [[<- <-]|[Hne2 Hfr2]]; simpl in *.
      * done.
      * apply Hothers in Hfr2. lia.
      * apply Hothers in Hfr1. lia.
      * eauto.
    + intros k a' fr Hk Hfr.
      apply lookup_insert_Some in Hfr as [[<- <-]|[_ Hfr]]; [|by eauto].
      simpl. by apply Hkeys.
    + intros a' fr msg Hfr Hl.
      apply lookup_insert_Some in Hfr as [[<- _]|[_ Hfr]]; [|by eauto].
      congruence.
    + intros a' fr Hfr Hl.
      apply lookup_insert_Some in Hfr as [[<- _]|[_ Hfr]]; [|by eapply Hnc].
      congruence.
  - (* a call ends *)
    split; simpl; try done.
    + by apply keys_pop_nodup.
    + intros k a' Hk. apply get_pop_Some in Hk as [_ Hk]; eauto.
    + intros k a' Hk. apply get_pop_Some in Hk as [_ Hk]; eauto.
    + intros a' fr' Hfr'. apply lookup_delete_Some in Hfr' as [_ Hfr']. eauto.
    + intros a' fr' Hfr'. apply lookup_delete_Some in Hfr' as [_ Hfr']. eauto.
    + intros a1 a2 fr1 fr2 H1 H2. apply lookup_delete_Some in H1 as [_ H1].
      apply lookup_delete_Some in H2 as [_ H2]. eauto.
    + intros k a' fr' Hk Hfr'. apply get_pop_Some in Hk as [_ Hk]; [|done].
      apply lookup_delete_Some in Hfr' as [_ Hfr']. eauto.
    + intros a' fr' msg Hfr'. apply lookup_delete_Some in Hfr' as [_ Hfr']. eauto.
    + intros a' fr' Hfr'. apply lookup_delete_Some in Hfr' as [_ Hfr']. eauto.
  - (* tasks move *)
    split; simpl; done.
  - (* the client is closed *)
    split; simpl; done.
Qed.

Lemma effects_Inv s s' : Inv s → rtc effect s s' → Inv s'.
Proof. intros HI Hrtc. induction Hrtc; eauto using effect_Inv. Qed.

Lemma grows_refl s : grows s s.
Proof. split; auto; lia. Qed.

Lemma grows_trans s1 s2 s3 : grows s1 s2 → grows s2 s3 → grows s1 s3.
Proof.
  intros [Hd1 Hl1 Hc1 Hcl1 Ha1] [Hd2 Hl2 Hc2 Hcl2 Ha2]. split; auto; try lia.
  intros m Hm Hg. apply Ha2; [lia|auto].
Qed.

Lemma effect_grows s s' : effect s s' → grows s s'.
Proof.
  intros Heff. destruct Heff as [a f Hpend Hok| |a m who Hpend Hm Hothers Hkeys|a fr Hfr|ts Hts|].
  - split; simpl; auto; try lia.
    + intros a' f' Hl Hdone. destruct (decide (a = a')) as [->|Hne].
      * assert (f' = FPending) as -> by congruence. done.
      * by rewrite list_lookup_insert_ne.
    + by rewrite length_insert.
  - split; simpl; auto; try lia.
    + intros a f Hl _. by apply lookup_app_l_Some.
    + rewrite length_app. lia.
    + intros m Hm Hg. rewrite get_set_ne; [done|].
      intros Heq. apply (inj pretty) in Heq. lia.
  - split; simpl; auto; lia.
  - split; simpl; auto; try lia.
    intros m Hm Hg. by apply get_pop_None.
  - split; simpl; auto; lia.
  - split; simpl; auto; lia.
Qed.

Lemma effects_grows s s' : rtc effect s s' → grows s s'.
Proof.
  induction 1; [apply grows_refl|].
  eapply grows_trans; [by apply effect_grows|done].
Qed.
End effects.

(** Unfold the monad and the primitive operations on the state. *)
Ltac unfold_M :=
  unfold try_finally, try_except, attempt, or_raise, lift, bind, ret, raise, wait,
    get_self, get_world, modify_self, modify in *.

Ltac unfold_prims :=
  unfold fut_set_result, fut_set_exception, fut_cancel, fut_done, create_future,
    create_task, task_cancel, set_pos, finish, new_dict, read_dict, dict_copy,
    dict_setdefault, dict_setitem in *.

Ltac crush := unfold_prims; unfold_M; simpl; repeat case_match; simplify_eq/=.

(** ** The loop that fails the pending futures *)

Section pending_loop.
Context `{PyLib}.

Lemma pending_of_not_done (fs : list Future) a :
  from_option fut_is_done true (fs !! a) = false → fs !! a = Some FPending.
Proof. destruct (fs !! a) as [[]|]; simpl; congruence. Qed.

Lemma for_each_cons {A} (x : A) l (f : A → M unit) w :
  for_each (x :: l) f w =
  match f x w with
  | (Ok _, w') => for_each l f w'
  | (Raise e, w') => (Raise e, w')
  | (Wait, w') => (Wait, w')
  end.
Proof. done. Qed.

Lemma fail_one_spec e a w :
  (d ← fut_done a; if negb d then fut_set_exception a e else ret tt) w =
  (Ok tt, if from_option fut_is_done true (futures w !! a) then w
          else set_futures (<[a := FException e]> (futures w)) w).
Proof.
  unfold fut_set_exception, fut_done, bind, modify, ret.
  by destruct (from_option fut_is_done true (futures w !! a)) eqn:Hd; simpl; rewrite ?Hd.
Qed.

(** The loop that fails the pending futures never raises, touches only
    futures that are pending, and leaves the rest of the state alone. *)
Lemma for_each_fail_spec e (l : list addr) w :
  e = connection_lost ∨ e = client_closed →
  ∃ fs, for_each l (λ fut, d ← fut_done fut;
                           if negb d then fut_set_exception fut e else ret tt) w
        = (Ok tt, set_futures fs w)
        ∧ rtc effect (core w) (core (set_futures fs w))
        ∧ length fs = length (futures w)
        ∧ (∀ a, a ∉ l → fs !! a = futures w !! a)
        ∧ (∀ a, a ∈ l → futures w !! a = Some FPending → fs !! a = Some (FException e))
        ∧ (∀ a f, futures w !! a = Some f → f ≠ FPending → fs !! a = Some f).
Proof.
  intros He. revert w. induction l as [|a l IH]; intros w.
  - exists (futures w). destruct w; simpl. split; [done|]. split; [apply rtc_refl|].
    split; [done|]. split; [done|]. split; [|done]. intros a Ha. by apply elem_of_nil in Ha.
  - rewrite for_each_cons, fail_one_spec.
    destruct (from_option fut_is_done true (futures w !! a)) eqn:Hd.
    + destruct (IH w) as (fs & Heq & Hrtc & Hlen & Hout & Hin & Hkeep).
      exists fs. split; [done|]. split; [done|]. split; [done|]. split.
      { intros a' Ha'. apply Hout. set_solver. }
      split; [|done]. intros a' Ha' Hp. apply elem_of_cons in Ha' as [->|Ha'].
      * rewrite Hp in Hd. done.
      * by apply Hin.
    + apply pending_of_not_done in Hd as Hp.
      set (w1 := set_futures (<[a:=FException e]> (futures w)) w).
      destruct (IH w1) as (fs & Heq & Hrtc & Hlen & Hout & Hin & Hkeep).
      exists fs. split; [by rewrite Heq|]. split.
      { eapply rtc_l; [|exact Hrtc]. by apply (eff_resolve (core w) a (FException e)). }
      subst w1. simpl in *. rewrite length_insert in Hlen. split; [done|].
      split.
      { intros a' Ha'. rewrite Hout by set_solver.
        apply list_lookup_insert_ne. set_solver. }
      split.
      { intros a' Ha' Hp'. destruct (decide (a = a')) as [<-|Hne].
        - apply Hkeep; [|done]. apply list_lookup_insert_eq. by eapply lookup_lt_Some.
        - apply elem_of_cons in Ha' as [?|Ha']; [done|].
          apply Hin; [done|]. by rewrite list_lookup_insert_ne. }
      intros a' f Hl Hne. apply Hkeep; [|done].
      rewrite list_lookup_insert_ne; [done|]. intros <-. congruence.
Qed.

Lemma fail_pending_spec e w :
  e = connection_lost ∨ e = client_closed →
  ∃ fs, fail_pending e w = (Ok tt, set_futures fs w)
        ∧ rtc effect (core w) (core (set_futures fs w))
        ∧ length fs = length (futures w)
        ∧ (∀ a, a ∉ Dict.values (_response_futures (self w)) → fs !! a = futures w !! a)
        ∧ (∀ a, a ∈ Dict.values (_response_futures (self w)) →
                futures w !! a = Some FPending → fs !! a = Some (FException e))
        ∧ (∀ a f, futures w !! a = Some f → f ≠ FPending → fs !! a = Some f).
Proof.
  intros He. unfold fail_pending, bind at 1, get_self.
  by apply for_each_fail_spec.
Qed.
End pending_loop.

(** ** Reading and dispatching a message *)

Section reading.
Context `{PyLib}.

(** Reading touches nothing but the reader. *)
Lemma _read_exact_reader n w :
  ∃ rd, (_read_exact n w).2 = set_self (set_reader rd (self w)) w.
Proof.
  destruct w as [[rd wr rt ht reg cnt cl] fs os ts frs cg out cn].
  unfold _read_exact, readexactly. crush; eexists; reflexivity.
Qed.

Lemma _read_message_reader w :
  ∃ rd, (_read_message w).2 = set_self (set_reader rd (self w)) w.
Proof.
  unfold _read_message. unfold bind at 1. unfold get_self. simpl.
  destruct (_reader (self w)) as [r|] eqn:Hr.
  2:{ exists None. destruct w as [[]]; simpl in *. by subst. }
  unfold bind at 1.
  destruct (_read_exact_reader 4 w) as [rd1 Hrd1].
  destruct (_read_exact 4 w) as [[[p|]|e|] w1] eqn:H1; simpl in Hrd1; subst w1;
    try (eexists; reflexivity).
  unfold bind at 1, lift. destruct (struct_unpack_I p) as [n|e|]; try (eexists; reflexivity).
  case_bool_decide; [eexists; reflexivity|].
  unfold bind at 1.
  set (w1 := set_self (set_reader rd1 (self w)) w).
  destruct (_read_exact_reader n w1) as [rd2 Hrd2].
  destruct (_read_exact n w1) as [[[b|]|e|] w2] eqn:H2; simpl in Hrd2; subst w2;
    try (eexists; reflexivity).
  crush; eexists; reflexivity.
Qed.

Lemma _read_message_core w : core (_read_message w).2 = core w.
Proof. destruct (_read_message_reader w) as [rd ->]. done. Qed.

Lemma py_get_Some d key v :
  default JNull (Dict.get key d) = v → v ≠ JNull → Dict.get key d = Some v.
Proof. destruct (Dict.get key d); simpl; congruence. Qed.

(** [_handle_message] resolves at most the future that the registry
    holds under [str(reply_to)], and only while it is pending. *)
Lemma _handle_message_cases msg w :
  (_handle_message msg w = (Raise AttributeError, w) ∧ ∀ d, msg ≠ JDict d)
  ∨ ((_handle_message msg w = (Ok tt, set_stdout (stdout w ++ [msg]) w))
     ∧ ∃ d, msg = JDict d
          ∧ ∀ v a, Dict.get "reply_to" d = Some v → v ≠ JNull →
              Dict.get (py_str v) (_response_futures (self w)) = Some a →
              futures w !! a ≠ Some FPending)
  ∨ (∃ d v a, msg = JDict d ∧ Dict.get "reply_to" d = Some v ∧ v ≠ JNull
       ∧ Dict.get (py_str v) (_response_futures (self w)) = Some a
       ∧ futures w !! a = Some FPending
       ∧ _handle_message msg w = (Ok tt, set_futures (<[a := FResult msg]> (futures w)) w)).
Proof.
  unfold _handle_message, py_get.
  destruct msg as [| | | | | |d]; try (left; split; [done|congruence]).
  right. unfold bind at 1, ret at 1.
  destruct (default JNull (Dict.get "reply_to" d)) as [| | | | | |] eqn:Hv.
  1:{ left. split; [done|]. exists d. split; [done|]. intros v a Hg. rewrite Hg in Hv. simpl in Hv. congruence. }
  all: match type of Hv with _ = ?v0 => apply (py_get_Some _ _ v0) in Hv; [|done] end.
  all: unfold bind at 1; unfold bind at 1; unfold get_self;
    match goal with |- context [Dict.get (py_str ?v0) ?r] =>
      destruct (Dict.get (py_str v0) r) as [a|] eqn:Hreg end.
  all: try (left; split; [done|]; exists d; split; [done|];
            intros v' a' Hg' Hne' Hr'; rewrite Hv in Hg'; injection Hg' as <-; congruence).
  all: unfold fut_done, bind at 1;
    destruct (from_option fut_is_done true (futures w !! a)) eqn:Hd; simpl.
  all: try (left; split; [done|]; exists d; split; [done|];
            intros v' a' Hg' Hne' Hr' Hp; rewrite Hv in Hg'; injection Hg' as <-;
            rewrite Hreg in Hr'; injection Hr' as <-; rewrite Hp in Hd; done).
  all: right; apply pending_of_not_done in Hd as Hp;
    eexists d, _, a; (split; [done|]); (split; [exact Hv|]); (split; [done|]);
    (split; [exact Hreg|]); (split; [done|]);
    unfold fut_set_result, fut_done, bind, modify, ret.
  all: rewrite Hreg; simpl; rewrite Hd; simpl; by rewrite Hd.
Qed.

Lemma _handle_message_chain msg w :
  Inv (core w) → rtc effect (core w) (core (_handle_message msg w).2).
Proof.
  intros HI.
  destruct (_handle_message_cases msg w)
    as [[-> _]|[[-> _]|(d & v & a & -> & Hv & Hne & Hreg & Hp & ->)]];
    try apply rtc_refl.
  apply rtc_once. apply (eff_resolve (core w) a (FResult (JDict d))); [done|].
  intros fr Hfr. exists d, v. split; [done|]. split; [done|]. split; [done|].
  by apply (inv_reg_frame _ HI _ a).
Qed.
End reading.

(** ** The background tasks *)

Section background_tasks.
Context `{PyLib}.

Lemma tasks_ok_closed ts : tasks_ok true ts.
Proof. intros t tk _. done. Qed.

Lemma tasks_ok_move closed ts t tk p :
  tasks_ok closed ts → ts !! t = Some tk → p ≠ Finished →
  tasks_ok closed (<[t := mkTask (coro tk) p (must_cancel tk)]> ts).
Proof.
  intros Hok Ht Hp t' tk' Ht'. destruct (decide (t = t')) as [<-|Hne].
  - rewrite list_lookup_insert_eq in Ht' by (by eapply lookup_lt_Some).
    injection Ht' as <-. simpl. split; [|done]. by apply (Hok t tk).
  - rewrite list_lookup_insert_ne in Ht' by done. by apply (Hok t').
Qed.

Lemma tasks_ok_finish_reader closed ts t tk :
  tasks_ok closed ts → ts !! t = Some tk → coro tk = ReaderLoop →
  tasks_ok closed (<[t := mkTask (coro tk) Finished false]> ts).
Proof.
  intros Hok Ht Hc t' tk' Ht'. destruct (decide (t = t')) as [<-|Hne].
  - rewrite list_lookup_insert_eq in Ht' by (by eapply lookup_lt_Some).
    injection Ht' as <-. simpl. split; [done|]. congruence.
  - rewrite list_lookup_insert_ne in Ht' by done. by apply (Hok t').
Qed.

Lemma tasks_ok_create closed ts c :
  tasks_ok closed ts → tasks_ok closed (ts ++ [mkTask c Created false]).
Proof.
  intros Hok t tk Ht. apply lookup_app_Some in Ht as [Ht|[_ Ht]]; [by apply (Hok t)|].
  apply list_lookup_singleton_Some in Ht as [_ <-]. done.
Qed.

(** A task that changes place, or ends while the client is closed. *)
Lemma set_pos_chain t p w :
  Inv (core w) → p ≠ Finished → rtc effect (core w) (core (set_pos t p w).2).
Proof.
  intros HI Hp. unfold set_pos, modify. simpl.
  destruct (tasks w !! t) as [tk|] eqn:Ht; [|apply rtc_refl].
  apply rtc_once. apply (eff_tasks (core w)). simpl.
  apply tasks_ok_move; [apply HI|done..].
Qed.

Lemma finish_chain t w :
  Inv (core w) →
  _closed (self w) = true ∨ (∀ tk, tasks w !! t = Some tk → coro tk = ReaderLoop) →
  rtc effect (core w) (core (finish t w).2).
Proof.
  intros HI Hc. unfold finish, modify. simpl.
  destruct (tasks w !! t) as [tk|] eqn:Ht; [|apply rtc_refl].
  apply rtc_once. apply (eff_tasks (core w)). simpl. destruct Hc as [->|Hc].
  - apply tasks_ok_closed.
  - apply tasks_ok_finish_reader; [apply HI|done|by apply Hc].
Qed.

Lemma _heartbeat_loop_head_chain t w :
  Inv (core w) → rtc effect (core w) (core (_heartbeat_loop_head t w).2).
Proof.
  intros HI. unfold _heartbeat_loop_head, bind, get_self.
  destruct (_closed (self w)) eqn:Hc.
  - apply finish_chain; auto.
  - by apply set_pos_chain.
Qed.

Lemma _heartbeat_loop_after_chain t r w :
  Inv (core w) →
  (∀ e, r = Raise e → is_Exception e = false → _closed (self w) = true) →
  rtc effect (core w) (core (_heartbeat_loop_after t r w).2).
Proof.
  intros HI Hr. unfold _heartbeat_loop_after. destruct r as [v|e|].
  - by apply _heartbeat_loop_head_chain.
  - destruct (is_Exception e) eqn:He.
    + by apply _heartbeat_loop_head_chain.
    + apply finish_chain; eauto.
  - apply rtc_refl.
Qed.

Lemma effects_core_Inv w w' :
  Inv (core w) → rtc effect (core w) (core w') → Inv (core w').
Proof. apply effects_Inv. Qed.

(** The reader loop. *)
Lemma _handle_message_tasks msg w : tasks (_handle_message msg w).2 = tasks w.
Proof.
  by destruct (_handle_message_cases msg w)
    as [[-> _]|[[-> _]|(d & v & a & -> & Hv & Hne & Hreg & Hp & ->)]].
Qed.

Lemma _reader_loop_body_chain w r w' :
  Inv (core w) → _reader_loop_body w = (r, w') →
  rtc effect (core w) (core w') ∧ tasks w' = tasks w.
Proof.
  intros HI. unfold _reader_loop_body. unfold bind at 1. unfold get_self.
  destruct (_reader (self w)) as [rd|]; [|by intros [= <- <-]].
  destruct (at_eof rd); [by intros [= <- <-]|].
  unfold bind at 1.
  pose proof (_read_message_core w) as Hcore.
  destruct (_read_message w) as [[msg|e|] w1]; simpl in Hcore;
    try (intros [= <- <-]; rewrite Hcore; split; [apply rtc_refl|by injection Hcore]).
  assert (rtc effect (core w) (core (_handle_message msg w1).2)) as Hchain.
  { rewrite <- Hcore. apply _handle_message_chain. by rewrite Hcore. }
  pose proof (_handle_message_tasks msg w1) as Htasks.
  assert (tasks w1 = tasks w) as Ht1 by (by injection Hcore).
  rewrite Ht1 in Htasks.
  destruct msg; try (intros [= <- <-]; rewrite Hcore; split; [apply rtc_refl|done]);
    unfold bind, ret; destruct (_handle_message _ w1) as [[[]|e|] w2];
    by intros [= <- <-].
Qed.

Lemma _reader_loop_turn_chain (resumed : M bool) w r w' :
  Inv (core w) →
  rtc effect (core w) (core (resumed w).2) →
  tasks (resumed w).2 = tasks w →
  _reader_loop_turn resumed w = (r, w') →
  rtc effect (core w) (core w') ∧ tasks w' = tasks w.
Proof.
  intros HI Hres Htasks. unfold _reader_loop_turn. unfold bind at 1. unfold try_except.
  assert (∀ w1, rtc effect (core w) (core w1) → tasks w1 = tasks w →
            rtc effect (core w)
              (core ((fail_pending (ConnectionError "Connection lost") ;; ret false) w1).2)
            ∧ tasks ((fail_pending (ConnectionError "Connection lost") ;; ret false) w1).2
              = tasks w) as Hfail.
  { intros w1 Hw1 Ht1. unfold bind.
    destruct (fail_pending_spec (ConnectionError "Connection lost") w1)
      as (fs & -> & Hrtc & _); [by left|].
    simpl. split; [by etrans|done]. }
  destruct (resumed w) as [[[]|e|] w1]; simpl in *; try (by intros [= <- <-]).
  - intros Heq. specialize (Hfail w1 Hres Htasks). by rewrite Heq in Hfail.
  - destruct e; simpl; try (by intros [= <- <-]);
      intros Heq; specialize (Hfail w1 Hres Htasks); by rewrite Heq in Hfail.
Qed.

(** The outcomes of a stretch of the reader task. *)
Lemma reader_turn_eq t (resumed : M bool) w :
  reader_turn t resumed w
  = match _reader_loop_turn resumed w with
    | (Ok true, w1) => set_pos t AtRead w1
    | (Ok false, w1) => finish t w1
    | (Raise e, w1) => (Raise e, w1)
    | (Wait, _) => set_pos t AtRead w
    end.
Proof.
  unfold reader_turn, on_wait, bind.
  by destruct (_reader_loop_turn resumed w) as [[[]|e|] w1].
Qed.

Lemma reader_turn_chain t (resumed : M bool) w :
  Inv (core w) →
  (∀ tk, tasks w !! t = Some tk → coro tk = ReaderLoop) →
  rtc effect (core w) (core (resumed w).2) →
  tasks (resumed w).2 = tasks w →
  rtc effect (core w) (core (reader_turn t resumed w).2).
Proof.
  intros HI Ht Hres Htasks. rewrite reader_turn_eq.
  destruct (_reader_loop_turn resumed w) as [r w1] eqn:Heq.
  destruct (_reader_loop_turn_chain resumed w r w1 HI Hres Htasks Heq) as [Hrtc Hts].
  destruct r as [[]|e|]; simpl in *; try done.
  - etrans; [exact Hrtc|]. apply set_pos_chain; [by eapply effects_core_Inv|done].
  - etrans; [exact Hrtc|]. apply finish_chain; [by eapply effects_core_Inv|].
    right. by rewrite Hts.
  - by apply set_pos_chain.
Qed.

(** [connect] *)
Lemma connect_chain net w :
  Inv (core w) → rtc effect (core w) (core (connect net w).2).
Proof.
  intros HI. unfold connect. crush; try apply rtc_refl.
  apply rtc_once. apply (eff_tasks (core w)). simpl.
  do 2 apply tasks_ok_create. apply HI.
Qed.
End background_tasks.

(** ** [send_request], up to its wait *)

Section request_begin.
Context `{PyLib}.

Lemma alter_snoc {A} (f : A → A) (l : list A) x :
  alter f (length l) (l ++ [x]) = l ++ [f x].
Proof. induction l as [|y l IH]; simpl; [done|]. by f_equal. Qed.

Lemma io_exn_is_Exception e : is_Exception (io_exn e) = true.
Proof. by destruct e. Qed.

(** What [send_request] has done when it reaches its [wait_for], or
    when it raises before. *)
Lemma send_request_begin_spec p net drain w r w' :
  send_request_begin p net drain w = (r, w') →
  (_closed (self w) = true ∧ r = Raise (ConnectionError "Client is closed") ∧ w' = w)
  ∨ (_closed (self w) = false ∧ _writer (self w) = None
     ∧ ∃ e, net = Some e ∧ r = Raise (io_exn e) ∧ w' = w)
  ∨ (_closed (self w) = false
     ∧ futures w' = futures w ++ [FPending]
     ∧ _response_futures (self w')
       = Dict.set (pretty (_msg_id_counter (self w) + 1)) (length (futures w))
           (_response_futures (self w))
     ∧ _msg_id_counter (self w') = _msg_id_counter (self w) + 1
     ∧ _closed (self w') = false
     ∧ frames w' = frames w
     ∧ closing w' = closing w
     ∧ stdout w' = stdout w
     ∧ (tasks w' = tasks w
        ∨ (_writer (self w) = None ∧ net = None
           ∧ tasks w' = tasks w ++ [mkTask ReaderLoop Created false;
                                    mkTask HeartbeatLoop Created false]))
     ∧ objects w' = objects w ++
         [Dict.set "msg_id" (JInt (_msg_id_counter (self w) + 1))
            (Dict.setdefault "type" (JStr "request") (default [] (objects w !! p)))]
     ∧ (r = Ok (_msg_id_counter (self w) + 1, length (futures w))
        ∨ ∃ e, r = Raise e ∧ is_Exception e = true
               ∧ ((∃ x, e = io_exn x) ∨ e = UnicodeEncodeError ∨ e = StructError
                  ∨ e = ConnectionError "Not connected"))).
Proof.
  unfold send_request_begin, connect, _next_msg_id, _write_message, struct_pack_I.
  crush; intros [= <- <-].
  all: try (left; done).
  all: try (right; left; split; [done|]; split; [done|]; eexists; done).
  all: right; right; split; [done|]; simpl; rewrite ?alter_snoc.
  all: repeat (split; [first [done | by left | by right]|]).
  all: try (rewrite <- !(assoc_L (++)); simpl).
  all: repeat (split; [first [done | by left | by right]|]).
  all: first [by left | right; eexists; split; [done|];
              split; [by rewrite ?io_exn_is_Exception|];
              first [by left; eexists | by right; left | by right; right; left
                    | by right; right; right]].
Qed.
End request_begin.

(** ** [send_request], from its wait on *)

Section request_end.
Context `{PyLib}.

Lemma send_request_begin_chain p net drain w r w' :
  Inv (core w) → send_request_begin p net drain w = (r, w') →
  rtc effect (core w) (core w')
  ∧ ∀ m a who, r = Ok (m, a) →
      rtc effect (core w) (core (set_frames (<[a := mkFrame m who]> (frames w')) w')).
Proof.
  intros HI Hbegin.
  destruct (send_request_begin_spec _ _ _ _ _ _ Hbegin)
    as [(_ & -> & ->)|[(_ & _ & e & _ & -> & ->)
       |(Hcl & Hfs & Hreg & Hcnt & Hcl' & Hfr & _ & _ & Hts & _ & Hr)]];
    try (split; [apply rtc_refl|by intros]).
  assert (tasks_ok (_closed (self w)) (tasks w')) as Htasks.
  { destruct Hts as [->|(_ & _ & ->)]; [apply HI|].
    change [mkTask ReaderLoop Created false; mkTask HeartbeatLoop Created false]
      with ([mkTask ReaderLoop Created false] ++ [mkTask HeartbeatLoop Created false]).
    rewrite (assoc_L (++)). do 2 apply tasks_ok_create. apply HI. }
  assert (rtc effect (core w) (core w')) as Hchain.
  { apply rtc_l with (mkCore (futures w) (_response_futures (self w)) (frames w)
                        (_msg_id_counter (self w)) (_closed (self w)) (tasks w'));
      [by apply (eff_tasks (core w))|].
    apply rtc_once. rewrite <- Hcl in Hcl'.
    destruct w' as [[rd wr rt ht reg cnt cl] fs os ts frs cg out cn].
    simpl in *. subst.
    apply (eff_register (mkCore (futures w) (_response_futures (self w)) (frames w)
                           (_msg_id_counter (self w)) (_closed (self w)) ts)). }
  split; [done|]. intros m a who ->. destruct Hr as [[= -> ->]|(e & [=] & _)].
  etrans; [exact Hchain|]. apply rtc_once.
  pose proof (effects_core_Inv _ _ HI Hchain) as HI'.
  apply (eff_park (core w')); simpl.
  - rewrite Hfs. by apply list_lookup_middle.
  - rewrite Hcnt. pose proof (inv_counter _ HI). simpl in *. lia.
  - intros a' fr' Hfr'. rewrite Hfr in Hfr'.
    pose proof (inv_frame_ids _ HI _ _ Hfr'). simpl in *. lia.
  - intros k Hk. rewrite Hreg in Hk.
    destruct (decide (pretty (_msg_id_counter (self w) + 1) = k)) as [<-|Hne]; [done|].
    rewrite get_set_ne in Hk by done.
    pose proof (inv_reg_alloc _ HI _ _ Hk). simpl in *. lia.
Qed.

(** How a parked [send_request] ends. *)
Lemma send_request_end_spec m a how w r w' :
  send_request_end m a how w = (r, w') →
  (r = Wait ∧ w' = w ∧ how = FutureDone
   ∧ (futures w !! a = Some FPending ∨ futures w !! a = None))
  ∨ ∃ fs,
      w' = set_self (set_response_futures
                       (Dict.pop (pretty m) (_response_futures (self w))) (self w))
             (set_futures fs w)
      ∧ match how with
        | FutureDone =>
            fs = futures w
            ∧ ((∃ v, futures w !! a = Some (FResult v) ∧ r = Ok v)
               ∨ (∃ e, futures w !! a = Some (FException e) ∧ r = Raise e)
               ∨ (futures w !! a = Some FCancelled ∧ r = Raise CancelledError))
        | TimerFired =>
            r = Raise TimeoutError
            ∧ ((futures w !! a = Some FPending ∧ fs = <[a := FCancelled]> (futures w))
               ∨ (futures w !! a ≠ Some FPending ∧ fs = futures w))
        | CallerCancelled =>
            r = Raise CancelledError
            ∧ ((futures w !! a = Some FPending ∧ fs = <[a := FCancelled]> (futures w))
               ∨ (futures w !! a ≠ Some FPending ∧ fs = futures w))
        end.
Proof.
  unfold send_request_end, wait_for. destruct how.
  - unfold try_finally, bind, ret, raise, modify_self, modify.
    destruct (futures w !! a) as [[]|] eqn:Hf; simpl; intros [= <- <-];
      first [ left; by eauto
            | right; exists (futures w); split; [done|]; split; [done|]; by eauto 6 ].
  - unfold fut_cancel, fut_done, try_finally, bind, modify_self, modify, raise, ret. simpl.
    destruct (from_option fut_is_done true (futures w !! a)) eqn:Hd; simpl;
      intros [= <- <-]; right.
    + exists (futures w). split; [done|]. split; [done|]. right. split; [|done].
      intros Hp. by rewrite Hp in Hd.
    + exists (<[a := FCancelled]> (futures w)). split; [done|]. split; [done|]. left.
      split; [by apply pending_of_not_done|done].
  - unfold fut_cancel, fut_done, try_finally, bind, modify_self, modify, raise, ret. simpl.
    destruct (from_option fut_is_done true (futures w !! a)) eqn:Hd; simpl;
      intros [= <- <-]; right.
    + exists (futures w). split; [done|]. split; [done|]. right. split; [|done].
      intros Hp. by rewrite Hp in Hd.
    + exists (<[a := FCancelled]> (futures w)). split; [done|]. split; [done|]. left.
      split; [by apply pending_of_not_done|done].
Qed.
End request_end.

(** ** Calls that end, calls that start *)

Section calls.
Context `{PyLib}.

(** The end of a call, with its frame taken away. *)
Lemma end_call_chain a fr how w r w' :
  Inv (core w) → frames w !! a = Some fr →
  send_request_end (fr_msg_id fr) a how w = (r, w') → r ≠ Wait →
  rtc effect (core w) (core (set_frames (delete a (frames w')) w'))
  ∧ tasks w' = tasks w ∧ _closed (self w') = _closed (self w)
  ∧ (∀ e, r = Raise e → is_Exception e = false → how = CallerCancelled).
Proof.
  intros HI Hfr Hend Hr.
  destruct (send_request_end_spec _ _ _ _ _ _ Hend) as [(-> & _)|(fs & -> & Hhow)]; [done|].
  simpl. split; [|split; [done|split; [done|]]].
  - apply rtc_l with (mkCore (futures w)
                        (Dict.pop (pretty (fr_msg_id fr)) (_response_futures (self w)))
                        (delete a (frames w)) (_msg_id_counter (self w))
                        (_closed (self w)) (tasks w));
      [by apply (eff_finish (core w) a fr)|].
    assert (fs = futures w ∨ (futures w !! a = Some FPending
                              ∧ fs = <[a := FCancelled]> (futures w))) as [->| [Hp ->]].
    { destruct how; naive_solver. }
    + apply rtc_refl.
    + apply rtc_once.
      apply (eff_resolve (mkCore (futures w)
               (Dict.pop (pretty (fr_msg_id fr)) (_response_futures (self w)))
               (delete a (frames w)) (_msg_id_counter (self w))
               (_closed (self w)) (tasks w)) a FCancelled); [done|].
      simpl. apply lookup_delete_eq.
  - intros e -> He. destruct how as [| |]; [|naive_solver..].
    destruct Hhow as [_ [(v & _ & [=])|[(e' & He' & [= <-])|[Hc _]]]].
    + apply (inv_exn _ HI) in He' as [->| ->]; done.
    + by apply (inv_not_cancelled _ HI _ _ Hfr) in Hc.
Qed.

Lemma resume_call_chain a how w :
  Inv (core w) →
  (how = CallerCancelled → ∀ fr t, frames w !! a = Some fr →
     fr_caller fr = Heartbeat t → _closed (self w) = true) →
  rtc effect (core w) (core (resume_call a how w).2).
Proof.
  intros HI Hhow. unfold resume_call. unfold bind at 1. unfold get_world.
  destruct (frames w !! a) as [fr|] eqn:Hfr; [|apply rtc_refl].
  unfold bind at 1. unfold attempt.
  destruct (send_request_end (fr_msg_id fr) a how w) as [r w1] eqn:Hend.
  assert (r = Wait ∨ r ≠ Wait) as [->|Hr] by (destruct r; naive_solver).
  { apply send_request_end_spec in Hend as [(_ & -> & _)|(fs & -> & Hh)]; [apply rtc_refl|].
    destruct how; naive_solver. }
  destruct (end_call_chain _ _ _ _ _ _ HI Hfr Hend Hr) as (Hchain & Hts & Hcl & Hexn).
  assert (∀ k : result json → M unit,
    (∀ w2, Inv (core w2) → _closed (self w2) = _closed (self w) →
           rtc effect (core w2) (core (k r w2).2)) →
    rtc effect (core w)
      (core ((modify (λ w0, set_frames (delete a (frames w0)) w0) ;; k r) w1).2))
    as Hk.
  { intros k Hk. unfold bind, modify. etrans; [exact Hchain|].
    apply Hk; [by eapply effects_core_Inv|done]. }
  destruct r as [v|e|]; [| |done].
  - apply (Hk (λ r, match fr_caller fr with
                    | External => ret tt
                    | Heartbeat t => _heartbeat_loop_after t r
                    end)).
    intros w2 HI2 Hcl2. destruct (fr_caller fr); [apply rtc_refl|].
    by apply _heartbeat_loop_after_chain.
  - apply (Hk (λ r, match fr_caller fr with
                    | External => ret tt
                    | Heartbeat t => _heartbeat_loop_after t r
                    end)).
    intros w2 HI2 Hcl2. destruct (fr_caller fr) as [|t] eqn:Hc; [apply rtc_refl|].
    apply _heartbeat_loop_after_chain; [done|].
    intros e' [= <-] He. rewrite Hcl2. eapply Hhow; eauto.
Qed.

Lemma call_send_request_chain p net drain w :
  Inv (core w) → rtc effect (core w) (core (call_send_request p net drain w).2).
Proof.
  intros HI. unfold call_send_request, bind.
  destruct (send_request_begin p net drain w) as [r w1] eqn:Hbegin.
  destruct (send_request_begin_chain _ _ _ _ _ _ HI Hbegin) as [Hchain Hpark].
  destruct r as [[m a]|e|]; simpl; [|done..].
  by apply Hpark.
Qed.

Lemma heartbeat_send_chain t net drain w :
  Inv (core w) → rtc effect (core w) (core (heartbeat_send t net drain w).2).
Proof.
  intros HI. unfold heartbeat_send. unfold bind at 1.
  destruct (new_dict [("type", JStr "heartbeat")] w) as [[p|e|] w0] eqn:Hnew;
    try (injection Hnew as _ <-; apply rtc_refl).
  assert (core w0 = core w) as Hcore by (by injection Hnew as _ <-).
  rewrite <- Hcore in *. clear Hnew Hcore.
  unfold bind at 1, attempt.
  destruct (send_request_begin p net drain w0) as [r w1] eqn:Hbegin.
  destruct (send_request_begin_chain _ _ _ _ _ _ HI Hbegin) as [Hchain Hpark].
  destruct r as [[m a]|e|]; [| |done].
  - unfold bind, modify.
    pose proof (Hpark m a (Heartbeat t) eq_refl) as Hp.
    refine (transitivity Hp _).
    apply set_pos_chain; [|done]. exact (effects_core_Inv _ _ HI Hp).
  - etrans; [exact Hchain|].
    apply _heartbeat_loop_after_chain; [by eapply effects_core_Inv|].
    intros e' [= <-] He.
    destruct (send_request_begin_spec _ _ _ _ _ _ Hbegin)
      as [(_ & [= ->] & _)|[(_ & _ & e0 & _ & [= ->] & _)
         |(_ & _ & _ & _ & _ & _ & _ & _ & _ & _ & [[=]|(e0 & [= ->] & He0 & _)])]];
      [done| |congruence].
    by rewrite io_exn_is_Exception in He.
Qed.
End calls.

(** ** Every event keeps the invariant *)

Section events.
Context `{PyLib}.

Lemma closed_then_tasks s ts :
  rtc effect s (mkCore (c_futures s) (c_registry s) (c_frames s) (c_counter s) true ts).
Proof.
  eapply rtc_l; [apply eff_close|]. apply rtc_once.
  apply (eff_tasks (mkCore _ _ _ _ _ _)). apply tasks_ok_closed.
Qed.

Lemma close_begin_chain w :
  rtc effect (core w) (core (close_begin w).2)
  ∧ _closed (self (close_begin w).2) = true.
Proof.
  unfold close_begin. crush; (split; [|done]); apply (closed_then_tasks (core w)).
Qed.

Lemma close_end_chain w : rtc effect (core w) (core (close_end w).2).
Proof.
  unfold close_end.
  destruct (fail_pending_spec (ConnectionError "Client closed") w) as (fs & -> & Hrtc & _);
    [by right|done].
Qed.

Lemma run_task_chain t net drain w :
  Inv (core w) → rtc effect (core w) (core (run_task t net drain w).2).
Proof.
  intros HI. unfold run_task. unfold bind at 1. unfold get_world.
  destruct (tasks w !! t) as [tk|] eqn:Ht; [|apply rtc_refl].
  destruct (inv_tasks _ HI t tk Ht) as [Hmc _]. simpl in Hmc.
  assert (∀ m : M bool, rtc effect (core w) (core (m w).2) → tasks (m w).2 = tasks w →
            coro tk = ReaderLoop → rtc effect (core w) (core (reader_turn t m w).2)) as Hrd.
  { intros m Hm Hts Hc. apply reader_turn_chain; [done| |done..].
    intros tk' Ht'. congruence. }
  assert (coro tk = ReaderLoop →
          rtc effect (core w) (core (reader_turn t _reader_loop_body w).2)) as Hbody.
  { intros Hc. destruct (_reader_loop_body w) as [r w1] eqn:Hb.
    destruct (_reader_loop_body_chain _ _ _ HI Hb) as [Hchain Hts].
    apply Hrd; rewrite ?Hb; done. }
  destruct (coro tk) eqn:Hc, (pos tk) eqn:Hp, (must_cancel tk) eqn:Hm;
    try apply rtc_refl;
    try (apply finish_chain; [done|]; first [left; by apply Hmc | right; congruence]).
  - destruct (_reader (self w)); [by apply Hbody|].
    apply finish_chain; [done|]. right. congruence.
  - apply Hrd; [apply rtc_refl|done..].
  - by apply Hbody.
  - by apply _heartbeat_loop_head_chain.
  - by apply heartbeat_send_chain.
  - apply resume_call_chain; [done|]. intros _ fr t' _ _. by apply Hmc.
Qed.

(** A [connect()] that goes on after [open_connection]. *)
Lemma connect_finish_chain net w :
  Inv (core w) → rtc effect (core w) (core (connect_finish net w).2).
Proof.
  intros HI. unfold connect_finish. crush; try apply rtc_refl.
  apply rtc_once. apply (eff_tasks (core w)). simpl.
  do 2 apply tasks_ok_create. apply HI.
Qed.

(** What [send_request] has done, behind its guards, when it reaches its
    [wait_for] or raises before. *)
Lemma send_request_body_spec p drain w r w' :
  send_request_body p drain w = (r, w') →
  futures w' = futures w ++ [FPending]
  ∧ _response_futures (self w')
    = Dict.set (pretty (_msg_id_counter (self w) + 1)) (length (futures w))
        (_response_futures (self w))
  ∧ _msg_id_counter (self w') = _msg_id_counter (self w) + 1
  ∧ _closed (self w') = _closed (self w)
  ∧ frames w' = frames w
  ∧ closing w' = closing w
  ∧ stdout w' = stdout w
  ∧ connecting w' = connecting w
  ∧ tasks w' = tasks w
  ∧ objects w' = objects w ++
      [Dict.set "msg_id" (JInt (_msg_id_counter (self w) + 1))
         (Dict.setdefault "type" (JStr "request") (default [] (objects w !! p)))]
  ∧ (r = Ok (_msg_id_counter (self w) + 1, length (futures w))
     ∨ ∃ e, r = Raise e ∧ is_Exception e = true).
Proof.
  unfold send_request_body, _next_msg_id, _write_message, struct_pack_I.
  crush; intros [= <- <-]; simpl; rewrite ?alter_snoc.
  all: repeat (split; [done|]).
  all: first [by left | right; eexists; split; [done|]; by rewrite ?io_exn_is_Exception].
Qed.

Lemma send_request_body_chain p drain w r w' :
  Inv (core w) → send_request_body p drain w = (r, w') →
  rtc effect (core w) (core w')
  ∧ ∀ m a who, r = Ok (m, a) →
      rtc effect (core w) (core (set_frames (<[a := mkFrame m who]> (frames w')) w')).
Proof.
  intros HI Hbody.
  destruct (send_request_body_spec _ _ _ _ _ Hbody)
    as (Hfs & Hreg & Hcnt & Hcl & Hfr & _ & _ & _ & Hts & _ & Hr).
  assert (rtc effect (core w) (core w')) as Hchain.
  { apply rtc_once.
    destruct w' as [[rd wr rt ht reg cnt cl] fs os ts frs cg out cn].
    simpl in *. subst. apply (eff_register (core w)). }
  split; [done|]. intros m a who ->. destruct Hr as [[= -> ->]|(e & [=] & _)].
  etrans; [exact Hchain|]. apply rtc_once.
  apply (eff_park (core w')); simpl.
  - rewrite Hfs. by apply list_lookup_middle.
  - rewrite Hcnt. pose proof (inv_counter _ HI). simpl in *. lia.
  - intros a' fr' Hfr'. rewrite Hfr in Hfr'.
    pose proof (inv_frame_ids _ HI _ _ Hfr'). simpl in *. lia.
  - intros k Hk. rewrite Hreg in Hk.
    destruct (decide (pretty (_msg_id_counter (self w) + 1) = k)) as [<-|Hne]; [done|].
    rewrite get_set_ne in Hk by done.
    pose proof (inv_reg_alloc _ HI _ _ Hk). simpl in *. lia.
Qed.

Lemma park_connect_core who w : core (park_connect who w).2 = core w.
Proof. unfold park_connect. by crush. Qed.

Lemma resume_connect_chain i net drain w :
  Inv (core w) → rtc effect (core w) (core (resume_connect i net drain w).2).
Proof.
  intros HI. unfold resume_connect. unfold bind at 1. unfold get_world.
  destruct (connecting w !! i) as [who|]; [|apply rtc_refl].
  unfold bind at 1, modify.
  set (w0 := set_connecting _ w).
  change (core w) with (core w0). unfold bind at 1.
  pose proof (connect_finish_chain net w0 HI) as Hchain.
  destruct (connect_finish net w0) as [[[]|e|] w1]; simpl in *; try done.
  destruct who as [p|]; [|done].
  pose proof (effects_core_Inv _ _ HI Hchain) as HI1.
  unfold bind.
  destruct (send_request_body p drain w1) as [r w2] eqn:Hbody.
  destruct (send_request_body_chain _ _ _ _ _ HI1 Hbody) as [Hchain2 Hpark].
  destruct r as [[m a]|e|]; simpl.
  - etrans; [exact Hchain|]. by apply Hpark.
  - by etrans.
  - by etrans.
Qed.

Lemma delete_last_app {A} (l : list A) (x : A) : delete (length l) (l ++ [x]) = l.
Proof. induction l as [|a l IH]; [done|]. simpl. by rewrite IH. Qed.

Lemma set_connecting_back (w : World) (x : option loc) :
  set_connecting
    (delete (length (connecting w)) (connecting (set_connecting (connecting w ++ [x]) w)))
    (set_connecting (connecting w ++ [x]) w) = w.
Proof. destruct w. simpl. by rewrite delete_last_app. Qed.

(** A [connect()] that parks and whose connection opens before anything
    else happens is the [connect()] of one event. *)
Lemma connect_without_interleaving (w : World) (net drain : oracle) :
  step (step w EvConnectPark) (EvConnected (length (connecting w)) net drain)
  = step w (EvConnect net).
Proof.
  unfold step at 2 3, handle, park_connect, connect, bind, get_self. simpl.
  destruct (from_option _ _ _) eqn:Hg.
  - unfold ret, step, handle, resume_connect, bind, get_world. simpl.
    by rewrite lookup_ge_None_2.
  - unfold modify at 1. unfold step, handle, resume_connect, bind at 1, get_world. simpl.
    rewrite lookup_app_r, Nat.sub_diag by done. simpl.
    unfold bind at 1, modify at 1. rewrite set_connecting_back.
    unfold bind at 1, connect_finish.
    destruct net; [done|]. by vm_compute.
Qed.

(** The same for a [send_request] on a client that has never connected:
    parked in [connect()] and resumed at once, it is the [send_request]
    of one event. *)
Lemma send_request_without_interleaving (w : World) (payload : loc) (net drain : oracle) :
  _reader (self w) = None → _writer (self w) = None →
  step (step w (EvSendRequestPark payload)) (EvConnected (length (connecting w)) net drain)
  = step w (EvSendRequest payload net drain).
Proof.
  intros Hr Hw.
  assert (∀ w', connecting w' = connecting w →
            step w' (EvConnected (length (connecting w)) net drain) = w') as Hnone.
  { intros w' Hl. unfold step, handle, resume_connect, bind, get_world. simpl.
    by rewrite Hl, lookup_ge_None_2. }
  assert (handle (EvSendRequestPark payload) w
          = if bool_decide (payload < length (objects w))%nat
            then if _closed (self w) then (Raise (ConnectionError "Client is closed"), w)
                 else (Ok tt, set_connecting (connecting w ++ [Some payload]) w)
            else (Ok tt, w)) as Hpark.
  { unfold handle, bind, get_world. case_bool_decide; [|done].
    unfold park_send_request, bind, get_self. simpl. destruct (_closed (self w)); [done|].
    rewrite Hw. unfold park_connect, bind, get_self. simpl. by rewrite Hr. }
  assert (handle (EvSendRequest payload net drain) w
          = if bool_decide (payload < length (objects w))%nat
            then if _closed (self w) then (Raise (ConnectionError "Client is closed"), w)
                 else ((connect_finish net ;;
                        '(msg_id, fut) ← send_request_body payload drain;
                        modify (λ w, set_frames (<[fut := mkFrame msg_id External]> (frames w)) w)) w)%M
            else (Ok tt, w)) as Hatom.
  { unfold handle, bind at 1, get_world. case_bool_decide; [|done].
    unfold call_send_request, send_request_begin, bind at 1 2, get_self. simpl.
    destruct (_closed (self w)); [done|]. rewrite Hw.
    unfold connect, bind at 1 2, get_self. simpl. rewrite Hr. simpl.
    fold (connect_finish net). fold (send_request_body payload drain).
    unfold bind.
    destruct (connect_finish net w) as [[[]| |] w1]; try done. }
  unfold step at 2 3. rewrite Hpark, Hatom.
  case_bool_decide; [|by apply Hnone].
  destruct (_closed (self w)); [by apply Hnone|].
  unfold step, handle, resume_connect, bind at 1, get_world. simpl.
  rewrite lookup_app_r, Nat.sub_diag by done. simpl.
  unfold bind at 1, modify at 1. simpl. rewrite delete_last_app.
  replace (set_connecting (connecting w) (set_connecting (connecting w ++ [Some payload]) w))
    with w by (by destruct w).
  unfold bind at 1 3.
  assert ((connect_finish net w).1 ≠ Wait) as Hcf by (by destruct net).
  destruct (connect_finish net w) as [[[]| |] w1]; try done.
  unfold bind.
  destruct (send_request_body payload drain w1) as [r w2] eqn:Hb.
  apply send_request_body_spec
    in Hb as (_ & _ & _ & _ & _ & _ & _ & _ & _ & _ & [->|(e & -> & _)]); done.
Qed.

Lemma handle_chain e w :
  Inv (core w) → rtc effect (core w) (core (handle e w).2).
Proof.
  intros HI.
  destruct e as [d|net|p net drain|a|a|a|data| |e|t net drain| | | |p|i net drain]; simpl.
  - apply rtc_refl.
  - by apply connect_chain.
  - unfold bind, get_world. case_bool_decide; [|apply rtc_refl].
    by apply call_send_request_chain.
  - unfold bind at 1, get_world. apply resume_call_chain; [done|].
    unfold wake_as. intros Hhow fr t Hfr Hc. rewrite Hfr in Hhow. destruct fr as [m c].
    simpl in Hc. subst c.
    destruct (tasks w !! t) as [tk|] eqn:Ht; simpl in Hhow; [|done].
    destruct (must_cancel tk) eqn:Hm; [|done].
    by destruct (inv_tasks _ HI t tk Ht) as [Hmc _]; apply Hmc.
  - unfold bind at 1, get_world. apply resume_call_chain; [done|].
    unfold wake_as. intros Hhow fr t Hfr Hc. rewrite Hfr in Hhow. destruct fr as [m c].
    simpl in Hc. subst c.
    destruct (tasks w !! t) as [tk|] eqn:Ht; simpl in Hhow; [|done].
    destruct (must_cancel tk) eqn:Hm; [|done].
    by destruct (inv_tasks _ HI t tk Ht) as [Hmc _]; apply Hmc.
  - unfold bind at 1, get_world.
    destruct (frames w !! a) as [[m [|t]]|] eqn:Hfr; try apply rtc_refl.
    apply resume_call_chain; [done|]. intros _ fr t Hfr' Hc.
    rewrite Hfr in Hfr'. by injection Hfr' as <-.
  - apply rtc_refl.
  - apply rtc_refl.
  - apply rtc_refl.
  - by apply run_task_chain.
  - unfold bind at 1. destruct (close_begin_chain w) as [Hchain Hcl].
    destruct (close_begin w) as [[[]|e|] w1]; simpl in *; try done.
    etrans; [exact Hchain|]. apply close_end_chain.
  - unfold bind at 1, get_world. destruct (closing w); [apply rtc_refl|].
    unfold bind, modify. apply (close_end_chain (set_closing n w)).
  - rewrite park_connect_core. apply rtc_refl.
  - unfold bind, get_world. case_bool_decide; [|apply rtc_refl].
    unfold park_send_request, bind, get_self, raise, ret.
    destruct (_closed (self w)); [apply rtc_refl|].
    destruct (_writer (self w)); [apply rtc_refl|].
    rewrite park_connect_core. apply rtc_refl.
  - by apply resume_connect_chain.
Qed.

(** Every event is a sequence of elementary changes. *)
Lemma step_chain w e : Inv (core w) → rtc effect (core w) (core (step w e)).
Proof.
  intros HI. unfold step. pose proof (handle_chain e w HI) as Hchain.
  destruct (handle e w) as [[|?|] w1]; simpl in *; [done..|apply rtc_refl].
Qed.

Lemma step_Inv w e : Inv (core w) → Inv (core (step w e)).
Proof. intros HI. eapply effects_Inv; [exact HI|by apply step_chain]. Qed.

Lemma run_Inv w es : Inv (core w) → Inv (core (run w es)).
Proof.
  revert w. induction es as [|e es IH]; intros w HI; [done|].
  simpl. apply IH. by apply step_Inv.
Qed.

Lemma run_grows w es : Inv (core w) → grows (core w) (core (run w es)).
Proof.
  revert w. induction es as [|e es IH]; intros w HI; [apply grows_refl|].
  simpl. eapply grows_trans; [|apply IH; by apply step_Inv].
  apply effects_grows. by apply step_chain.
Qed.

Lemma init_Inv objs : Inv (core (init objs)).
Proof. apply Inv_init. Qed.
End events.

(** ** The length prefix *)

Lemma Z_of_byte_of_Z z : Z_of_byte (byte_of_Z z) = Z.land z 255.
Proof.
  unfold Z_of_byte, byte_of_Z.
  assert (0 ≤ Z.land z 255 < 256) as Hrange.
  { change 255 with (Z.ones 8). rewrite Z.land_ones by lia. apply Z.mod_pos_bound. lia. }
  destruct (Byte.of_N (Z.to_N (Z.land z 255))) as [b|] eqn:Hb; simpl.
  - apply Byte.to_of_N in Hb. rewrite Hb. lia.
  - apply Byte.of_N_None_iff in Hb. lia.
Qed.

Lemma unpack_pack n bs : struct_pack_I n = Ok bs → struct_unpack_I bs = Ok n.
Proof.
  unfold struct_pack_I. case_bool_decide as Hn; [|done]. intros [= <-].
  unfold struct_unpack_I. rewrite !Z_of_byte_of_Z. f_equal.
  apply Z.bits_inj'. intros i Hi.
  change 255 with (Z.ones 8).
  rewrite !Z.lor_spec, !Z.shiftl_spec by lia. rewrite !Z.land_spec.
  destruct (decide (i < 8)); [|destruct (decide (i < 16)); [|destruct (decide (i < 24));
    [|destruct (decide (i < 32))]]].
  - rewrite (Z.testbit_neg_r _ (i - 24)), (Z.testbit_neg_r _ (i - 16)),
      (Z.testbit_neg_r _ (i - 8)) by lia.
    cbn [andb orb]. rewrite Z.ones_spec_low by lia. by rewrite andb_true_r.
  - rewrite (Z.testbit_neg_r _ (i - 24)), (Z.testbit_neg_r _ (i - 16)) by lia.
    cbn [andb orb]. rewrite !Z.shiftr_spec by lia.
    rewrite (Z.ones_spec_low 8 (i - 8)), (Z.ones_spec_high 8 i) by lia.
    rewrite andb_true_r, andb_false_r, orb_false_r. f_equal. lia.
  - rewrite (Z.testbit_neg_r _ (i - 24)) by lia.
    cbn [andb orb]. rewrite !Z.shiftr_spec by lia.
    rewrite (Z.ones_spec_low 8 (i - 16)), (Z.ones_spec_high 8 i),
      (Z.ones_spec_high 8 (i - 8)) by lia.
    rewrite andb_true_r, !andb_false_r, !orb_false_r. f_equal. lia.
  - rewrite !Z.shiftr_spec by lia.
    rewrite (Z.ones_spec_low 8 (i - 24)), (Z.ones_spec_high 8 i),
      (Z.ones_spec_high 8 (i - 8)), (Z.ones_spec_high 8 (i - 16)) by lia.
    rewrite andb_true_r, !andb_false_r, !orb_false_r. f_equal. lia.
  - rewrite !Z.shiftr_spec by lia.
    rewrite (Z.ones_spec_high 8 i), (Z.ones_spec_high 8 (i - 8)),
      (Z.ones_spec_high 8 (i - 16)), (Z.ones_spec_high 8 (i - 24)) by lia.
    rewrite !andb_false_r. cbn [orb].
    symmetry. apply Z.bits_above_log2; [lia|].
    destruct (decide (n = 0)) as [->|Hne]; [simpl; lia|].
    assert (Z.log2 n < 32); [|lia]. apply Z.log2_lt_pow2; lia.
Qed.

Lemma pack_length n bs : struct_pack_I n = Ok bs → length bs = 4%nat.
Proof. unfold struct_pack_I. case_bool_decide; [|done]. by intros [= <-]. Qed.

(** ** Dict objects are never changed in place *)

Section payload_objects.
Context `{PyLib}.

Lemma keeps_ret {A} (a : A) : keeps (ret a).
Proof. by intros w p d. Qed.
Lemma keeps_raise {A} e : keeps (@raise A e).
Proof. by intros w p d. Qed.
Lemma keeps_wait {A} : keeps (@wait A).
Proof. by intros w p d. Qed.
Lemma keeps_lift {A} (r : result A) : keeps (lift r).
Proof. by intros w p d. Qed.
Lemma keeps_or_raise {A} e (o : option A) : keeps (or_raise e o).
Proof. by destruct o; intros w p d. Qed.
Lemma keeps_get_self : keeps get_self.
Proof. by intros w p d. Qed.
Lemma keeps_get_world : keeps get_world.
Proof. by intros w p d. Qed.

Lemma keeps_modify (f : World → World) :
  (∀ w, objects (f w) = objects w) → keeps (modify f).
Proof. intros Hf w p d Hp. simpl. by rewrite Hf. Qed.

Lemma keeps_modify_self f : keeps (modify_self f).
Proof. by apply keeps_modify. Qed.

Lemma keeps_bind {A B} (m : M A) (f : A → M B) :
  keeps m → (∀ a, keeps (f a)) → keeps (bind m f).
Proof.
  intros Hm Hf w p d Hp. unfold bind. specialize (Hm w p d Hp).
  destruct (m w) as [[a|e|] w1]; simpl in *; [by apply Hf|done..].
Qed.

Lemma keeps_try_except {A} (m : M A) h :
  keeps m → (∀ e, keeps (h e)) → keeps (try_except m h).
Proof.
  intros Hm Hh w p d Hp. unfold try_except. specialize (Hm w p d Hp).
  destruct (m w) as [[a|e|] w1]; simpl in *; [done|by apply Hh|done].
Qed.

Lemma keeps_try_finally {A} (m : M A) c :
  keeps m → keeps c → keeps (try_finally m c).
Proof.
  intros Hm Hc w p d Hp. unfold try_finally. specialize (Hm w p d Hp).
  destruct (m w) as [[a|e|] w1]; simpl in *; [| |done].
  - apply (keeps_bind c (λ _, ret a)); [done| |done]. intros _. apply keeps_ret.
  - apply (keeps_bind c (λ _, raise e)); [done| |done]. intros _. apply keeps_raise.
Qed.

Lemma keeps_attempt {A} (m : M A) : keeps m → keeps (attempt m).
Proof.
  intros Hm w p d Hp. unfold attempt. specialize (Hm w p d Hp).
  by destruct (m w) as [[a|e|] w1].
Qed.

Lemma keeps_for_each {A} (l : list A) f : (∀ x, keeps (f x)) → keeps (for_each l f).
Proof.
  intros Hf. induction l as [|x l IH]; [apply keeps_ret|].
  simpl. apply keeps_bind; [done|]. by intros _.
Qed.

Lemma keeps_new_dict d : keeps (new_dict d).
Proof. intros w p d' Hp. simpl. by apply lookup_app_l_Some. Qed.

Lemma keeps_create_future : keeps create_future.
Proof. by intros w p d. Qed.
Lemma keeps_create_task c : keeps (create_task c).
Proof. by intros w p d. Qed.

Lemma keeps_send_request_begin p net drain : keeps (send_request_begin p net drain).
Proof.
  intros w q d Hq. destruct (send_request_begin p net drain w) as [r w'] eqn:Hb.
  destruct (send_request_begin_spec _ _ _ _ _ _ Hb)
    as [(_ & _ & ->)|[(_ & _ & e & _ & _ & ->)
       |(_ & _ & _ & _ & _ & _ & _ & _ & _ & Hobj & _)]]; simpl; [done..|].
  rewrite Hobj. by apply lookup_app_l_Some.
Qed.

Lemma keeps_send_request_body p drain : keeps (send_request_body p drain).
Proof.
  intros w q d Hq. destruct (send_request_body p drain w) as [r w'] eqn:Hb.
  destruct (send_request_body_spec _ _ _ _ _ Hb)
    as (_ & _ & _ & _ & _ & _ & _ & _ & _ & Hobj & _).
  simpl. rewrite Hobj. by apply lookup_app_l_Some.
Qed.

Lemma keeps_on_wait {A} (m parked : M A) : keeps m → keeps parked → keeps (on_wait m parked).
Proof.
  intros Hm Hp w q d Hq. unfold on_wait. specialize (Hm w q d Hq).
  destruct (m w) as [[a|e|] w1]; simpl in *; [done..|by apply Hp].
Qed.

Ltac keeps_step :=
  first
    [ apply keeps_ret | apply keeps_raise | apply keeps_wait | apply keeps_lift
    | apply keeps_or_raise | apply keeps_get_self | apply keeps_get_world
    | apply keeps_modify_self | apply keeps_new_dict | apply keeps_create_future
    | apply keeps_create_task | apply keeps_send_request_begin
    | apply keeps_send_request_body | apply keeps_on_wait
    | apply keeps_modify; intros ?; simpl; repeat case_match; reflexivity
    | apply keeps_bind; [|intros ?]
    | apply keeps_try_except; [|intros ?]
    | apply keeps_try_finally
    | apply keeps_attempt
    | apply keeps_for_each; intros ?
    | match goal with
      | |- keeps (match ?x with _ => _ end) => destruct x
      | |- keeps (let (_, _) := ?x in _) => destruct x
      end
    | progress unfold _heartbeat_loop_after, _heartbeat_loop_head, set_pos, finish
    | by intros w p d Hp; simpl; repeat case_match ].

Ltac keeps_tac := repeat keeps_step.

Lemma keeps_handle e : keeps (handle e).
Proof.
  destruct e; simpl;
    unfold connect, call_send_request, resume_call, run_task, feed, close_begin,
      close_end, reader_turn, _reader_loop_turn, _reader_loop_body, heartbeat_send,
      _heartbeat_loop_after, _heartbeat_loop_head, _handle_message, py_get,
      _read_message, _read_exact, fail_pending, send_request_end, wait_for,
      fut_cancel, fut_set_result, fut_set_exception, fut_done, task_cancel,
      set_pos, finish, park_send_request, park_connect, resume_connect, connect_finish;
    keeps_tac.
Qed.

Lemma step_keeps w e p d : objects w !! p = Some d → objects (step w e) !! p = Some d.
Proof.
  intros Hp. unfold step. pose proof (keeps_handle e w p d Hp) as Hk.
  by destruct (handle e w) as [[]].
Qed.

Lemma run_keeps w es p d : objects w !! p = Some d → objects (run w es) !! p = Some d.
Proof.
  revert w. induction es as [|e es IH]; intros w Hp; [done|].
  simpl. apply IH. by apply step_keeps.
Qed.
End payload_objects.

(** ** A whole frame in the buffer *)

Section codec.
Context `{PyLib}.

(** The reader of [w] with [rest] left in its buffer. *)
Lemma _read_exact_ok n bs rest rd w :
  _reader (self w) = Some rd → rexception rd = None →
  buffer rd = bs ++ rest → n = Z.of_nat (length bs) →
  _read_exact n w
  = (Ok (Some bs), set_self (set_reader (Some (mkReader rest (eof rd) None)) (self w)) w).
Proof.
  intros Hrd Hexc Hbuf ->. unfold _read_exact, bind at 1, get_self. rewrite Hrd.
  unfold readexactly. rewrite Hexc, Nat2Z.id, Hbuf.
  rewrite bool_decide_true by (rewrite length_app; lia).
  rewrite take_app_length, drop_app_length. done.
Qed.

(** What [_read_message] makes of a whole frame at the head of the
    buffer. *)
Lemma _read_message_frame prefix body rest rd w :
  _reader (self w) = Some rd → rexception rd = None →
  struct_pack_I (Z.of_nat (length body)) = Ok prefix → body ≠ [] →
  buffer rd = prefix ++ body ++ rest →
  _read_message w
  = (match bytes_decode body with
     | None => Raise UnicodeDecodeError
     | Some s => match json_loads s with
                 | Some v => Ok v
                 | None => Ok JNull
                 end
     end,
     set_self (set_reader (Some (mkReader rest (eof rd) None)) (self w)) w).
Proof.
  intros Hrd Hexc Hpack Hne Hbuf.
  unfold _read_message. unfold bind at 1. unfold get_self. simpl. rewrite Hrd.
  unfold bind at 1.
  rewrite (_read_exact_ok 4 prefix (body ++ rest) rd w Hrd Hexc Hbuf)
    by (by rewrite (pack_length _ _ Hpack)).
  unfold bind at 1, lift. rewrite (unpack_pack _ _ Hpack).
  rewrite bool_decide_false by (destruct body; simpl in *; [done|lia]).
  unfold bind at 1.
  rewrite (_read_exact_ok (Z.of_nat (length body)) body rest
             (mkReader (body ++ rest) (eof rd) None)) by done.
  unfold try_except, bind, or_raise, ret, raise. simpl.
  destruct (bytes_decode body) as [s|]; [|done].
  by destruct (json_loads s).
Qed.
End codec.

(** ** The codec, closed clients, payloads and message ids *)

Section claims_codec.
Context `{PyLib}.


(** C6. On a closed client [send_request] raises
    [ConnectionError("Client is closed")] at once and leaves the whole
    state as it was: no message id is taken, no future is created or
    registered, nothing is connected and nothing is written. *)
Theorem C6_closed_client_refuses (w : World) (payload : loc) (net drain : oracle) :
  _closed (self w) = true →
  send_request_begin payload net drain w = (Raise (ConnectionError "Client is closed"), w)
  ∧ is_ConnectionError (ConnectionError "Client is closed") = true
  ∧ step w (EvSendRequest payload net drain) = w.
Proof.
  intros Hcl.
  assert (send_request_begin payload net drain w
          = (Raise (ConnectionError "Client is closed"), w)) as Hb.
  { unfold send_request_begin, bind, get_self. simpl. by rewrite Hcl. }
  split; [done|]. split; [done|].
  unfold step, handle, bind, get_world. case_bool_decide; [|done].
  unfold call_send_request, bind. by rewrite Hb.
Qed.

(** C10. [send_request] works on a copy of the payload: the dict that
    the caller passed holds the same entries when the call raises or
    parks, and after any events that follow, among them the end of the
    call. *)
Theorem C10_payload_is_not_mutated (w : World) (payload : loc) (d : pydict)
    (net drain : oracle) (es : list event) :
  objects w !! payload = Some d →
  objects (send_request_begin payload net drain w).2 !! payload = Some d
  ∧ objects (run (step w (EvSendRequest payload net drain)) es) !! payload = Some d.
Proof.
  intros Hp. split.
  - by apply keeps_send_request_begin.
  - apply run_keeps. by apply step_keeps.
Qed.

Lemma _next_msg_id_Inv w : Inv (core w) → Inv (core (_next_msg_id w).2).
Proof.
  intros [Hnd Hc0 Hra Hrk Hfa Hfi Hfj Hrf Hres Hnc Hexn Htk].
  split; simpl in *; try done.
  - lia.
  - intros k a Hk. destruct (Hrk k a Hk) as (m & -> & Hm). exists m. split; [done|lia].
  - intros a fr Hfr. apply Hfi in Hfr. lia.
Qed.

(** C5. Message ids only go up.  In any state that the client can
    reach, [_next_msg_id] hands out the counter plus one, and an id
    handed out later, after any events, is strictly larger.  The calls
    that are waiting carry pairwise different ids, the registry holds one
    entry per key, and the key of the next request is not in it. *)
Theorem C5_msg_ids_strictly_increase (objs : list pydict) (es es' : list event) :
  let w := run (init objs) es in
  let first := _next_msg_id w in
  let second := _next_msg_id (run first.2 es') in
  (∃ m1 m2, first.1 = Ok m1 ∧ second.1 = Ok m2
            ∧ m1 = _msg_id_counter (self w) + 1 ∧ m1 < m2)
  ∧ NoDup (Dict.keys (_response_futures (self w)))
  ∧ (∀ a a' fr fr', frames w !! a = Some fr → frames w !! a' = Some fr' →
       fr_msg_id fr = fr_msg_id fr' → a = a')
  ∧ Dict.get (pretty (_msg_id_counter (self w) + 1)) (_response_futures (self w)) = None.
Proof.
  intros w first second.
  pose proof (run_Inv (init objs) es (init_Inv objs)) as HI. fold w in HI.
  split; [|split; [apply HI|split; [apply (inv_frame_inj _ HI)|]]].
  - exists (_msg_id_counter (self w) + 1),
      (_msg_id_counter (self (run first.2 es')) + 1).
    split; [done|]. split; [done|]. split; [done|].
    pose proof (run_grows first.2 es' (_next_msg_id_Inv w HI)) as Hg.
    apply grows_counter in Hg. subst first. simpl in *. lia.
  - destruct (Dict.get _ _) as [a|] eqn:Hk; [|done].
    destruct (inv_reg_keys _ HI _ _ Hk) as (m & Heq & Hm).
    apply (inj pretty) in Heq. simpl in Hm. lia.
Qed.
End claims_codec.

(** ** Timeouts and correlation *)

Section claims_correlation.
Context `{PyLib}.

(** The loop head touches nothing but the record of its task. *)
Lemma _heartbeat_loop_head_spec t w :
  ∃ ts, _heartbeat_loop_head t w = (Ok tt, set_tasks ts w)
    ∧ (∀ t', t' ≠ t → ts !! t' = tasks w !! t')
    ∧ (∀ tk, tasks w !! t = Some tk →
         ts !! t = Some (if _closed (self w) then mkTask (coro tk) Finished false
                         else mkTask (coro tk) AtSleep (must_cancel tk))).
Proof.
  unfold _heartbeat_loop_head, bind, get_self, finish, set_pos, modify.
  destruct w as [c fs os ts frs cg out cn]. simpl.
  destruct (ts !! t) as [tk|] eqn:Ht.
  - exists (<[t := if _closed c then mkTask (coro tk) Finished false
                  else mkTask (coro tk) AtSleep (must_cancel tk)]> ts).
    split; [by destruct (_closed c); simpl; rewrite Ht|].
    split; [intros t' Hne; by apply list_lookup_insert_ne|].
    intros tk' [= <-]. apply list_lookup_insert_eq. by eapply lookup_lt_Some.
  - exists ts. split; [by destruct (_closed c); simpl; rewrite Ht|]. split; [done|]. by intros.
Qed.

Lemma _heartbeat_loop_after_spec t r w :
  r ≠ Wait → ∃ ts, _heartbeat_loop_after t r w = (Ok tt, set_tasks ts w).
Proof.
  intros Hr. unfold _heartbeat_loop_after.
  destruct (_heartbeat_loop_head_spec t w) as (ts & Hhead & _).
  destruct r as [v|e|]; [by eauto| |done].
  destruct (is_Exception e); [by eauto|].
  unfold finish, modify. destruct w as [c fs os ts' frs cg out cn]. simpl.
  destruct (ts' !! t); by eauto.
Qed.

(** A call that ends leaves no frame behind. *)
Lemma resume_call_spec a fr how w r w' :
  frames w !! a = Some fr →
  send_request_end (fr_msg_id fr) a how w = (r, w') → r ≠ Wait →
  ∃ ts, resume_call a how w = (Ok tt, set_tasks ts (set_frames (delete a (frames w')) w')).
Proof.
  intros Hfr Hend Hr. unfold resume_call. unfold bind at 1. unfold get_world. rewrite Hfr.
  unfold bind at 1. unfold attempt. rewrite Hend.
  destruct (send_request_end_spec _ _ _ _ _ _ Hend) as [(-> & _)|(fs & -> & _)]; [done|].
  destruct r as [v|e|]; [| |done]; unfold bind at 1, modify.
  - destruct (fr_caller fr) as [|t]; [by exists (tasks w)|].
    by apply _heartbeat_loop_after_spec.
  - destruct (fr_caller fr) as [|t]; [by exists (tasks w)|].
    by apply _heartbeat_loop_after_spec.
Qed.

(** C7. A timeout ends the call with [TimeoutError] and takes its entry
    out of the registry for good.  Let a call wait on the future [a] in
    a reachable state, and let its timer fire (no cancellation of the
    awaiting task being due).  Then the call raises [TimeoutError]; in
    the state that follows, the call is gone, the registry has no entry
    under [str(msg_id)] and the future is done; and after any further
    events, among them a late reply, the registry still has no such
    entry and the future is what it was. *)
Theorem C7_timeout_removes_entry (objs : list pydict) (es es' : list event)
    (a : addr) (fr : Frame) :
  let w := run (init objs) es in
  frames w !! a = Some fr →
  wake_as w a TimerFired = TimerFired →
  let w1 := step w (EvTimeout a) in
  (send_request_end (fr_msg_id fr) a TimerFired w).1 = Raise TimeoutError
  ∧ is_Exception TimeoutError = true
  ∧ frames w1 !! a = None
  ∧ Dict.get (pretty (fr_msg_id fr)) (_response_futures (self w1)) = None
  ∧ (∃ f, futures w1 !! a = Some f ∧ fut_is_done f = true)
  ∧ Dict.get (pretty (fr_msg_id fr)) (_response_futures (self (run w1 es'))) = None
  ∧ futures (run w1 es') !! a = futures w1 !! a.
Proof.
  intros w Hfr Hwake w1.
  pose proof (run_Inv (init objs) es (init_Inv objs)) as HI. fold w in HI.
  assert (Inv (core w1)) as HI1 by (by apply step_Inv).
  destruct (send_request_end (fr_msg_id fr) a TimerFired w) as [r w'] eqn:Hend.
  destruct (send_request_end_spec _ _ _ _ _ _ Hend) as [(_ & _ & [=] & _)|(fs & Hw' & -> & Hfs)].
  destruct (resume_call_spec _ _ _ _ _ _ Hfr Hend) as (ts & Hres); [done|].
  assert (w1 = set_tasks ts (set_frames (delete a (frames w')) w')) as Hw1.
  { unfold w1, step, handle, bind, get_world. by rewrite Hwake, Hres. }
  assert (∃ f, futures w1 !! a = Some f ∧ fut_is_done f = true) as (f & Hf & Hdone).
  { rewrite Hw1, Hw'. simpl.
    destruct (lookup_lt_is_Some_2 (futures w) a) as [f0 Hf0];
      [by apply (inv_frame_alloc _ HI a fr)|].
    destruct Hfs as [[Hp ->]|[Hnp ->]].
    - exists FCancelled. split; [|done]. apply list_lookup_insert_eq. by eapply lookup_lt_Some.
    - exists f0. split; [done|]. destruct f0; try done. }
  assert (Dict.get (pretty (fr_msg_id fr)) (_response_futures (self w1)) = None) as Hgone.
  { rewrite Hw1, Hw'. simpl. apply get_pop_eq. apply HI. }
  pose proof (run_grows w1 es' HI1) as Hg.
  split; [done|]. split; [done|]. split.
  { rewrite Hw1. simpl. apply lookup_delete_eq. }
  split; [done|]. split; [by eauto|]. split.
  - apply (grows_absent _ _ Hg); [|done].
    rewrite Hw1, Hw'. simpl. by apply (inv_frame_ids _ HI a fr).
  - rewrite Hf. by apply (grows_done _ _ Hg).
Qed.

(** What [send_request] puts on the wire carries the [msg_id] that the
    call then waits for. *)
Lemma send_request_begin_wire p net drain w m a w' :
  send_request_begin p net drain w = (Ok (m, a), w') →
  ∃ d data prefix wr,
    objects w' !! length (objects w) = Some d
    ∧ Dict.get "msg_id" d = Some (JInt m)
    ∧ str_encode (json_dumps (JDict d)) = Some data
    ∧ struct_pack_I (Z.of_nat (length data)) = Ok prefix
    ∧ _writer (self w') = Some (mkWriter (sent wr ++ prefix ++ data) (wclosed wr)).
Proof.
  unfold send_request_begin, connect, _next_msg_id, _write_message.
  crush; intros [= <- <- <-]; simpl; rewrite ?alter_snoc.
  all: rewrite ?list_lookup_middle by done; simpl in *.
  all: rewrite ?alter_snoc, ?list_lookup_middle in * by done; simpl in *.
  all: first
    [ eexists _, _, _, _; (split; [done|]); (split; [apply get_set_eq|]);
      (split; [eassumption|]); (split; [eassumption|]); reflexivity
    | eexists _, _, _, (mkWriter [] false); (split; [done|]); (split; [apply get_set_eq|]);
      (split; [eassumption|]); (split; [eassumption|]); reflexivity ].
Qed.

(** C9, as the code has it.  In every state that the client can reach:
    the request that [send_request] writes is a dict whose ["msg_id"] is the
    integer that the call keeps as its [msg_id]; and a reply completes a
    call when the [str()] of its ["reply_to"] equals the [str()] of that
    [msg_id].  So the message that a call returns is a dict whose
    ["reply_to"] is present, is not [None], and prints as the [msg_id]
    does: if it is an integer it is the [msg_id]; if it is a string it is
    the decimal text of the [msg_id]. *)
Theorem C9_reply_matches_by_str (objs : list pydict) (es : list event) :
  let w := run (init objs) es in
  (∀ p net drain m a w',
     send_request_begin p net drain w = (Ok (m, a), w') →
     ∃ d data prefix wr,
       Dict.get "msg_id" d = Some (JInt m)
       ∧ str_encode (json_dumps (JDict d)) = Some data
       ∧ struct_pack_I (Z.of_nat (length data)) = Ok prefix
       ∧ _writer (self w') = Some (mkWriter (sent wr ++ prefix ++ data) (wclosed wr)))
  ∧ (∀ a fr how msg w',
       frames w !! a = Some fr →
       send_request_end (fr_msg_id fr) a how w = (Ok msg, w') →
       ∃ d v, msg = JDict d ∧ Dict.get "reply_to" d = Some v ∧ v ≠ JNull
         ∧ py_str v = py_str (JInt (fr_msg_id fr))
         ∧ (∀ n, v = JInt n → n = fr_msg_id fr)
         ∧ (∀ s, v = JStr s → s = pretty (fr_msg_id fr))).
Proof.
  intros w.
  pose proof (run_Inv (init objs) es (init_Inv objs)) as HI. fold w in HI.
  split.
  { intros p net drain m a w' Hb.
    destruct (send_request_begin_wire _ _ _ _ _ _ _ Hb) as (d & data & prefix & wr & _ & Hrest).
    by exists d, data, prefix, wr. }
  intros a fr how msg w' Hfr Hend.
  destruct (send_request_end_spec _ _ _ _ _ _ Hend) as [([=] & _)|(fs & _ & Hhow)].
  assert (futures w !! a = Some (FResult msg)) as Hres.
  { destruct how; [|naive_solver..].
    destruct Hhow as [_ [(v & Hv & [= <-])|[(e & _ & [=])|[_ [=]]]]]. done. }
  destruct (inv_result _ HI a fr msg Hfr Hres) as (d & v & -> & Hv & Hne & Hstr).
  exists d, v. split; [done|]. split; [done|]. split; [done|]. split; [done|]. split.
  - intros n ->. simpl in Hstr. by apply (inj pretty) in Hstr.
  - intros s ->. done.
Qed.

End claims_correlation.

(** ** Resolution, heartbeats and malformed frames *)

Section claims_resolution.
Context `{PyLib}.

(** C1, as the code has it.  In every state that the client can reach:
    - a [send_request] that raises before it waits raises
      [ConnectionError("Client is closed")] on a closed client, or the
      error of the [connect()] it runs, or the error of the write;
    - a [send_request] that waits ends, when its future is done, with the
      reply set on the future or with the [ConnectionError] set on it by
      the end of the reader loop or by [close()]; when its timeout runs
      out, with [TimeoutError]; when its caller is cancelled, with
      [CancelledError];
    - a future that is done keeps its state through all later events;
    - [_handle_message] and the two loops that fail pending futures
      never run into [InvalidStateError];
    - a call that has ended is no longer waiting. *)
Theorem C1_resolved_at_most_once (objs : list pydict) (es : list event) :
  let w := run (init objs) es in
  (∀ p net drain e,
     (send_request_begin p net drain w).1 = Raise e →
     (e = ConnectionError "Client is closed" ∧ _closed (self w) = true)
     ∨ (∃ x, e = io_exn x) ∨ e = UnicodeEncodeError ∨ e = StructError
     ∨ e = ConnectionError "Not connected")
  ∧ (∀ a fr how,
       frames w !! a = Some fr →
       let r := (send_request_end (fr_msg_id fr) a how w).1 in
       match how with
       | FutureDone =>
           (r = Wait ∧ futures w !! a = Some FPending)
           ∨ (∃ msg, r = Ok msg ∧ futures w !! a = Some (FResult msg))
           ∨ (r = Raise connection_lost ∧ futures w !! a = Some (FException connection_lost))
           ∨ (r = Raise client_closed ∧ futures w !! a = Some (FException client_closed))
       | TimerFired => r = Raise TimeoutError
       | CallerCancelled => r = Raise CancelledError
       end)
  ∧ (∀ es' a f,
       futures w !! a = Some f → fut_is_done f = true →
       futures (run w es') !! a = Some f)
  ∧ (∀ msg, (_handle_message msg w).1 = Ok tt ∨ (_handle_message msg w).1 = Raise AttributeError)
  ∧ (fail_pending connection_lost w).1 = Ok tt
  ∧ (fail_pending client_closed w).1 = Ok tt
  ∧ (∀ a fr how,
       frames w !! a = Some fr →
       (send_request_end (fr_msg_id fr) a how w).1 ≠ Wait →
       (resume_call a how w).1 = Ok tt ∧ frames (resume_call a how w).2 !! a = None).
Proof.
  intros w.
  pose proof (run_Inv (init objs) es (init_Inv objs)) as HI. fold w in HI.
  split; [|split; [|split; [|split; [|split; [|split]]]]].
  - intros p net drain e Hr.
    destruct (send_request_begin p net drain w) as [r w'] eqn:Hb. simpl in Hr. subst r.
    destruct (send_request_begin_spec _ _ _ _ _ _ Hb)
      as [(Hcl & [= ->] & _)|[(_ & _ & x & _ & [= ->] & _)
         |(_ & _ & _ & _ & _ & _ & _ & _ & _ & _ & [[=]|(e0 & [= ->] & _ & He0)])]];
      [by left|right; left; by eauto|by right].
  - intros a fr how Hfr r. subst r.
    destruct (send_request_end (fr_msg_id fr) a how w) as [r w'] eqn:Hend.
    destruct (send_request_end_spec _ _ _ _ _ _ Hend)
      as [(-> & _ & -> & [Hp|Hn])|(fs & _ & Hhow)]; simpl.
    + by left.
    + apply (inv_frame_alloc _ HI) in Hfr. apply lookup_ge_None in Hn. simpl in *. lia.
    + destruct how; [|naive_solver..].
      destruct Hhow as [_ [(v & Hv & ->)|[(e & He & ->)|[Hc _]]]].
      * right; left. by eauto.
      * destruct (inv_exn _ HI a e He) as [->| ->]; [right; right; left|right; right; right];
          done.
      * by apply (inv_not_cancelled _ HI a fr Hfr) in Hc.
  - intros es' a f Hf Hdone. by apply (grows_done _ _ (run_grows w es' HI)).
  - intros msg. destruct (_handle_message_cases msg w)
      as [[-> _]|[[-> _]|(d & v & a & _ & _ & _ & _ & _ & ->)]]; auto.
  - by destruct (fail_pending_spec connection_lost w) as (fs & -> & _); [left|].
  - by destruct (fail_pending_spec client_closed w) as (fs & -> & _); [right|].
  - intros a fr how Hfr Hr.
    destruct (send_request_end (fr_msg_id fr) a how w) as [r w'] eqn:Hend.
    destruct (resume_call_spec _ _ _ _ _ _ Hfr Hend Hr) as (ts & ->).
    split; [done|]. simpl. apply lookup_delete_eq.
Qed.


(** C2, as the code has it.  [_read_message] returns [None] for a frame
    whose body is not JSON, as it does at the end of the stream, and
    [_reader_loop] leaves its loop on [None].  So when the buffer starts
    with such a frame, the frame is consumed, the loop ends without
    reading what follows, nothing is printed, the task finishes, and
    every registered future that was pending holds
    [ConnectionError("Connection lost")]. *)
Theorem C2_malformed_frame_ends_the_loop (w : World) (rd : StreamReader)
    (prefix body rest : list byte) (s : string) (t : tid) (tk : Task) :
  _reader (self w) = Some rd → rexception rd = None →
  struct_pack_I (Z.of_nat (length body)) = Ok prefix → body ≠ [] →
  buffer rd = prefix ++ body ++ rest →
  bytes_decode body = Some s → json_loads s = None →
  tasks w !! t = Some tk →
  let w1 := set_self (set_reader (Some (mkReader rest (eof rd) None)) (self w)) w in
  _read_message w = (Ok JNull, w1)
  ∧ _reader_loop_body w = (Ok false, w1)
  ∧ ∃ fs,
      _reader_loop_turn _reader_loop_body w = (Ok false, set_futures fs w1)
      ∧ reader_turn t _reader_loop_body w
        = (Ok tt, set_tasks (<[t := mkTask (coro tk) Finished false]> (tasks w))
                    (set_futures fs w1))
      ∧ (∀ k a, Dict.get k (_response_futures (self w)) = Some a →
           futures w !! a = Some FPending →
           fs !! a = Some (FException connection_lost))
      ∧ (∀ a f, futures w !! a = Some f → f ≠ FPending → fs !! a = Some f).
Proof.
  intros Hrd Hexc Hpack Hne Hbuf Hdec Hloads Htk w1.
  assert (_read_message w = (Ok JNull, w1)) as Hread.
  { rewrite (_read_message_frame prefix body rest rd w Hrd Hexc Hpack Hne Hbuf).
    by rewrite Hdec, Hloads. }
  assert (_reader_loop_body w = (Ok false, w1)) as Hbody.
  { unfold _reader_loop_body, bind at 1, get_self. simpl. rewrite Hrd.
    unfold at_eof. rewrite Hbuf.
    rewrite bool_decide_false, andb_false_r.
    - unfold bind. by rewrite Hread.
    - apply pack_length in Hpack. by destruct prefix. }
  split; [done|]. split; [done|].
  destruct (fail_pending_spec connection_lost w1) as (fs & Hfail & _ & _ & _ & Hin & Hkeep);
    [by left|].
  exists fs.
  assert (_reader_loop_turn _reader_loop_body w = (Ok false, set_futures fs w1)) as Hturn.
  { unfold _reader_loop_turn, bind at 1, try_except. rewrite Hbody.
    unfold bind. unfold connection_lost in Hfail. by rewrite Hfail. }
  split; [done|]. split.
  { rewrite reader_turn_eq, Hturn. unfold finish, modify. simpl. by rewrite Htk. }
  split; [|done].
  intros k a Hk Hp. apply Hin; [|done]. by eapply get_values.
Qed.
End claims_resolution.

(** ** The theorems at work on concrete runs *)

(** A [close()] that runs while a [send_request] is inside [connect()]:
    when the connection is there the call goes on, registers its future
    and waits, on a client that is closed; a reply still completes it. *)
Example close_during_connect :
  let w := run (H := Demo.lib) (init [Scenario.ping])
             [EvSendRequestPark 0%nat; EvClose; EvConnected 0%nat None None] in
  _closed (self w) = true
  ∧ futures w = [FPending]
  ∧ frames w !! 0%nat = Some (mkFrame 1 External)
  ∧ futures (run (H := Demo.lib) w
               [EvFeedData (Demo.frame Scenario.reply); EvTask 0%nat None None])
    = [FResult Scenario.reply].
Proof. vm_compute. repeat split. Qed.

(** A reader loop that [close()] cancels while it waits for a frame
    fails the pending futures itself, with "Connection lost"; one that
    never started leaves them to [close()], which says "Client closed". *)
Example close_cancels_the_reader :
  futures (run (H := Demo.lib) (init [Scenario.ping])
             [EvConnect None; EvTask 0%nat None None; EvSendRequest 0%nat None None;
              EvClose; EvTask 0%nat None None; EvCloseResume])
  = [FException connection_lost]
  ∧ futures (run (H := Demo.lib) (init [Scenario.ping])
               [EvConnect None; EvSendRequest 0%nat None None;
                EvClose; EvTask 0%nat None None; EvCloseResume])
    = [FException client_closed].
Proof. vm_compute. repeat split. Qed.



Lemma C6_witness :
  send_request_begin (H := Demo.lib) 0%nat None None
    (run (H := Demo.lib) Scenario.connected [EvClose])
  = (Raise (ConnectionError "Client is closed"),
     run (H := Demo.lib) Scenario.connected [EvClose]).
Proof.
  apply (C6_closed_client_refuses (H := Demo.lib)
           (run (H := Demo.lib) Scenario.connected [EvClose]) 0%nat None None).
  reflexivity.
Defined.

Lemma C10_witness :
  objects (run (H := Demo.lib)
             (step (H := Demo.lib) Scenario.connected (EvSendRequest 0%nat None None))
             [EvTimeout 0%nat]) !! 0%nat
  = Some Scenario.ping.
Proof.
  apply (C10_payload_is_not_mutated (H := Demo.lib) Scenario.connected 0%nat Scenario.ping
           None None [EvTimeout 0%nat]).
  reflexivity.
Defined.

Lemma C7_witness :
  Dict.get (pretty 1)
    (_response_futures
       (self (run (H := Demo.lib) (step (H := Demo.lib) Scenario.waiting (EvTimeout 0%nat))
                [EvFeedData (Demo.frame Scenario.reply); EvTask 0%nat None None])))
  = None
  ∧ futures (run (H := Demo.lib) (step (H := Demo.lib) Scenario.waiting (EvTimeout 0%nat))
               [EvFeedData (Demo.frame Scenario.reply); EvTask 0%nat None None]) !! 0%nat
    = Some FCancelled.
Proof.
  destruct (C7_timeout_removes_entry (H := Demo.lib) [Scenario.ping]
              [EvConnect None; EvSendRequest 0%nat None None]
              [EvFeedData (Demo.frame Scenario.reply); EvTask 0%nat None None]
              0%nat (mkFrame 1 External))
    as (_ & _ & _ & _ & _ & Hgone & Hsame).
  - reflexivity.
  - reflexivity.
  - split; [exact Hgone|]. etransitivity; [exact Hsame|]. reflexivity.
Defined.

Lemma C9_witness :
  ∃ d v, Scenario.reply = JDict d ∧ Dict.get "reply_to" d = Some v ∧ v ≠ JNull
    ∧ py_str (H := Demo.lib) v = py_str (H := Demo.lib) (JInt 1)
    ∧ (∀ n, v = JInt n → n = 1)
    ∧ (∀ s, v = JStr s → s = pretty 1).
Proof.
  destruct (C9_reply_matches_by_str (H := Demo.lib) [Scenario.ping]
              [EvConnect None; EvSendRequest 0%nat None None;
               EvFeedData (Demo.frame Scenario.reply); EvTask 0%nat None None])
    as [_ Hreply].
  apply (Hreply 0%nat (mkFrame 1 External) FutureDone Scenario.reply
           (send_request_end 1 0%nat FutureDone Scenario.replied).2).
  - reflexivity.
  - vm_compute. reflexivity.
Defined.


Lemma C2_witness :
  _read_message (H := Demo.lib)
    (step (H := Demo.lib) Scenario.waiting
       (EvFeedData (Demo.frame_of_text Scenario.garbage ++ Demo.frame Scenario.reply)))
  = (Ok JNull, step (H := Demo.lib) Scenario.waiting (EvFeedData (Demo.frame Scenario.reply))).
Proof.
  apply (C2_malformed_frame_ends_the_loop (H := Demo.lib)
           (step (H := Demo.lib) Scenario.waiting
              (EvFeedData (Demo.frame_of_text Scenario.garbage ++ Demo.frame Scenario.reply)))
           (mkReader (Demo.frame_of_text Scenario.garbage ++ Demo.frame Scenario.reply)
              false None)
           (take 4 (Demo.frame_of_text Scenario.garbage))
           (drop 4 (Demo.frame_of_text Scenario.garbage))
           (Demo.frame Scenario.reply) Scenario.garbage
           0%nat (mkTask ReaderLoop Created false)).
  - reflexivity.
  - reflexivity.
  - vm_compute. reflexivity.
  - vm_compute. discriminate.
  - vm_compute. reflexivity.
  - vm_compute. reflexivity.
  - vm_compute. reflexivity.
  - reflexivity.
Defined.

(** C1, as the claim states it, fails: a client that is open and not yet
    connected runs [connect()] inside [send_request]; when the connection
    is refused the call ends with [ConnectionRefusedError], which is no
    reply, no [ConnectionError("Connection lost")] from the reader loop, no
    [TimeoutError], and not the refusal of a closed client.  No future was
    ever created for the call. *)
Lemma C1_counterexample :
  let w := init [Scenario.ping] in
  let r := (send_request_begin (H := Demo.lib) 0%nat (Some io_refused) None w).1 in
  r = Raise ConnectionRefusedError
  ∧ _closed (self w) = false
  ∧ futures (send_request_begin (H := Demo.lib) 0%nat (Some io_refused) None w).2 = []
  ∧ (∀ msg, r ≠ Ok msg)
  ∧ r ≠ Raise connection_lost
  ∧ r ≠ Raise TimeoutError
  ∧ r ≠ Raise (ConnectionError "Client is closed").
Proof. vm_compute. repeat split; try done. Qed.

(** C2, as the claim states it, fails: a request is waiting, and the peer
    sends a frame that is not JSON followed by the well-formed reply.  The
    reader loop ends on the first frame: its task is finished, the request
    holds [ConnectionError("Connection lost")] instead of the reply, the
    reply stays unread in the buffer, and running the task again changes
    nothing. *)
Lemma C2_counterexample :
  let w := run (H := Demo.lib) Scenario.waiting
             [EvFeedData (Demo.frame_of_text Scenario.garbage ++ Demo.frame Scenario.reply);
              EvTask 0%nat None None] in
  tasks w !! 0%nat = Some (mkTask ReaderLoop Finished false)
  ∧ futures w !! 0%nat = Some (FException connection_lost)
  ∧ futures w !! 0%nat ≠ Some (FResult Scenario.reply)
  ∧ (buffer <$> _reader (self w)) = Some (Demo.frame Scenario.reply)
  ∧ step (H := Demo.lib) w (EvTask 0%nat None None) = w.
Proof. vm_compute. repeat split; try done. Qed.

(** C9, as the claim states it, fails: the peer answers request 1 with
    ["reply_to": "1"], a string.  [str("1") == str(1)], so the reply
    completes the call, and the message returned has a ["reply_to"] that
    is not the integer 1. *)
Lemma C9_counterexample :
  let w := run (H := Demo.lib) Scenario.waiting
             [EvFeedData (Demo.frame Scenario.text_reply); EvTask 0%nat None None] in
  frames w !! 0%nat = Some (mkFrame 1 External)
  ∧ (send_request_end 1 0%nat FutureDone w).1 = Ok Scenario.text_reply
  ∧ py_get Scenario.text_reply "reply_to" w = (Ok (JStr "1"), w)
  ∧ JStr "1" ≠ JInt 1.
Proof. vm_compute. repeat split; try done. Qed.

(** C3 fails on the code: [connect] does not look at [_closed].  On a
    client that was closed, [connect()] opens a connection and starts both
    loops; the reader loop then handles what the peer sends, while
    [_closed] stays set and [send_request] still refuses. *)
Lemma C3_connect_reopens_a_closed_client :
  let w := run (H := Demo.lib) (init [Scenario.ping]) [EvClose; EvConnect None] in
  _closed (self w) = true
  ∧ _reader (self w) = Some (mkReader [] false None)
  ∧ _writer (self w) = Some (mkWriter [] false)
  ∧ tasks w = [mkTask ReaderLoop Created false; mkTask HeartbeatLoop Created false]
  ∧ stdout (run (H := Demo.lib) w
              [EvFeedData (Demo.frame Scenario.notice); EvTask 0%nat None None])
    = [Scenario.notice]
  ∧ tasks (run (H := Demo.lib) w
             [EvFeedData (Demo.frame Scenario.notice); EvTask 0%nat None None]) !! 0%nat
    = Some (mkTask ReaderLoop AtRead false)
  ∧ step (H := Demo.lib) w (EvSendRequest 0%nat None None) = w.
Proof. vm_compute. repeat split; try done. Qed.

Lemma C1_witness :
  futures (run (H := Demo.lib)
             (run (H := Demo.lib) (init [Scenario.ping])
                [EvConnect None; EvSendRequest 0%nat None None;
                 EvFeedData (Demo.frame Scenario.reply); EvTask 0%nat None None])
             [EvTimeout 0%nat; EvClose; EvCloseResume]) !! 0%nat
  = Some (FResult Scenario.reply).
Proof.
  destruct (C1_resolved_at_most_once (H := Demo.lib) [Scenario.ping]
           [EvConnect None; EvSendRequest 0%nat None None;
            EvFeedData (Demo.frame Scenario.reply); EvTask 0%nat None None])
    as (_ & _ & Hstable & _).
  apply Hstable.
  - vm_compute. reflexivity.
  - reflexivity.
Defined.

Lemma C5_witness :
  ∃ m1 m2,
    (_next_msg_id Scenario.waiting).1 = Ok m1
    ∧ (_next_msg_id (run (H := Demo.lib) (_next_msg_id Scenario.waiting).2
                       [EvSendRequest 0%nat None None])).1 = Ok m2
    ∧ m1 = _msg_id_counter (self Scenario.waiting) + 1 ∧ m1 < m2.
Proof.
  pose proof (C5_msg_ids_strictly_increase (H := Demo.lib) [Scenario.ping]
           [EvConnect None; EvSendRequest 0%nat None None]
           [EvSendRequest 0%nat None None]) as Hc.
  apply Hc.
Defined.

(** * Further properties of the code *)

Section keeping.
Context `{PyLib}.
Context (P : World → Prop).

Lemma preserves_ret {A} (a : A) : preserves P (ret a).
Proof. by intros w. Qed.
Lemma preserves_raise {A} e : preserves P (@raise A e).
Proof. by intros w. Qed.
Lemma preserves_wait {A} : preserves P (@wait A).
Proof. by intros w. Qed.
Lemma preserves_lift {A} (r : result A) : preserves P (lift r).
Proof. by intros w. Qed.
Lemma preserves_or_raise {A} e (o : option A) : preserves P (or_raise e o).
Proof. by destruct o; intros w. Qed.
Lemma preserves_get_self : preserves P get_self.
Proof. by intros w. Qed.
Lemma preserves_get_world : preserves P get_world.
Proof. by intros w. Qed.

Lemma preserves_modify (f : World → World) :
  (∀ w, P w → P (f w)) → preserves P (modify f).
Proof. intros Hf w Hw. by apply Hf. Qed.

Lemma preserves_bind {A B} (m : M A) (f : A → M B) :
  preserves P m → (∀ a, preserves P (f a)) → preserves P (bind m f).
Proof.
  intros Hm Hf w Hw. unfold bind. specialize (Hm w Hw).
  destruct (m w) as [[a|e|] w1]; simpl in *; [by apply Hf|done..].
Qed.

Lemma preserves_try_except {A} (m : M A) h :
  preserves P m → (∀ e, preserves P (h e)) → preserves P (try_except m h).
Proof.
  intros Hm Hh w Hw. unfold try_except. specialize (Hm w Hw).
  destruct (m w) as [[a|e|] w1]; simpl in *; [done|by apply Hh|done].
Qed.

Lemma preserves_try_finally {A} (m : M A) c :
  preserves P m → preserves P c → preserves P (try_finally m c).
Proof.
  intros Hm Hc w Hw. unfold try_finally. specialize (Hm w Hw).
  destruct (m w) as [[a|e|] w1]; simpl in *; [| |done].
  - apply (preserves_bind c (λ _, ret a)); [done| |done]. intros _. apply preserves_ret.
  - apply (preserves_bind c (λ _, raise e)); [done| |done]. intros _. apply preserves_raise.
Qed.

Lemma preserves_attempt {A} (m : M A) : preserves P m → preserves P (attempt m).
Proof.
  intros Hm w Hw. unfold attempt. specialize (Hm w Hw).
  by destruct (m w) as [[a|e|] w1].
Qed.

Lemma preserves_on_wait {A} (m parked : M A) :
  preserves P m → preserves P parked → preserves P (on_wait m parked).
Proof.
  intros Hm Hp w Hw. unfold on_wait. specialize (Hm w Hw).
  destruct (m w) as [[a|e|] w1]; simpl in *; [done..|by apply Hp].
Qed.

Lemma preserves_for_each {A} (l : list A) f :
  (∀ x, preserves P (f x)) → preserves P (for_each l f).
Proof.
  intros Hf. induction l as [|x l IH]; [apply preserves_ret|].
  simpl. apply preserves_bind; [done|]. by intros _.
Qed.

Lemma preserves_step e w : preserves P (handle e) → P w → P (step w e).
Proof.
  intros Hh Hw. unfold step. specialize (Hh w Hw).
  by destruct (handle e w) as [[]].
Qed.
End keeping.

(** One step of a proof that a computation keeps a property; [known]
    closes the computations that have a lemma, [change_ok] the changes of
    the state. *)
Ltac preserves_step known change_ok :=
  first
    [ known
    | apply preserves_ret | apply preserves_raise | apply preserves_wait
    | apply preserves_lift | apply preserves_or_raise | apply preserves_get_self
    | apply preserves_get_world
    | apply preserves_modify; change_ok
    | apply preserves_bind; [|intros ?]
    | apply preserves_try_except; [|intros ?]
    | apply preserves_try_finally
    | apply preserves_attempt
    | apply preserves_on_wait
    | apply preserves_for_each; intros ?
    | match goal with
      | |- preserves _ (match ?x with _ => _ end) => destruct x
      | |- preserves _ (let (_, _) := ?x in _) => destruct x
      end
    | progress unfold modify_self, create_future, create_task, new_dict, read_dict,
        dict_copy, dict_setdefault, dict_setitem, task_cancel, set_pos, finish,
        fut_cancel, fut_set_result, fut_set_exception, fut_done,
        _heartbeat_loop_after, _heartbeat_loop_head
    | by intros ? ?; simpl; repeat case_match ].

Ltac preserves_tac known change_ok := repeat preserves_step known change_ok.

Section more_streams.
Context `{PyLib}.

(** X8. [_read_exact] returns all [n] bytes or none.  What it returns
    are exactly the first [n] bytes of the buffer, which it takes out of
    the buffer; it returns [None] only when the stream has ended with
    fewer than [n] bytes left, or when the connection was reset; it lets
    every other exception of the stream through; and it waits, changing
    nothing, while the stream is open and holds fewer than [n] bytes. *)
Theorem read_exact_is_all_or_nothing (n : Z) (w : World) (rd : StreamReader)
    (r : result (option (list byte))) (w' : World) :
  _reader (self w) = Some rd →
  _read_exact n w = (r, w') →
  match r with
  | Ok (Some bs) =>
      rexception rd = None ∧ length bs = Z.to_nat n
      ∧ ∃ rest, buffer rd = bs ++ rest
          ∧ w' = set_self (set_reader (Some (mkReader rest (eof rd) None)) (self w)) w
  | Ok None =>
      (rexception rd = Some ConnectionResetError ∧ w' = w)
      ∨ (rexception rd = Some IncompleteReadError ∧ w' = w)
      ∨ (rexception rd = None ∧ eof rd = true
         ∧ (length (buffer rd) < Z.to_nat n)%nat
         ∧ w' = set_self (set_reader (Some (mkReader [] true None)) (self w)) w)
  | Raise e =>
      rexception rd = Some e ∧ e ≠ ConnectionResetError ∧ e ≠ IncompleteReadError ∧ w' = w
  | Wait =>
      rexception rd = None ∧ eof rd = false
      ∧ (length (buffer rd) < Z.to_nat n)%nat ∧ w' = w
  end.
Proof.
  intros Hrd. unfold _read_exact, bind at 1, get_self. simpl. rewrite Hrd.
  unfold readexactly.
  assert (set_self (set_reader (Some rd) (self w)) w = w) as Hid.
  { destruct w as [[]]; simpl in *. by subst. }
  destruct (rexception rd) as [e|] eqn:Hexc.
  - unfold try_except, bind, modify_self, modify, lift, ret, raise. simpl. rewrite Hid.
    destruct e; simpl; intros [= <- <-]; auto 10.
  - case_bool_decide as Hlen.
    + unfold try_except, bind, modify_self, modify, lift, ret. simpl. intros [= <- <-].
      split; [done|]. split; [rewrite length_take; lia|].
      exists (drop (Z.to_nat n) (buffer rd)). by rewrite take_drop.
    + destruct (eof rd) eqn:Heof.
      * unfold try_except, bind, modify_self, modify, lift, ret. simpl. intros [= <- <-].
        right; right. repeat split; try done; lia.
      * unfold try_except, bind, modify_self, modify, lift, ret. simpl. intros [= <- <-].
        rewrite Hid. repeat split; try done; lia.
Qed.
End more_streams.

Section more_reading.
Context `{PyLib}.

Lemma set_reader_same w rd :
  _reader (self w) = Some rd → set_self (set_reader (Some rd) (self w)) w = w.
Proof. intros Hrd. destruct w as [[]]; simpl in *. by subst. Qed.

(** Too few bytes in the buffer: [None] once the stream has ended, and
    a wait before. *)
Lemma _read_exact_short n rd w :
  _reader (self w) = Some rd → rexception rd = None →
  (length (buffer rd) < Z.to_nat n)%nat →
  _read_exact n w
  = if eof rd
    then (Ok None, set_self (set_reader (Some (mkReader [] true None)) (self w)) w)
    else (Wait, w).
Proof.
  intros Hrd Hexc Hlen. unfold _read_exact, bind at 1, get_self. simpl. rewrite Hrd.
  unfold readexactly. rewrite Hexc. rewrite bool_decide_false by lia.
  destruct (eof rd); unfold try_except, bind, modify_self, modify, lift, ret; simpl; [done|].
  by rewrite set_reader_same.
Qed.

(** X9. [_read_message] on a stream that stops short.  With fewer than
    four bytes in the buffer, or with a length prefix but fewer bytes
    than it announces, [_read_message] returns [None] once the stream has
    ended and waits while it is open: a partial frame is never
    delivered.  A prefix that announces zero bytes gives [None] too, with
    the bytes after the prefix left in the buffer. *)
Theorem read_message_short_stream (w : World) (rd : StreamReader) :
  _reader (self w) = Some rd → rexception rd = None →
  ((length (buffer rd) < 4)%nat →
     (_read_message w).1 = if eof rd then Ok JNull else Wait)
  ∧ (∀ prefix tail n,
       buffer rd = prefix ++ tail → length prefix = 4%nat →
       struct_unpack_I prefix = Ok n →
       (n = 0 →
          _read_message w
          = (Ok JNull, set_self (set_reader (Some (mkReader tail (eof rd) None)) (self w)) w))
       ∧ ((length tail < Z.to_nat n)%nat →
          (_read_message w).1 = if eof rd then Ok JNull else Wait)).
Proof.
  intros Hrd Hexc. split.
  - intros Hlen. unfold _read_message, bind at 1, get_self. simpl. rewrite Hrd.
    unfold bind at 1. rewrite (_read_exact_short 4 rd w Hrd Hexc) by (simpl; lia).
    by destruct (eof rd).
  - intros prefix tail n Hbuf Hlen Hn.
    assert (_read_message w
            = (length ← lift (struct_unpack_I prefix);
               if bool_decide (length = 0) then ret JNull
               else body ← _read_exact length;
                    match body with
                    | None => ret JNull
                    | Some body =>
                        try_except
                          (s ← or_raise UnicodeDecodeError (bytes_decode body);
                           or_raise JSONDecodeError (json_loads s))
                          (λ e, match e with
                                | JSONDecodeError => ret JNull
                                | _ => raise e
                                end)
                    end)
                (set_self (set_reader (Some (mkReader tail (eof rd) None)) (self w)) w))
      as ->.
    { unfold _read_message. unfold bind at 1. unfold get_self. simpl. rewrite Hrd.
      unfold bind at 1.
      by rewrite (_read_exact_ok 4 prefix tail rd w Hrd Hexc Hbuf) by (by rewrite Hlen). }
    split.
    + intros ->. unfold bind at 1, lift. by rewrite Hn.
    + intros Htail. unfold bind at 1, lift. rewrite Hn.
      rewrite bool_decide_false by lia. unfold bind at 1.
      rewrite (_read_exact_short n (mkReader tail (eof rd) None)) by done.
      simpl. by destruct (eof rd).
Qed.
End more_reading.

(** ** The length prefix, the other way round *)

Lemma Z_of_byte_range b : 0 ≤ Z_of_byte b < 256.
Proof.
  unfold Z_of_byte. pose proof (Byte.to_N_bounded b) as Hb. lia.
Qed.

Lemma byte_of_Z_of_byte b : byte_of_Z (Z_of_byte b) = b.
Proof.
  unfold byte_of_Z. pose proof (Z_of_byte_range b) as Hb.
  assert (Z.land (Z_of_byte b) 255 = Z_of_byte b) as ->.
  { change 255 with (Z.ones 8). rewrite Z.land_ones by lia. apply Z.mod_small. lia. }
  unfold Z_of_byte. rewrite N2Z.id, Byte.of_to_N. done.
Qed.

Lemma testbit_byte_high b i : 8 ≤ i → Z.testbit (Z_of_byte b) i = false.
Proof.
  intros Hi. pose proof (Z_of_byte_range b) as Hb.
  destruct (decide (Z_of_byte b = 0)) as [->|Hne]; [apply Z.bits_0|].
  apply Z.bits_above_log2; [lia|].
  assert (Z.log2 (Z_of_byte b) < 8); [|lia]. apply Z.log2_lt_pow2; lia.
Qed.

Lemma testbit_unpack b3 b2 b1 b0 i :
  0 ≤ i →
  Z.testbit (Z.lor (Z.shiftl (Z_of_byte b3) 24)
               (Z.lor (Z.shiftl (Z_of_byte b2) 16)
                  (Z.lor (Z.shiftl (Z_of_byte b1) 8) (Z_of_byte b0)))) i
  = if decide (i < 8) then Z.testbit (Z_of_byte b0) i
    else if decide (i < 16) then Z.testbit (Z_of_byte b1) (i - 8)
    else if decide (i < 24) then Z.testbit (Z_of_byte b2) (i - 16)
    else Z.testbit (Z_of_byte b3) (i - 24).
Proof.
  intros Hi. rewrite !Z.lor_spec, !Z.shiftl_spec by lia.
  repeat case_decide.
  - rewrite (Z.testbit_neg_r _ (i - 24)), (Z.testbit_neg_r _ (i - 16)),
      (Z.testbit_neg_r _ (i - 8)) by lia. done.
  - rewrite (Z.testbit_neg_r _ (i - 24)), (Z.testbit_neg_r _ (i - 16)) by lia.
    rewrite (testbit_byte_high b0 i) by lia. simpl. by rewrite orb_false_r.
  - rewrite (Z.testbit_neg_r _ (i - 24)) by lia.
    rewrite (testbit_byte_high b0 i), (testbit_byte_high b1 (i - 8)) by lia.
    simpl. by rewrite !orb_false_r.
  - rewrite (testbit_byte_high b0 i), (testbit_byte_high b1 (i - 8)),
      (testbit_byte_high b2 (i - 16)) by lia.
    by rewrite !orb_false_r.
Qed.

Lemma land_shiftr_unpack b3 b2 b1 b0 k bk :
  (k = 0 ∧ bk = b0) ∨ (k = 8 ∧ bk = b1) ∨ (k = 16 ∧ bk = b2) ∨ (k = 24 ∧ bk = b3) →
  Z.land (Z.shiftr (Z.lor (Z.shiftl (Z_of_byte b3) 24)
                      (Z.lor (Z.shiftl (Z_of_byte b2) 16)
                         (Z.lor (Z.shiftl (Z_of_byte b1) 8) (Z_of_byte b0)))) k) 255
  = Z_of_byte bk.
Proof.
  intros Hk. apply Z.bits_inj'. intros i Hi.
  change 255 with (Z.ones 8). rewrite Z.land_spec, Z.shiftr_spec by lia.
  rewrite testbit_unpack by lia.
  destruct (decide (i < 8)) as [Hlt|Hge].
  - rewrite Z.ones_spec_low, andb_true_r by lia.
    destruct Hk as [[-> ->]|[[-> ->]|[[-> ->]|[-> ->]]]]; repeat case_decide; try lia;
      f_equal; lia.
  - rewrite Z.ones_spec_high, andb_false_r by lia.
    symmetry. apply testbit_byte_high. lia.
Qed.

Lemma unpack_range bs n : struct_unpack_I bs = Ok n → 0 ≤ n < 2 ^ 32.
Proof.
  unfold struct_unpack_I. destruct bs as [|b3 [|b2 [|b1 [|b0 [|]]]]]; try done.
  intros [= <-].
  set (n := Z.lor _ _).
  assert (0 ≤ n) as Hn.
  { unfold n. pose proof (Z_of_byte_range b0). pose proof (Z_of_byte_range b1).
    pose proof (Z_of_byte_range b2). pose proof (Z_of_byte_range b3).
    repeat (apply Z.lor_nonneg; split); try apply Z.shiftl_nonneg; lia. }
  split; [done|].
  destruct (decide (n < 2 ^ 32)) as [|Hge]; [done|]. exfalso.
  assert (0 < n) as Hpos by lia.
  pose proof (Z.bit_log2 n Hpos) as Hbit.
  assert (32 ≤ Z.log2 n) as Hlog by (apply Z.log2_le_pow2; lia).
  unfold n in Hbit at 1. rewrite testbit_unpack in Hbit by lia.
  repeat case_decide; try lia.
  rewrite testbit_byte_high in Hbit by lia. done.
Qed.

Lemma pack_unpack bs n : struct_unpack_I bs = Ok n → struct_pack_I n = Ok bs.
Proof.
  intros Hu. pose proof (unpack_range _ _ Hu) as Hn. revert Hu.
  unfold struct_unpack_I. destruct bs as [|b3 [|b2 [|b1 [|b0 [|]]]]]; try done.
  intros [= <-]. unfold struct_pack_I. rewrite bool_decide_true by done.
  unfold byte_of_Z at 1 2 3.
  rewrite (land_shiftr_unpack b3 b2 b1 b0 24 b3), (land_shiftr_unpack b3 b2 b1 b0 16 b2),
    (land_shiftr_unpack b3 b2 b1 b0 8 b1) by auto.
  pose proof (land_shiftr_unpack b3 b2 b1 b0 0 b0) as H0. rewrite Z.shiftr_0_r in H0.
  unfold byte_of_Z. rewrite H0 by auto.
  unfold Z_of_byte. rewrite !N2Z.id, !Byte.of_to_N. done.
Qed.

(** X12. The length prefix.  [struct.pack(">I", n)] gives four bytes
    exactly when [0 <= n < 2^32], and [struct.error] otherwise;
    [struct.unpack(">I", b)] accepts exactly the four-byte strings and
    gives a number in that range; and the two are inverse to each other,
    in both directions. *)
Theorem length_prefix_is_a_bijection :
  (∀ n, 0 ≤ n < 2 ^ 32 →
     ∃ bs, struct_pack_I n = Ok bs ∧ length bs = 4%nat ∧ struct_unpack_I bs = Ok n)
  ∧ (∀ n, ¬ (0 ≤ n < 2 ^ 32) → struct_pack_I n = Raise StructError)
  ∧ (∀ bs, length bs = 4%nat →
       ∃ n, struct_unpack_I bs = Ok n ∧ 0 ≤ n < 2 ^ 32 ∧ struct_pack_I n = Ok bs)
  ∧ (∀ bs, length bs ≠ 4%nat → struct_unpack_I bs = Raise StructError).
Proof.
  split; [|split; [|split]].
  - intros n Hn. destruct (struct_pack_I n) as [bs| |] eqn:Hp;
      try (unfold struct_pack_I in Hp; rewrite bool_decide_true in Hp by done; done).
    exists bs. split; [done|]. split; [by eapply pack_length|by apply unpack_pack].
  - intros n Hn. unfold struct_pack_I. by rewrite bool_decide_false.
  - intros bs Hlen. destruct bs as [|b3 [|b2 [|b1 [|b0 [|]]]]]; try done.
    eexists. split; [reflexivity|]. split.
    + by apply (unpack_range [b3; b2; b1; b0]).
    + by apply pack_unpack.
  - intros bs Hlen. by destruct bs as [|b3 [|b2 [|b1 [|b0 [|]]]]].
Qed.

Section more_writing.
Context `{PyLib}.

(** X10. [_write_message] hands the transport a whole frame or
    nothing.  Either it raises before it writes and leaves the state as
    it was ([ConnectionError("Not connected")] without a writer,
    [UnicodeEncodeError], or [struct.error] for a body of 2^32 bytes or
    more), or it appends to what the writer has sent exactly one frame:
    four bytes that decode to the length of the body, then the body.  In
    the second case the outcome is that of [drain]. *)
Theorem write_message_sends_whole_frames (obj : json) (drain : oracle)
    (w : World) (r : result unit) (w' : World) :
  _write_message obj drain w = (r, w') →
  (w' = w
   ∧ ((r = Raise (ConnectionError "Not connected") ∧ _writer (self w) = None)
      ∨ (r = Raise UnicodeEncodeError ∧ str_encode (json_dumps obj) = None)
      ∨ (r = Raise StructError
         ∧ ∃ data, str_encode (json_dumps obj) = Some data
                   ∧ 2 ^ 32 ≤ Z.of_nat (length data))))
  ∨ (∃ wr data prefix,
       _writer (self w) = Some wr
       ∧ str_encode (json_dumps obj) = Some data
       ∧ length prefix = 4%nat
       ∧ struct_unpack_I prefix = Ok (Z.of_nat (length data))
       ∧ w' = set_self (set_writer (Some (mkWriter (sent wr ++ prefix ++ data) (wclosed wr)))
                          (self w)) w
       ∧ r = match drain with
             | None => Ok tt
             | Some e => Raise (io_exn e)
             end).
Proof.
  unfold _write_message, bind at 1, get_self. simpl.
  destruct (_writer (self w)) as [wr|] eqn:Hwr.
  2:{ intros [= <- <-]. left. split; [done|]. by left. }
  unfold bind at 1, or_raise.
  destruct (str_encode (json_dumps obj)) as [data|] eqn:Henc.
  2:{ intros [= <- <-]. left. split; [done|]. right; left. done. }
  unfold ret at 1. unfold bind at 1, lift.
  destruct (struct_pack_I (Z.of_nat (length data))) as [prefix|e|] eqn:Hpack.
  - intros Heq. right. exists wr, data, prefix. split; [done|]. split; [done|].
    split; [by eapply pack_length|]. split; [by apply unpack_pack|].
    unfold bind, modify_self, modify, raise, ret in Heq.
    destruct drain; by injection Heq as <- <-.
  - intros [= <- <-]. left. split; [done|]. right; right.
    unfold struct_pack_I in Hpack. case_bool_decide; [done|]. injection Hpack as <-.
    split; [done|]. exists data. split; [done|]. lia.
  - unfold struct_pack_I in Hpack. by case_bool_decide.
Qed.
End more_writing.

Section more_methods.
Context `{PyLib}.

(** X1. [connect] is idempotent.  After a [connect()] that returned,
    the reader exists and is not at its end, and a second [connect()]
    returns at once and leaves the whole state as it is, whatever the
    network would have answered.  A [connect()] that raises, raises the
    error of opening the connection and leaves the state as it was. *)
Theorem connect_is_idempotent (net net' : oracle) (w : World) :
  match connect net w with
  | (Ok _, w1) =>
      connect net' w1 = (Ok tt, w1)
      ∧ ∃ rd, _reader (self w1) = Some rd ∧ at_eof rd = false
  | (Raise e, w1) => w1 = w ∧ ∃ x, net = Some x ∧ e = io_exn x
  | (Wait, _) => False
  end.
Proof.
  unfold connect, bind, get_self, raise, ret, modify_self, modify, create_task. simpl.
  destruct (_reader (self w)) as [rd|] eqn:Hrd; simpl.
  - destruct (at_eof rd) eqn:Heof; simpl.
    + destruct net as [x|]; simpl; [by eauto|]. split; [done|]. by eexists.
    + rewrite Hrd. simpl. rewrite Heof. simpl. by eauto.
  - destruct net as [x|]; simpl; [by eauto|]. split; [done|]. by eexists.
Qed.

(** X5. What [_handle_message] prints.  A dict is printed as a
    notification, with no other change of the state, exactly when it
    completes no call: it has no ["reply_to"], or [None] there, or the
    registry has no entry under [str(reply_to)], or the future registered
    there is no longer pending (a late or repeated reply). *)
Theorem unmatched_message_is_printed (d : pydict) (w : World) :
  _handle_message (JDict d) w = (Ok tt, set_stdout (stdout w ++ [JDict d]) w)
  ↔ (∀ v a, Dict.get "reply_to" d = Some v → v ≠ JNull →
       Dict.get (py_str v) (_response_futures (self w)) = Some a →
       futures w !! a ≠ Some FPending).
Proof.
  destruct (_handle_message_cases (JDict d) w)
    as [[_ Hno]|[[Heq (d' & [= <-] & Hun)]|(d' & v & a & [= <-] & Hv & Hne & Hreg & Hp & Heq)]].
  - by destruct (Hno d).
  - done.
  - split.
    + rewrite Heq. intros [= Hfs Hout].
      apply (f_equal length) in Hout. rewrite length_app in Hout. simpl in Hout. lia.
    + intros Hun. by destruct (Hun v a).
Qed.

(** X13. The dict that [send_request] sends.  It is a new dict, built
    from the entries of the payload: ["msg_id"] is the id of the call,
    also when the caller brought a ["msg_id"] of its own; ["type"] is the
    caller's if there is one and ["request"] otherwise; every other key
    has the caller's value.  The body of the frame written is the
    encoding of this dict. *)
Theorem request_payload_fields (p : loc) (net drain : oracle) (w : World)
    (m : Z) (a : addr) (w' : World) (d : pydict) :
  objects w !! p = Some d →
  send_request_begin p net drain w = (Ok (m, a), w') →
  ∃ d' data prefix wr,
    objects w' = objects w ++ [d']
    ∧ Dict.get "msg_id" d' = Some (JInt m)
    ∧ Dict.get "type" d' = Some (default (JStr "request") (Dict.get "type" d))
    ∧ (∀ k, k ≠ "type" → k ≠ "msg_id" → Dict.get k d' = Dict.get k d)
    ∧ str_encode (json_dumps (JDict d')) = Some data
    ∧ struct_pack_I (Z.of_nat (length data)) = Ok prefix
    ∧ _writer (self w') = Some (mkWriter (sent wr ++ prefix ++ data) (wclosed wr)).
Proof.
  intros Hp Hb.
  destruct (send_request_begin_wire _ _ _ _ _ _ _ Hb)
    as (d' & data & prefix & wr & Hd' & Hid & Henc & Hpack & Hwr).
  destruct (send_request_begin_spec _ _ _ _ _ _ Hb)
    as [(_ & [=] & _)|[(_ & _ & e & _ & [=] & _)
       |(_ & _ & _ & _ & _ & _ & _ & _ & _ & Hobj & _)]].
  rewrite Hobj, list_lookup_middle in Hd' by done. injection Hd' as Hd'.
  rewrite Hp in Hd'. simpl in Hd'.
  exists d', data, prefix, wr. rewrite Hobj. rewrite Hp. simpl. rewrite Hd'.
  split; [done|]. split; [done|]. split.
  { rewrite <- Hd'. rewrite get_set_ne by done. unfold Dict.setdefault.
    destruct (Dict.get "type" d) as [t|] eqn:Ht; simpl; [done|]. apply get_set_eq. }
  split; [|done].
  intros k Hk1 Hk2. rewrite <- Hd'. rewrite get_set_ne by done. unfold Dict.setdefault.
  destruct (Dict.get "type" d); [done|]. by rewrite get_set_ne.
Qed.

(** X6. The [finally] clause of [_reader_loop] always runs, and nothing
    escapes the loop.  Whatever the body of the loop does when it is
    resumed: if it handled a message, the loop goes on; if it has to
    wait, the loop waits; in every other case (end of stream, [None], any
    exception, a cancellation) the loop ends without raising, every
    registered future that was pending holds
    [ConnectionError("Connection lost")], and no other future has
    changed. *)
Theorem reader_loop_always_fails_pending (resumed : M bool) (w : World) :
  match resumed w with
  | (Ok true, w1) => _reader_loop_turn resumed w = (Ok true, w1)
  | (Wait, w1) => _reader_loop_turn resumed w = (Wait, w1)
  | (_, w1) =>
      ∃ fs, _reader_loop_turn resumed w = (Ok false, set_futures fs w1)
        ∧ length fs = length (futures w1)
        ∧ (∀ a, a ∈ Dict.values (_response_futures (self w1)) →
             futures w1 !! a = Some FPending →
             fs !! a = Some (FException (ConnectionError "Connection lost")))
        ∧ (∀ a f, futures w1 !! a = Some f → f ≠ FPending → fs !! a = Some f)
        ∧ (∀ a, a ∉ Dict.values (_response_futures (self w1)) → fs !! a = futures w1 !! a)
  end.
Proof.
  assert (∀ w1, ∃ fs,
            (fail_pending (ConnectionError "Connection lost") ;; ret false) w1
            = (Ok false, set_futures fs w1)
            ∧ length fs = length (futures w1)
            ∧ (∀ a, a ∈ Dict.values (_response_futures (self w1)) →
                 futures w1 !! a = Some FPending →
                 fs !! a = Some (FException (ConnectionError "Connection lost")))
            ∧ (∀ a f, futures w1 !! a = Some f → f ≠ FPending → fs !! a = Some f)
            ∧ (∀ a, a ∉ Dict.values (_response_futures (self w1)) → fs !! a = futures w1 !! a))
    as Hfail.
  { intros w1.
    destruct (fail_pending_spec connection_lost w1) as (fs & Hf & _ & Hlen & Hout & Hin & Hkeep);
      [by left|].
    exists fs. unfold bind. unfold connection_lost in Hf. rewrite Hf. done. }
  destruct (resumed w) as [[[]|e|] w1] eqn:Hres;
    unfold _reader_loop_turn, bind at 1, try_except; rewrite Hres; simpl; try done.
  all: first [apply Hfail | destruct e; simpl; apply Hfail].
Qed.

(** X16. A closed client sends no heartbeat.  When the client is
    closed and the loop runs the heartbeat task (it had not started, or
    it wakes from its sleep), the task ends; nothing is written, no id
    is taken, and no future or call is created. *)
Theorem closed_client_sends_no_heartbeat (w : World) (t : tid) (tk : Task)
    (net drain : oracle) :
  _closed (self w) = true →
  tasks w !! t = Some tk → coro tk = HeartbeatLoop →
  pos tk = Created ∨ pos tk = AtSleep →
  let w1 := step w (EvTask t net drain) in
  tasks w1 = <[t := mkTask HeartbeatLoop Finished false]> (tasks w)
  ∧ self w1 = self w ∧ futures w1 = futures w ∧ frames w1 = frames w.
Proof.
  intros Hcl Ht Hc Hp w1.
  assert (∃ os, w1 = set_tasks (<[t := mkTask HeartbeatLoop Finished false]> (tasks w))
                       (set_objects os w)) as [os ->]; [|done].
  subst w1. unfold step, handle, run_task, bind at 1, get_world. rewrite Ht, Hc.
  destruct tk as [c p mc]. simpl in *. subst c.
  assert (∀ w0, tasks w0 = tasks w →
            finish t w0
            = (Ok tt, set_tasks (<[t := mkTask HeartbeatLoop Finished false]> (tasks w)) w0))
    as Hfin.
  { intros w0 Hw0. unfold finish, modify. by rewrite Hw0, Ht. }
  assert (∀ w0, tasks w0 = tasks w → _closed (self w0) = true →
            _heartbeat_loop_head t w0
            = (Ok tt, set_tasks (<[t := mkTask HeartbeatLoop Finished false]> (tasks w)) w0))
    as Hhead.
  { intros w0 Hw0 Hcl0. unfold _heartbeat_loop_head, bind, get_self. simpl.
    rewrite Hcl0. by apply Hfin. }
  assert (set_objects (objects w) w = w) as Hid by (by destruct w).
  destruct Hp as [->| ->], mc.
  - rewrite Hfin by done. exists (objects w). by rewrite Hid.
  - rewrite Hhead by done. exists (objects w). by rewrite Hid.
  - rewrite Hfin by done. exists (objects w). by rewrite Hid.
  - unfold heartbeat_send, bind at 1, new_dict. unfold bind at 1, attempt.
    unfold send_request_begin at 1. unfold bind at 1, get_self. simpl. rewrite Hcl.
    unfold raise. unfold _heartbeat_loop_after. simpl.
    rewrite Hhead by done. by eexists.
Qed.
End more_methods.

(** ** How the registry and the waiting calls change *)

Section calls_moving.
Context `{PyLib}.

Ltac quiet_change := intros ? ?; unfold calls_are in *; simpl; repeat case_match; done.
Ltac quiet := preserves_tac fail quiet_change.

Lemma quiet_connect reg frs net : preserves (calls_are reg frs) (connect net).
Proof. unfold connect. quiet. Qed.

Lemma quiet_feed reg frs f : preserves (calls_are reg frs) (feed f).
Proof. unfold feed. quiet. Qed.

Lemma quiet_fail_pending reg frs e : preserves (calls_are reg frs) (fail_pending e).
Proof. unfold fail_pending. quiet. Qed.

Lemma quiet_close_begin reg frs : preserves (calls_are reg frs) close_begin.
Proof. unfold close_begin. quiet. Qed.

Lemma quiet_heartbeat_loop_after reg frs t r :
  preserves (calls_are reg frs) (_heartbeat_loop_after t r).
Proof. unfold _heartbeat_loop_after, _heartbeat_loop_head. quiet. Qed.

Lemma quiet_reader_turn reg frs t (resumed : M bool) :
  preserves (calls_are reg frs) resumed →
  preserves (calls_are reg frs) (reader_turn t resumed).
Proof.
  intros Hres. unfold reader_turn, _reader_loop_turn, fail_pending.
  preserves_tac ltac:(exact Hres) quiet_change.
Qed.

Lemma quiet_reader_loop_body reg frs : preserves (calls_are reg frs) _reader_loop_body.
Proof.
  unfold _reader_loop_body, _handle_message, py_get, _read_message, _read_exact. quiet.
Qed.

Lemma calls_move_same w w' :
  calls_are (_response_futures (self w)) (frames w) w' → calls_move w w'.
Proof. intros [Hr Hf]. by left. Qed.

Lemma calls_are_here w : calls_are (_response_futures (self w)) (frames w) w.
Proof. done. Qed.

(** A request that starts. *)
Lemma begin_calls_move p net drain w r w' :
  send_request_begin p net drain w = (r, w') →
  calls_move w w'
  ∧ ∀ m a who, r = Ok (m, a) →
      calls_move w (set_frames (<[a := mkFrame m who]> (frames w')) w').
Proof.
  intros Hb.
  destruct (send_request_begin_spec _ _ _ _ _ _ Hb)
    as [(_ & -> & ->)|[(_ & _ & e & _ & -> & ->)
       |(Hcl & _ & Hreg & _ & _ & Hfr & _ & _ & _ & _ & Hr)]];
    try (split; [by left|by intros]).
  split.
  - right; left. split; [done|]. by left.
  - intros m a who ->. destruct Hr as [[= -> ->]|(e & [=] & _)].
    right; left. split; [done|]. right. exists who. simpl. by rewrite Hfr.
Qed.

(** A call that goes on after its [connect()]. *)
Lemma resume_connect_calls_move i net drain w :
  calls_move w (resume_connect i net drain w).2.
Proof.
  unfold resume_connect. unfold bind at 1. unfold get_world.
  destruct (connecting w !! i) as [who|]; [|by left].
  unfold bind at 1, modify.
  set (w0 := set_connecting _ w).
  assert (∀ w2, calls_move w0 w2 → calls_move w w2) as Hw0 by done.
  apply Hw0. unfold bind at 1.
  assert (preserves (calls_are (_response_futures (self w0)) (frames w0)) (connect_finish net))
    as Hq by (unfold connect_finish; quiet).
  specialize (Hq w0 (calls_are_here w0)).
  destruct (connect_finish net w0) as [[[]|e|] w1] eqn:Hfin; simpl in Hq;
    try (by apply calls_move_same).
  destruct Hq as [Hr1 Hf1].
  assert (_msg_id_counter (self w1) = _msg_id_counter (self w0)
          ∧ futures w1 = futures w0) as [Hc1 Hfs1].
  { revert Hfin. unfold connect_finish. crush; by intros [= <-]. }
  destruct who as [p|]; [|by left].
  unfold bind.
  destruct (send_request_body p drain w1) as [r w2] eqn:Hbody.
  destruct (send_request_body_spec _ _ _ _ _ Hbody)
    as (_ & Hreg & _ & _ & Hfr & _ & _ & _ & _ & _ & Hr).
  rewrite Hr1, Hc1, Hfs1 in Hreg. rewrite Hf1 in Hfr.
  destruct r as [[m a]|e|]; simpl.
  - destruct Hr as [[= -> ->]|(e & [=] & _)].
    right; left. split; [done|]. right. exists External. simpl.
    by rewrite Hfr, Hc1, Hfs1.
  - right; left. split; [done|]. by left.
  - right; left. split; [done|]. by left.
Qed.

(** A call that ends. *)
Lemma resume_call_calls_move a how w r w' :
  resume_call a how w = (r, w') → r = Wait ∨ calls_move w w'.
Proof.
  unfold resume_call. unfold bind at 1. unfold get_world.
  destruct (frames w !! a) as [fr|] eqn:Hfr.
  2:{ intros [= <- <-]. right. by left. }
  destruct (send_request_end (fr_msg_id fr) a how w) as [r0 w0] eqn:Hend.
  assert (r0 = Wait ∨ r0 ≠ Wait) as [->|Hr0] by (destruct r0; naive_solver).
  { unfold bind at 1, attempt. rewrite Hend. intros [= <- <-]. by left. }
  destruct (resume_call_spec _ _ _ _ _ _ Hfr Hend Hr0) as (ts & Hres).
  unfold resume_call in Hres. unfold bind at 1 in Hres. unfold get_world in Hres.
  rewrite Hfr in Hres. rewrite Hres. intros [= <- <-]. right.
  destruct (send_request_end_spec _ _ _ _ _ _ Hend) as [(-> & _)|(fs & -> & _)]; [done|].
  right; right. exists a, fr. done.
Qed.

Lemma heartbeat_send_calls_move t net drain w :
  calls_move w (heartbeat_send t net drain w).2.
Proof.
  unfold heartbeat_send. unfold bind at 1, new_dict.
  set (w0 := set_objects _ w).
  unfold bind at 1, attempt.
  destruct (send_request_begin _ net drain w0) as [r w1] eqn:Hb.
  destruct (begin_calls_move _ _ _ _ _ _ Hb) as [Hmove Hpark].
  assert (∀ w2, calls_move w0 w2 → calls_move w w2) as Hw0 by done.
  destruct r as [[m a]|e|]; [| |by apply Hw0].
  - unfold bind at 1, modify. apply Hw0.
    specialize (Hpark m a (Heartbeat t) eq_refl).
    set (w2 := set_frames _ w1) in *.
    assert (calls_are (_response_futures (self w2)) (frames w2) (set_pos t (AtRequest a) w2).2)
      as [Hr Hf].
    { assert (preserves (calls_are (_response_futures (self w2)) (frames w2))
                (set_pos t (AtRequest a))) as Hq by (unfold set_pos; quiet).
      by apply Hq. }
    unfold calls_move in *. rewrite Hr, Hf. exact Hpark.
  - apply Hw0.
    destruct (quiet_heartbeat_loop_after (_response_futures (self w1)) (frames w1) t (Raise e) w1)
      as [Hr Hf]; [done|].
    unfold calls_move in *. rewrite Hr, Hf. exact Hmove.
Qed.

Lemma run_task_calls_move t net drain w r w' :
  run_task t net drain w = (r, w') → r = Wait ∨ calls_move w w'.
Proof.
  unfold run_task. unfold bind at 1. unfold get_world.
  assert (∀ m : M unit, preserves (calls_are (_response_futures (self w)) (frames w)) m →
            m w = (r, w') → r = Wait ∨ calls_move w w') as Hq.
  { intros m Hm Heq. right. apply calls_move_same.
    specialize (Hm w (calls_are_here w)). by rewrite Heq in Hm. }
  destruct (tasks w !! t) as [tk|]; [|apply Hq; quiet].
  destruct (coro tk), (pos tk), (must_cancel tk);
    try (solve [apply Hq; first [ apply quiet_reader_turn;
                                    first [apply quiet_reader_loop_body | quiet]
                                | unfold finish, _heartbeat_loop_head, set_pos; quiet ]]).
  - intros Heq. right. pose proof (heartbeat_send_calls_move t net drain w) as Hm.
    by rewrite Heq in Hm.
  - apply resume_call_calls_move.
Qed.

Lemma step_calls_move w e : calls_move w (step w e).
Proof.
  unfold step. destruct (handle e w) as [r w'] eqn:Hh.
  assert (r = Wait ∨ calls_move w w') as [->|Hm]; [|by left|by destruct r; [| |left]].
  assert (∀ m : M unit, preserves (calls_are (_response_futures (self w)) (frames w)) m →
            m w = (r, w') → r = Wait ∨ calls_move w w') as Hq.
  { intros m Hm Heq. right. apply calls_move_same.
    specialize (Hm w (calls_are_here w)). by rewrite Heq in Hm. }
  destruct e as [d|net|p net drain|a|a|a|data| |e|t net drain| | | |p|i net drain];
    simpl in Hh.
  - revert Hh. apply Hq. quiet.
  - revert Hh. apply Hq, quiet_connect.
  - revert Hh. unfold bind at 1, get_world. case_bool_decide; [|apply Hq; quiet].
    unfold call_send_request, bind.
    destruct (send_request_begin p net drain w) as [r0 w0] eqn:Hb.
    destruct (begin_calls_move _ _ _ _ _ _ Hb) as [Hmove Hpark].
    destruct r0 as [[m a]|e|]; intros [= <- <-]; [|by right..].
    right. by apply Hpark.
  - revert Hh. unfold bind at 1, get_world. apply resume_call_calls_move.
  - revert Hh. unfold bind at 1, get_world. apply resume_call_calls_move.
  - revert Hh. unfold bind at 1, get_world.
    destruct (frames w !! a) as [[m [|t]]|]; try (solve [apply Hq; quiet]).
    apply resume_call_calls_move.
  - revert Hh. apply Hq, quiet_feed.
  - revert Hh. apply Hq, quiet_feed.
  - revert Hh. apply Hq, quiet_feed.
  - revert Hh. apply run_task_calls_move.
  - revert Hh. apply Hq. unfold close_end.
    preserves_tac ltac:(first [apply quiet_close_begin | apply quiet_fail_pending]) quiet_change.
  - revert Hh. apply Hq. unfold close_end.
    preserves_tac ltac:(apply quiet_fail_pending) quiet_change.
  - revert Hh. apply Hq. unfold park_connect. quiet.
  - revert Hh. apply Hq. unfold park_send_request, park_connect. quiet.
  - right. pose proof (resume_connect_calls_move i net drain w) as Hm.
    by rewrite Hh in Hm.
Qed.
End calls_moving.

(** ** Closing twice *)

Section closing_twice.
Context `{PyLib}.

Lemma close_begin_closed_state w :
  close_begin w = (Ok (bool_decide (is_Some (_writer (self w)))), closed_state w).
Proof.
  destruct w as [[rd wr rt ht reg cnt cl] fs os ts frs cg out cn].
  unfold close_begin, closed_state, cancel_in. unfold_prims. unfold_M. simpl.
  destruct ht as [t|], rt as [t'|], wr as [wr|]; simpl;
    repeat (case_match; simplify_eq/=); try done.
Qed.

Lemma cancel_in_marked t ts : marked t (cancel_in t ts).
Proof.
  intros t' tk -> Hl. unfold cancel_in in Hl.
  destruct (ts !! t') as [tk0|] eqn:Ht; [|congruence].
  destruct (pos tk0) eqn:Hp;
    try (rewrite list_lookup_insert_eq in Hl by (by eapply lookup_lt_Some);
         injection Hl as <-; by right).
  left. congruence.
Qed.

Lemma cancel_in_keeps_marked t t0 ts : marked t ts → marked t (cancel_in t0 ts).
Proof.
  intros Hm t' tk -> Hl. unfold cancel_in in Hl.
  destruct t0 as [t0|]; [|by eapply Hm].
  destruct (ts !! t0) as [tk0|] eqn:Ht; [|by eapply Hm].
  destruct (decide (t0 = t')) as [->|Hne].
  - destruct (pos tk0) eqn:Hp;
      try (rewrite list_lookup_insert_eq in Hl by (by eapply lookup_lt_Some);
           injection Hl as <-; by right).
    left. congruence.
  - destruct (pos tk0); try (rewrite list_lookup_insert_ne in Hl by done);
      by eapply Hm.
Qed.

Lemma cancel_in_id t ts : marked t ts → cancel_in t ts = ts.
Proof.
  intros Hm. unfold cancel_in. destruct t as [t|]; [|done].
  destruct (ts !! t) as [tk|] eqn:Ht; [|done].
  destruct (Hm t tk eq_refl Ht) as [Hp|Hc]; [by rewrite Hp|].
  destruct tk as [c p mc]. simpl in *. subst mc.
  destruct p; try done; by apply list_insert_id.
Qed.

Lemma closed_state_twice w fs :
  closed_state (set_futures fs (closed_state w)) = set_futures fs (closed_state w).
Proof.
  unfold closed_state, set_futures. simpl. f_equal.
  - f_equal. by destruct (_writer (self w)).
  - rewrite (cancel_in_id (_heartbeat_task (self w)))
      by apply cancel_in_keeps_marked, cancel_in_marked.
    apply cancel_in_id, cancel_in_marked.
Qed.

(** The loop over the futures changes nothing when none of them is
    pending. *)
Lemma for_each_fail_none e (l : list addr) w :
  (∀ a, a ∈ l → futures w !! a ≠ Some FPending) →
  for_each l (λ fut, d ← fut_done fut;
                     if negb d then fut_set_exception fut e else ret tt) w
  = (Ok tt, w).
Proof.
  induction l as [|a l IH]; intros Hl; [done|].
  rewrite for_each_cons, fail_one_spec.
  destruct (from_option fut_is_done true (futures w !! a)) eqn:Hd.
  - apply IH. intros a' Ha'. apply Hl. by right.
  - apply pending_of_not_done in Hd. destruct (Hl a); [by left|done].
Qed.

(** X2. [close] is idempotent and never raises.  From any state,
    [close()] runs to its end without an exception and leaves the client
    closed; a second [close()] right after it is parked or not as the
    first was, raises nothing, and changes nothing at all: no field of
    the client, no task and no future. *)
Theorem close_twice_changes_nothing (w : World) :
  ∃ w1,
    (close_begin w).1 = Ok (bool_decide (is_Some (_writer (self w))))
    ∧ close_end (close_begin w).2 = (Ok tt, w1)
    ∧ _closed (self w1) = true
    ∧ (close_begin w1).1 = (close_begin w).1
    ∧ (close_begin w1).2 = w1
    ∧ close_end w1 = (Ok tt, w1).
Proof.
  rewrite close_begin_closed_state. simpl.
  unfold close_end.
  destruct (fail_pending_spec (ConnectionError "Client closed") (closed_state w))
    as (fs & Hfail & _ & Hlen & _ & Hin & Hkeep); [by right|].
  exists (set_futures fs (closed_state w)). split; [done|]. split; [done|]. split; [done|].
  rewrite close_begin_closed_state. simpl. split.
  { by destruct (_writer (self w)). }
  split; [apply closed_state_twice|].
  unfold fail_pending, bind at 1, get_self. simpl.
  apply for_each_fail_none. simpl. intros a Ha Hp.
  destruct (futures w !! a) as [f|] eqn:Hf.
  - assert (f = FPending ∨ f ≠ FPending) as [->|Hne] by (destruct f; naive_solver).
    + rewrite (Hin a Ha Hf) in Hp. done.
    + rewrite (Hkeep a f Hf Hne) in Hp. congruence.
  - apply lookup_ge_None in Hf. apply lookup_lt_Some in Hp. simpl in *. lia.
Qed.
End closing_twice.

(** ** Calls that wait are registered *)

Section waiting_calls.
Context `{PyLib}.

Lemma calls_move_linked w w' :
  Inv (core w) → calls_move w w' → linked w → linked w'.
Proof.
  intros HI Hmove Hl a fr Hfr.
  destruct Hmove as [[Hr Hf]|[(Hr & Hf)|(a0 & fr0 & Hfr0 & Hr & Hf)]]; rewrite Hr.
  - rewrite Hf in Hfr. by apply Hl.
  - assert (∀ a1 fr1, frames w !! a1 = Some fr1 →
              Dict.get (pretty (fr_msg_id fr1))
                (Dict.set (pretty (_msg_id_counter (self w) + 1)) (length (futures w))
                   (_response_futures (self w))) = Some a1) as Hold.
    { intros a1 fr1 Hfr1. rewrite get_set_ne; [by apply Hl|].
      intros Heq. apply (inj pretty) in Heq.
      pose proof (inv_frame_ids _ HI _ _ Hfr1). simpl in *. lia. }
    destruct Hf as [Hf|[who Hf]]; rewrite Hf in Hfr; [by apply Hold|].
    apply lookup_insert_Some in Hfr as [[<- <-]|[_ Hfr]]; [|by apply Hold].
    simpl. apply get_set_eq.
  - rewrite Hf in Hfr. apply lookup_delete_Some in Hfr as [Hne Hfr].
    rewrite get_pop_ne; [by apply Hl|].
    intros Heq. apply (inj pretty) in Heq.
    by apply (inv_frame_inj _ HI a0 a fr0 fr) in Heq.
Qed.

Lemma step_linked w e : Inv (core w) → linked w → linked (step w e).
Proof. intros HI. apply calls_move_linked; [done|apply step_calls_move]. Qed.

Lemma run_linked w es : Inv (core w) → linked w → linked (run w es).
Proof.
  revert w. induction es as [|e es IH]; intros w HI Hl; [done|].
  simpl. apply IH; [by apply step_Inv|by apply step_linked].
Qed.

Lemma init_linked objs : linked (init objs).
Proof. intros a fr Hfr. done. Qed.

(** The end of [close] leaves no registered future pending. *)
Lemma close_end_all_done w : Inv (core w) → linked w → all_done (close_end w).2.
Proof.
  intros HI Hl. unfold close_end.
  destruct (fail_pending_spec (ConnectionError "Client closed") w)
    as (fs & -> & _ & Hlen & _ & Hin & Hkeep); [by right|].
  simpl. intros a fr Hfr.
  destruct (lookup_lt_is_Some_2 (futures w) a) as [f Hf];
    [by apply (inv_frame_alloc _ HI a fr)|].
  assert (f = FPending ∨ f ≠ FPending) as [->|Hne] by (destruct f; naive_solver).
  - exists (FException (ConnectionError "Client closed")). split; [|done].
    apply Hin; [|done]. eapply get_values. by apply Hl.
  - exists f. split; [by apply Hkeep|]. by destruct f.
Qed.

Lemma close_end_Ok w : ∃ w', close_end w = (Ok tt, w').
Proof.
  unfold close_end.
  destruct (fail_pending_spec (ConnectionError "Client closed") w) as (fs & -> & _);
    [by right|by eexists].
Qed.

(** Only [close] moves the count of the calls parked in [wait_closed]. *)
Lemma step_closing w e : e ≠ EvClose → e ≠ EvCloseResume → closing (step w e) = closing w.
Proof.
  intros He1 He2. apply (preserves_step (λ w', closing w' = closing w)); [|done].
  assert (∀ p net drain, preserves (λ w', closing w' = closing w)
                           (send_request_begin p net drain)) as Hbegin.
  { intros p net drain w0 Hw0. destruct (send_request_begin p net drain w0) as [r w1] eqn:Hb.
    destruct (send_request_begin_spec _ _ _ _ _ _ Hb)
      as [(_ & _ & ->)|[(_ & _ & x & _ & _ & ->)
         |(_ & _ & _ & _ & _ & _ & Hcg & _)]]; simpl; congruence. }
  assert (∀ p drain, preserves (λ w', closing w' = closing w)
                       (send_request_body p drain)) as Hbody.
  { intros p drain w0 Hw0. destruct (send_request_body p drain w0) as [r w1] eqn:Hb.
    destruct (send_request_body_spec _ _ _ _ _ Hb) as (_ & _ & _ & _ & _ & Hcg & _).
    simpl. congruence. }
  destruct e; try done; simpl;
    unfold connect, call_send_request, resume_call, run_task, feed,
      reader_turn, _reader_loop_turn, _reader_loop_body, heartbeat_send,
      _heartbeat_loop_after, _heartbeat_loop_head, _handle_message, py_get,
      _read_message, _read_exact, fail_pending, send_request_end, wait_for,
      park_send_request, park_connect, resume_connect, connect_finish;
    preserves_tac ltac:(first [apply Hbegin | apply Hbody])
      ltac:(intros ? ?; simpl; repeat case_match; done).
Qed.

(** The two events of [close], spelled out. *)
Lemma step_EvClose w :
  step w EvClose
  = if bool_decide (is_Some (_writer (self w)))
    then set_closing (S (closing (closed_state w))) (closed_state w)
    else (close_end (closed_state w)).2.
Proof.
  unfold step, handle, bind. rewrite close_begin_closed_state.
  case_bool_decide; [done|].
  destruct (close_end_Ok (closed_state w)) as [w2 Heq]. by rewrite Heq.
Qed.

Lemma step_EvCloseResume w n :
  closing w = S n → step w EvCloseResume = (close_end (set_closing n w)).2.
Proof.
  intros Hn. unfold step, handle, bind, get_world, modify. rewrite Hn.
  destruct (close_end_Ok (set_closing n w)) as [w2 Heq]. by rewrite Heq.
Qed.

Lemma closed_state_facts w :
  Inv (core w) → linked w →
  Inv (core (closed_state w)) ∧ linked (closed_state w)
  ∧ _closed (self (closed_state w)) = true.
Proof.
  intros HI Hl. pose proof (close_begin_chain w) as [Hchain Hcl].
  rewrite close_begin_closed_state in Hchain, Hcl. simpl in Hchain, Hcl.
  split; [by eapply effects_core_Inv|]. split; [|done].
  intros a fr Hfr. by apply Hl.
Qed.

(** A [close()] is parked only on a closed client. *)
Lemma step_closing_closed w e :
  Inv (core w) → closing_closed w → closing_closed (step w e).
Proof.
  intros HI Hc Hpos.
  pose proof (effects_grows _ _ (step_chain w e HI)) as Hg.
  assert (e = EvClose ∨ e = EvCloseResume ∨ (e ≠ EvClose ∧ e ≠ EvCloseResume))
    as [->|[->|[He1 He2]]] by (destruct e; auto).
  - pose proof (close_begin_chain w) as [Hchain Hcl].
    rewrite close_begin_closed_state in Hchain, Hcl. simpl in Hchain, Hcl.
    rewrite step_EvClose. case_bool_decide; [done|].
    destruct (close_end_Ok (closed_state w)) as [w2 Heq].
    pose proof (effects_grows _ _ (close_end_chain (closed_state w))) as Hg2.
    by apply (grows_closed _ _ Hg2).
  - apply (grows_closed _ _ Hg). apply Hc.
    destruct (closing w) as [|n] eqn:Hn; [|lia].
    revert Hpos. unfold step, handle, bind, get_world. rewrite Hn. simpl. by rewrite Hn.
  - apply (grows_closed _ _ Hg). apply Hc. by rewrite step_closing in Hpos.
Qed.

Lemma run_closing_closed w es :
  Inv (core w) → closing_closed w → closing_closed (run w es).
Proof.
  revert w. induction es as [|e es IH]; intros w HI Hc; [done|].
  simpl. apply IH; [by apply step_Inv|by apply step_closing_closed].
Qed.

(** X3. [close] leaves no caller hanging.  Take the moment at which a
    [close()] has run its loop over the futures: on a client without a
    writer that is the call itself, otherwise the stretch that follows
    [wait_closed].  In a state that the client can reach, every
    [send_request] that waits at that moment has a future that is done;
    the future keeps its state through all later events, so the call ends
    as soon as it is resumed; and the client stays closed.  (A call that
    [close()] overtook inside [connect()] is not among them: it registers
    afterwards and waits for its reply or its timeout.) *)
Theorem close_leaves_no_call_pending (objs : list pydict) (es es' : list event)
    (e : event) :
  let w := run (init objs) es in
  (e = EvClose ∧ _writer (self w) = None)
  ∨ (e = EvCloseResume ∧ (0 < closing w)%nat) →
  let w1 := step w e in
  let w2 := run w1 es' in
  _closed (self w2) = true
  ∧ ∀ a fr, frames w1 !! a = Some fr →
      ∃ f, futures w1 !! a = Some f ∧ fut_is_done f = true
           ∧ futures w2 !! a = Some f
           ∧ (send_request_end (fr_msg_id fr) a FutureDone w2).1 ≠ Wait.
Proof.
  intros w He w1 w2.
  pose proof (run_Inv (init objs) es (init_Inv objs)) as HI.
  pose proof (run_linked (init objs) es (init_Inv objs) (init_linked objs)) as Hl.
  assert (closing_closed w) as Hcc.
  { apply run_closing_closed; [apply init_Inv|]. intros Hpos. simpl in Hpos. lia. }
  fold w in HI, Hl.
  assert (Inv (core w1)) as HI1 by (by apply step_Inv).
  pose proof (run_grows w1 es' HI1) as Hg. fold w2 in Hg.
  assert (_closed (self w1) = true ∧ all_done w1) as [Hcl Hd].
  { destruct (closed_state_facts w HI Hl) as (HIc & Hlc & Hclc).
    destruct He as [[-> Hwr]|[-> Hpos]]; unfold w1.
    - rewrite step_EvClose, Hwr. rewrite bool_decide_false by (by intros [? ?]).
      split; [|by apply close_end_all_done].
      pose proof (effects_grows _ _ (close_end_chain (closed_state w))) as Hg2.
      by apply (grows_closed _ _ Hg2).
    - destruct (closing w) as [|n] eqn:Hn; [lia|].
      rewrite (step_EvCloseResume w n Hn).
      split; [|by apply (close_end_all_done (set_closing n w))].
      pose proof (effects_grows _ _ (close_end_chain (set_closing n w))) as Hg2.
      apply (grows_closed _ _ Hg2). simpl. apply Hcc. lia. }
  split; [by apply (grows_closed _ _ Hg)|].
  intros a fr Hfr. destruct (Hd a fr Hfr) as (f & Hf & Hdone).
  pose proof (grows_done _ _ Hg a f Hf Hdone) as Hf2. simpl in Hf2.
  exists f. split; [done|]. split; [done|]. split; [done|].
  unfold send_request_end, wait_for, try_finally, bind. rewrite Hf2.
  by destruct f.
Qed.

(** X4. A matching reply completes the call.  In a state that the
    client can reach, let a call wait on the pending future [a] with the
    id [m], and let a message be a dict whose ["reply_to"] is not [None]
    and prints as [m] does.  Then [_handle_message] sets the message as
    the result of [a], touches no other future and prints nothing; the
    call, once resumed, returns this very message and is gone. *)
Theorem matching_reply_completes_the_call (objs : list pydict) (es : list event)
    (a : addr) (fr : Frame) (d : pydict) (v : json) :
  let w := run (init objs) es in
  frames w !! a = Some fr → futures w !! a = Some FPending →
  Dict.get "reply_to" d = Some v → v ≠ JNull → py_str v = pretty (fr_msg_id fr) →
  let w1 := set_futures (<[a := FResult (JDict d)]> (futures w)) w in
  _handle_message (JDict d) w = (Ok tt, w1)
  ∧ (send_request_end (fr_msg_id fr) a FutureDone w1).1 = Ok (JDict d)
  ∧ frames (step w1 (EvWake a)) !! a = None.
Proof.
  intros w Hfr Hp Hv Hne Hstr w1.
  pose proof (run_Inv (init objs) es (init_Inv objs)) as HI.
  pose proof (run_linked (init objs) es (init_Inv objs) (init_linked objs)) as Hl.
  fold w in HI, Hl.
  assert (futures w1 !! a = Some (FResult (JDict d))) as Hres.
  { apply list_lookup_insert_eq. by eapply lookup_lt_Some. }
  assert (send_request_end (fr_msg_id fr) a FutureDone w1
          = (Ok (JDict d),
             set_self (set_response_futures
                         (Dict.pop (pretty (fr_msg_id fr)) (_response_futures (self w1)))
                         (self w1)) w1)) as Hend.
  { unfold send_request_end, wait_for, try_finally, bind. rewrite Hres. done. }
  split; [|split].
  - destruct (_handle_message_cases (JDict d) w)
      as [[_ Hno]|[[_ (d' & [= <-] & Hun)]
         |(d' & v' & a' & [= <-] & Hv' & _ & Hreg & _ & Heq)]].
    + by destruct (Hno d).
    + exfalso. apply (Hun v a Hv Hne); [|done]. rewrite Hstr. by apply Hl.
    + rewrite Hv in Hv'. injection Hv' as <-.
      rewrite Hstr, (Hl a fr Hfr) in Hreg. by injection Hreg as <-.
  - by rewrite Hend.
  - destruct (resume_call_spec a fr FutureDone w1 _ _ Hfr Hend) as (ts & Hrc); [done|].
    unfold step, handle, bind, get_world, wake_as.
    assert (frames w1 !! a = Some fr) as Hfr1 by done.
    rewrite Hfr1. destruct fr as [m [|t]]; simpl in *.
    + rewrite Hrc. simpl. apply lookup_delete_eq.
    + destruct (from_option must_cancel false (tasks w !! t)) eqn:Hmc.
      * destruct (send_request_end m a CallerCancelled w1) as [r2 w2] eqn:Hend2.
        destruct (resume_call_spec a (mkFrame m (Heartbeat t)) CallerCancelled w1 _ _
                    Hfr1 Hend2) as (ts2 & Hrc2).
        { apply send_request_end_spec in Hend2 as [(_ & _ & [=] & _)|(fs & _ & -> & _)].
          done. }
        rewrite Hrc2. simpl. apply lookup_delete_eq.
      * rewrite Hrc. simpl. apply lookup_delete_eq.
Qed.
End waiting_calls.

Section more_requests.
Context `{PyLib}.

(** X14. A timeout is local to its call.  In a state that the client
    can reach, when the timer of the call waiting on [a] fires (or the
    cancellation of its task is delivered instead), that call leaves and
    its entry is popped; every other future, every other waiting call
    and its entry in the registry, the reader, the writer, the closed
    flag, the counter and the output are as before. *)
Theorem timeout_is_local (objs : list pydict) (es : list event) (a : addr) (fr : Frame) :
  let w := run (init objs) es in
  frames w !! a = Some fr →
  let w1 := step w (EvTimeout a) in
  frames w1 = delete a (frames w)
  ∧ _response_futures (self w1)
    = Dict.pop (pretty (fr_msg_id fr)) (_response_futures (self w))
  ∧ (∀ a', a' ≠ a → futures w1 !! a' = futures w !! a')
  ∧ (∀ a' fr', frames w !! a' = Some fr' → a' ≠ a →
       frames w1 !! a' = Some fr'
       ∧ Dict.get (pretty (fr_msg_id fr')) (_response_futures (self w1))
         = Dict.get (pretty (fr_msg_id fr')) (_response_futures (self w)))
  ∧ _reader (self w1) = _reader (self w)
  ∧ _writer (self w1) = _writer (self w)
  ∧ _closed (self w1) = _closed (self w)
  ∧ _msg_id_counter (self w1) = _msg_id_counter (self w)
  ∧ stdout w1 = stdout w.
Proof.
  intros w Hfr w1.
  pose proof (run_Inv (init objs) es (init_Inv objs)) as HI. fold w in HI.
  set (how := wake_as w a TimerFired).
  assert (how = TimerFired ∨ how = CallerCancelled) as Hhow.
  { unfold how, wake_as. rewrite Hfr. destruct fr as [m [|t]]; [by left|].
    destruct (from_option _ _ _); auto. }
  destruct (send_request_end (fr_msg_id fr) a how w) as [r w'] eqn:Hend.
  assert (r ≠ Wait ∧ ∃ fs, w' = set_self (set_response_futures
                                (Dict.pop (pretty (fr_msg_id fr)) (_response_futures (self w)))
                                (self w)) (set_futures fs w)
                      ∧ (fs = futures w ∨ fs = <[a := FCancelled]> (futures w)))
    as (Hr & fs & Hw' & Hfs).
  { destruct (send_request_end_spec _ _ _ _ _ _ Hend) as [(_ & _ & -> & _)|(fs & Hw' & Hh)];
      [by destruct Hhow|].
    destruct Hhow as [Hh'|Hh']; rewrite Hh' in Hh; destruct Hh as [-> Hfs];
      (split; [done|]); exists fs; (split; [done|]); naive_solver. }
  destruct (resume_call_spec _ _ _ _ _ _ Hfr Hend Hr) as (ts & Hres).
  assert (w1 = set_tasks ts (set_frames (delete a (frames w')) w')) as ->.
  { unfold w1, step, handle, bind, get_world. fold how. by rewrite Hres. }
  rewrite Hw'. simpl. split; [done|]. split; [done|]. split.
  { intros a' Hne. destruct Hfs as [->| ->]; [done|]. by apply list_lookup_insert_ne. }
  split; [|done].
  intros a' fr' Hfr' Hne. split; [by rewrite lookup_delete_ne|].
  apply get_pop_ne. intros Heq. apply (inj pretty) in Heq.
  by apply (inv_frame_inj _ HI a a' fr fr') in Heq.
Qed.

(** An entry of the registry under an id that no waiting call holds is
    never taken out. *)
Lemma step_stuck_entry m a w e :
  Inv (core w) →
  Dict.get (pretty m) (_response_futures (self w)) = Some a →
  m ≤ _msg_id_counter (self w) →
  (∀ a' fr, frames w !! a' = Some fr → fr_msg_id fr ≠ m) →
  Dict.get (pretty m) (_response_futures (self (step w e))) = Some a
  ∧ m ≤ _msg_id_counter (self (step w e))
  ∧ (∀ a' fr, frames (step w e) !! a' = Some fr → fr_msg_id fr ≠ m).
Proof.
  intros HI Hget Hm Hfree.
  pose proof (effects_grows _ _ (step_chain w e HI)) as Hg.
  pose proof (grows_counter _ _ Hg) as Hc. simpl in Hc.
  split; [|split; [lia|]];
    destruct (step_calls_move w e) as [[Hr Hf]|[(Hr & Hf)|(a0 & fr0 & Hfr0 & Hr & Hf)]];
    rewrite ?Hr, ?Hf; try done.
  - rewrite get_set_ne; [done|]. intros Heq. apply (inj pretty) in Heq. lia.
  - rewrite get_pop_ne; [done|]. intros Heq. apply (inj pretty) in Heq.
    by apply (Hfree a0 fr0).
  - intros a' fr Hfr. destruct Hf as [Hf|[who Hf]]; rewrite Hf in Hfr; [by eapply Hfree|].
    apply lookup_insert_Some in Hfr as [[_ <-]|[_ Hfr]]; [simpl; lia|by eapply Hfree].
  - intros a' fr Hfr. apply lookup_delete_Some in Hfr as [_ Hfr]. by eapply Hfree.
Qed.

Lemma run_stuck_entry m a w es :
  Inv (core w) →
  Dict.get (pretty m) (_response_futures (self w)) = Some a →
  m ≤ _msg_id_counter (self w) →
  (∀ a' fr, frames w !! a' = Some fr → fr_msg_id fr ≠ m) →
  Dict.get (pretty m) (_response_futures (self (run w es))) = Some a.
Proof.
  revert w. induction es as [|e es IH]; intros w HI Hget Hm Hfree; [done|].
  simpl. destruct (step_stuck_entry m a w e HI Hget Hm Hfree) as (Hget' & Hm' & Hfree').
  apply IH; [by apply step_Inv|done..].
Qed.

(** X15. A request whose write fails leaves its entry behind.  On an
    open client that has a writer, in a state that the client can reach,
    a [send_request] that raises has failed in [_write_message] (the
    error of [drain], [UnicodeEncodeError] or [struct.error]): the write
    stands before the [try], so the [finally] that pops the entry does
    not run.  The future of the call is still pending and registered
    under [str(msg_id)], the calls that wait are those that waited
    before, and the entry stays in the registry through all later
    events. *)
Theorem failed_write_leaves_the_entry (objs : list pydict) (es es' : list event)
    (p : loc) (net drain : oracle) (wr : StreamWriter) (e : exn) (w' : World) :
  let w := run (init objs) es in
  _closed (self w) = false → _writer (self w) = Some wr →
  send_request_begin p net drain w = (Raise e, w') →
  let m := _msg_id_counter (self w) + 1 in
  let a := length (futures w) in
  ((∃ x, drain = Some x ∧ e = io_exn x) ∨ e = UnicodeEncodeError ∨ e = StructError)
  ∧ Dict.get (pretty m) (_response_futures (self w')) = Some a
  ∧ futures w' !! a = Some FPending
  ∧ frames w' = frames w
  ∧ Dict.get (pretty m) (_response_futures (self (run w' es'))) = Some a.
Proof.
  intros w Hcl Hwr Hb m a.
  pose proof (run_Inv (init objs) es (init_Inv objs)) as HI. fold w in HI.
  destruct (send_request_begin_chain _ _ _ _ _ _ HI Hb) as [Hchain _].
  pose proof (effects_core_Inv _ _ HI Hchain) as HI'.
  destruct (send_request_begin_spec _ _ _ _ _ _ Hb)
    as [(Hcl' & _)|[(_ & Hnone & _)
       |(_ & Hfs & Hreg & Hcnt & _ & Hfr & _ & _ & _ & _ & Hr)]]; [congruence..|].
  assert (Dict.get (pretty m) (_response_futures (self w')) = Some a) as Hget.
  { rewrite Hreg. apply get_set_eq. }
  split; [|split; [done|split; [|split; [done|]]]].
  - destruct Hr as [[=]|(e0 & [= <-] & _ & [(x & ->)|[->|[->| ->]]])]; auto.
    + left. exists x. split; [|done]. revert Hb.
      unfold send_request_begin, _next_msg_id, _write_message, struct_pack_I.
      crush; intros [= Hx _]; try done;
        repeat match goal with i : io_error |- _ => destruct i end; simplify_eq/=; done.
    + exfalso. revert Hb.
      unfold send_request_begin, _next_msg_id, _write_message, struct_pack_I.
      crush; intros [=];
        repeat match goal with i : io_error |- _ => destruct i end; done.
  - rewrite Hfs. by apply list_lookup_middle.
  - apply run_stuck_entry; [done|done|subst m; lia|].
    intros a' fr Hfr'. rewrite Hfr in Hfr'.
    pose proof (inv_frame_ids _ HI _ _ Hfr'). simpl in *. subst m. lia.
Qed.

(** X7. A frame that holds JSON which is no object ends the reader
    loop.  [_read_message] returns the document as it is; [msg.get] then
    raises [AttributeError] on everything but a dict (and [None] leaves
    the loop at once), [except Exception] swallows it, the task finishes,
    and every registered future that was pending holds
    [ConnectionError("Connection lost")]. *)
Theorem non_object_frame_ends_the_loop (w : World) (rd : StreamReader)
    (prefix body rest : list byte) (s : string) (v : json) (t : tid) (tk : Task) :
  _reader (self w) = Some rd → rexception rd = None →
  struct_pack_I (Z.of_nat (length body)) = Ok prefix → body ≠ [] →
  buffer rd = prefix ++ body ++ rest →
  bytes_decode body = Some s → json_loads s = Some v → (∀ d, v ≠ JDict d) →
  tasks w !! t = Some tk →
  let w1 := set_self (set_reader (Some (mkReader rest (eof rd) None)) (self w)) w in
  _read_message w = (Ok v, w1)
  ∧ (v ≠ JNull → _handle_message v w1 = (Raise AttributeError, w1))
  ∧ ∃ fs,
      reader_turn t _reader_loop_body w
      = (Ok tt, set_tasks (<[t := mkTask (coro tk) Finished false]> (tasks w))
                  (set_futures fs w1))
      ∧ (∀ k a, Dict.get k (_response_futures (self w)) = Some a →
           futures w !! a = Some FPending →
           fs !! a = Some (FException connection_lost))
      ∧ (∀ a f, futures w !! a = Some f → f ≠ FPending → fs !! a = Some f).
Proof.
  intros Hrd Hexc Hpack Hne Hbuf Hdec Hloads Hv Htk w1.
  assert (_read_message w = (Ok v, w1)) as Hread.
  { rewrite (_read_message_frame prefix body rest rd w Hrd Hexc Hpack Hne Hbuf).
    by rewrite Hdec, Hloads. }
  assert (v ≠ JNull → _handle_message v w1 = (Raise AttributeError, w1)) as Hhandle.
  { intros _. destruct (_handle_message_cases v w1)
      as [[Heq _]|[[_ (d & -> & _)]|(d & v' & a & -> & _)]]; [done|by destruct (Hv d)..]. }
  split; [done|]. split; [done|].
  destruct (fail_pending_spec connection_lost w1) as (fs & Hfail & _ & _ & _ & Hin & Hkeep);
    [by left|].
  exists fs.
  assert (_reader_loop_turn _reader_loop_body w = (Ok false, set_futures fs w1)) as Hturn.
  { assert (∃ r, _reader_loop_body w = (r, w1) ∧ (r = Ok false ∨ r = Raise AttributeError))
      as (r & Hbody & Hr).
    { unfold _reader_loop_body, bind at 1, get_self. simpl. rewrite Hrd.
      unfold at_eof. rewrite Hbuf.
      rewrite bool_decide_false, andb_false_r
        by (apply pack_length in Hpack; by destruct prefix).
      unfold bind at 1. rewrite Hread.
      destruct v;
        first [ eexists; split; [reflexivity|by left]
              | unfold bind; rewrite Hhandle by done; eexists; split; [reflexivity|by right] ]. }
    unfold _reader_loop_turn, bind at 1, try_except. rewrite Hbody.
    unfold connection_lost in Hfail.
    destruct Hr as [-> | ->]; simpl; unfold bind; by rewrite Hfail. }
  split.
  { rewrite reader_turn_eq, Hturn. unfold finish, modify. simpl. by rewrite Htk. }
  split; [|done].
  intros k a Hk Hp. apply Hin; [|done]. by eapply get_values.
Qed.
End more_requests.

(** ** What goes out on the wire *)

Section wire_facts.
Context `{PyLib}.

Lemma sent_upto_le c c' bs : sent_upto c bs → c ≤ c' → sent_upto c' bs.
Proof.
  intros Hs Hle. destruct Hs as [c|c m c0 bs d data prefix Hs Hlt Hm Hid Henc Hpack].
  - apply sent_none.
  - apply (sent_more c m c' bs d data prefix); [done|done|lia|done..].
Qed.

Ltac wire_change :=
  intros ? ?; unfold wire_ok in *; simpl; repeat case_match;
  first [ done | intros ? [= <-]; apply sent_none ].

Lemma wire_connect net : preserves wire_ok (connect net).
Proof. unfold connect. preserves_tac fail wire_change. Qed.

Lemma wire_close_begin : preserves wire_ok close_begin.
Proof.
  intros w Hw. rewrite close_begin_closed_state. simpl.
  intros wr'. simpl. destruct (_writer (self w)) as [wr|] eqn:Hwr; [|done].
  intros [= <-]. simpl. by apply Hw.
Qed.

Lemma wire_send_request_begin p net drain : preserves wire_ok (send_request_begin p net drain).
Proof.
  intros w Hw. unfold wire_ok in Hw.
  unfold send_request_begin, connect, _next_msg_id, _write_message.
  crush; intros wr' Hwr'; simplify_eq/=; rewrite ?alter_snoc in *;
    rewrite ?list_lookup_middle in * by done; simpl in *.
  all: try (by apply Hw).
  all: try apply sent_none.
  all: match goal with
       | |- sent_upto (?c + 1) (?bs ++ ?prefix ++ ?data) =>
           eapply (sent_more c (c + 1) (c + 1) bs _ data prefix);
           [by apply Hw|lia|lia|apply get_set_eq|eassumption|eassumption]
       | |- sent_upto (?c + 1) (?prefix ++ ?data) =>
           eapply (sent_more c (c + 1) (c + 1) [] _ data prefix);
           [apply sent_none|lia|lia|apply get_set_eq|eassumption|eassumption]
       | |- sent_upto (?c + 1) _ =>
           apply sent_upto_le with c; [by apply Hw|lia]
       end.
Qed.

Lemma wire_send_request_body p drain : preserves wire_ok (send_request_body p drain).
Proof.
  intros w Hw. unfold wire_ok in Hw.
  unfold send_request_body, _next_msg_id, _write_message.
  crush; intros wr' Hwr'; simplify_eq/=; rewrite ?alter_snoc in *;
    rewrite ?list_lookup_middle in * by done; simpl in *.
  all: try (by apply Hw).
  all: try apply sent_none.
  all: match goal with
       | |- sent_upto (?c + 1) (?bs ++ ?prefix ++ ?data) =>
           eapply (sent_more c (c + 1) (c + 1) bs _ data prefix);
           [by apply Hw|lia|lia|apply get_set_eq|eassumption|eassumption]
       | |- sent_upto (?c + 1) (?prefix ++ ?data) =>
           eapply (sent_more c (c + 1) (c + 1) [] _ data prefix);
           [apply sent_none|lia|lia|apply get_set_eq|eassumption|eassumption]
       | |- sent_upto (?c + 1) _ =>
           apply sent_upto_le with c; [by apply Hw|lia]
       end.
Qed.

Lemma wire_connect_finish net : preserves wire_ok (connect_finish net).
Proof. unfold connect_finish. preserves_tac fail wire_change. Qed.

Lemma wire_handle e : preserves wire_ok (handle e).
Proof.
  destruct e; simpl;
    unfold call_send_request, resume_call, run_task, feed,
      close_end, reader_turn, _reader_loop_turn, _reader_loop_body, heartbeat_send,
      _heartbeat_loop_after, _heartbeat_loop_head, _handle_message, py_get,
      _read_message, _read_exact, fail_pending, send_request_end, wait_for,
      park_send_request, park_connect, resume_connect;
    preserves_tac ltac:(first [ apply wire_connect | apply wire_close_begin
                              | apply wire_send_request_begin
                              | apply wire_connect_finish
                              | apply wire_send_request_body ]) wire_change.
Qed.

Lemma run_wire_ok w es : wire_ok w → wire_ok (run w es).
Proof.
  revert w. induction es as [|e es IH]; intros w Hw; [done|].
  simpl. apply IH. apply preserves_step; [apply wire_handle|done].
Qed.

(** X11. What the client has sent on its connection.  In every state
    that the client can reach, the bytes handed to the current writer are
    a sequence of whole frames; each body is the encoding of a dict that
    carries a ["msg_id"]; the ids go up strictly from frame to frame and
    none is above the counter of the client. *)
Theorem sent_bytes_are_whole_requests (objs : list pydict) (es : list event)
    (wr : StreamWriter) :
  let w := run (init objs) es in
  _writer (self w) = Some wr →
  sent_upto (_msg_id_counter (self w)) (sent wr).
Proof.
  intros w Hwr. apply (run_wire_ok (init objs) es); [|done].
  intros wr' Hwr'. done.
Qed.
End wire_facts.

(** ** The reader loop at work *)

Section reader_at_work.
Context `{PyLib}.

(** One turn of the reader task on a frame that carries a notification. *)
Lemma reader_task_prints prefix body d rest rd w t tk net drain :
  _reader (self w) = Some rd → rexception rd = None →
  notice_frame (prefix, body, d) →
  buffer rd = (prefix ++ body) ++ rest →
  tasks w !! t = Some tk → coro tk = ReaderLoop →
  pos tk = Created ∨ pos tk = AtRead → must_cancel tk = false →
  step w (EvTask t net drain)
  = set_tasks (<[t := mkTask ReaderLoop AtRead false]> (tasks w))
      (set_stdout (stdout w ++ [JDict d])
         (set_self (set_reader (Some (mkReader rest (eof rd) None)) (self w)) w)).
Proof.
  intros Hrd Hexc (Hpack & Hne & (s & Hdec & Hloads) & Hno) Hbuf Ht Hc Hp Hmc.
  rewrite <- (assoc_L (++)) in Hbuf.
  set (w1 := set_self (set_reader (Some (mkReader rest (eof rd) None)) (self w)) w).
  assert (_read_message w = (Ok (JDict d), w1)) as Hread.
  { rewrite (_read_message_frame prefix body rest rd w Hrd Hexc Hpack Hne Hbuf).
    by rewrite Hdec, Hloads. }
  assert (_handle_message (JDict d) w1 = (Ok tt, set_stdout (stdout w1 ++ [JDict d]) w1))
    as Hhandle.
  { destruct (_handle_message_cases (JDict d) w1)
      as [[_ Hnd]|[[Heq _]|(d' & v & a & [= <-] & Hv & _)]]; [by destruct (Hnd d)|done|].
    congruence. }
  assert (_reader_loop_body w = (Ok true, set_stdout (stdout w1 ++ [JDict d]) w1)) as Hbody.
  { unfold _reader_loop_body, bind at 1, get_self. simpl. rewrite Hrd.
    unfold at_eof. rewrite Hbuf.
    rewrite bool_decide_false, andb_false_r
      by (apply pack_length in Hpack; by destruct prefix).
    unfold bind at 1. rewrite Hread. unfold bind. by rewrite Hhandle. }
  assert (reader_turn t _reader_loop_body w
          = (Ok tt, set_tasks (<[t := mkTask ReaderLoop AtRead false]> (tasks w))
                      (set_stdout (stdout w ++ [JDict d]) w1))) as Hturn.
  { rewrite reader_turn_eq. unfold _reader_loop_turn, bind at 1, try_except.
    rewrite Hbody. unfold ret at 1. unfold set_pos, modify. simpl.
    rewrite Ht, Hc, Hmc. done. }
  unfold step, handle, run_task, bind at 1, get_world. rewrite Ht, Hc, Hmc, Hrd.
  destruct Hp as [-> | ->]; by rewrite Hturn.
Qed.

(** X17. Notifications come out in the order of arrival.  Let the
    buffer hold whole frames whose bodies decode to dicts without
    ["reply_to"], followed by [rest].  Running the reader task once for
    each frame prints these dicts in their order, leaves [rest] in the
    buffer, changes no future, no entry of the registry and no waiting
    call, and leaves the task waiting for the next frame. *)
Theorem reader_loop_prints_notifications_in_order
    (fs : list (list byte * list byte * pydict)) (rest : list byte)
    (w : World) (rd : StreamReader) (t : tid) (tk : Task) (net drain : oracle) :
  _reader (self w) = Some rd → rexception rd = None →
  Forall notice_frame fs →
  buffer rd = concat (frame_bytes <$> fs) ++ rest →
  tasks w !! t = Some tk → coro tk = ReaderLoop →
  pos tk = Created ∨ pos tk = AtRead → must_cancel tk = false →
  let w' := run w ((λ _, EvTask t net drain) <$> fs) in
  stdout w' = stdout w ++ (frame_dict <$> fs)
  ∧ (buffer <$> _reader (self w')) = Some rest
  ∧ futures w' = futures w
  ∧ _response_futures (self w') = _response_futures (self w)
  ∧ frames w' = frames w
  ∧ (fs ≠ [] → tasks w' = <[t := mkTask ReaderLoop AtRead false]> (tasks w)).
Proof.
  intros Hrd Hexc Hfs. revert w rd tk Hrd Hexc.
  induction Hfs as [|[[prefix body] d] fs Hf Hfs IH];
    intros w rd tk Hrd Hexc Hbuf Ht Hc Hp Hmc w'; subst w'.
  - simpl in *. rewrite app_nil_r, Hrd. simpl. by rewrite Hbuf.
  - simpl in Hbuf. unfold frame_bytes at 1 in Hbuf. simpl in Hbuf.
    rewrite <- (assoc_L (++) (prefix ++ body)) in Hbuf.
    rewrite fmap_cons. simpl.
    rewrite (reader_task_prints prefix body d _ rd w t tk net drain
               Hrd Hexc Hf Hbuf Ht Hc Hp Hmc).
    set (w1 := set_tasks _ _).
    assert (tasks w1 !! t = Some (mkTask ReaderLoop AtRead false)) as Ht1.
    { apply list_lookup_insert_eq. by eapply lookup_lt_Some. }
    destruct (IH w1 (mkReader (concat (frame_bytes <$> fs) ++ rest) (eof rd) None)
                (mkTask ReaderLoop AtRead false))
      as (Hout & Hbuf' & Hfut & Hreg & Hfr & Hts); try done; [by right|].
    split; [|split; [done|split; [done|split; [done|split; [done|]]]]].
    + rewrite Hout. simpl. unfold frame_dict at 3. simpl. by rewrite <- (assoc_L (++)).
    + intros _. destruct fs as [|f fs']; [done|].
      rewrite Hts by done. simpl. by rewrite list_insert_insert_eq.
Qed.
End reader_at_work.

Section connection_loss.
Context `{PyLib}.

(** X18. The end of the connection ends the reader loop.  When the
    stream is at its end, when an exception is set on it (a reset, or
    any other error), or when it ended inside a length prefix, one turn
    of the reader task finishes the task without an exception, and every
    registered future that was pending holds
    [ConnectionError("Connection lost")]; futures that were done keep
    their state. *)
Theorem connection_loss_ends_the_loop (w : World) (rd : StreamReader) (t : tid) (tk : Task) :
  _reader (self w) = Some rd →
  at_eof rd = true
  ∨ (∃ e, rexception rd = Some e)
  ∨ (eof rd = true ∧ (length (buffer rd) < 4)%nat) →
  tasks w !! t = Some tk →
  ∃ fs rd',
    reader_turn t _reader_loop_body w
    = (Ok tt, set_tasks (<[t := mkTask (coro tk) Finished false]> (tasks w))
                (set_futures fs (set_self (set_reader (Some rd') (self w)) w)))
    ∧ length fs = length (futures w)
    ∧ (∀ k a, Dict.get k (_response_futures (self w)) = Some a →
         futures w !! a = Some FPending →
         fs !! a = Some (FException connection_lost))
    ∧ (∀ a f, futures w !! a = Some f → f ≠ FPending → fs !! a = Some f).
Proof.
  intros Hrd Hlost Htk.
  assert (∃ r rd', _reader_loop_body w = (r, set_self (set_reader (Some rd') (self w)) w)
                   ∧ r ≠ Ok true ∧ r ≠ Wait) as (r & rd' & Hbody & Hr1 & Hr2).
  { unfold _reader_loop_body, bind at 1, get_self. simpl. rewrite Hrd.
    destruct (at_eof rd) eqn:Heof.
    { exists (Ok false), rd. by rewrite set_reader_same. }
    destruct Hlost as [?|Hlost]; [done|].
    unfold bind at 1, _read_message, bind at 1, get_self. simpl. rewrite Hrd.
    unfold bind at 1.
    destruct (rexception rd) as [e|] eqn:Hexc.
    - assert (_read_exact 4 w
              = (match e with
                 | IncompleteReadError | ConnectionResetError => Ok None
                 | _ => Raise e
                 end, w)) as ->.
      { unfold _read_exact, bind at 1, get_self. simpl. rewrite Hrd.
        unfold readexactly. rewrite Hexc.
        unfold try_except, bind, modify_self, modify, lift, ret, raise. simpl.
        rewrite set_reader_same by done. by destruct e. }
      exists (match e with
              | IncompleteReadError | ConnectionResetError => Ok false
              | _ => Raise e
              end), rd.
      rewrite set_reader_same by done. by destruct e.
    - destruct Hlost as [[e [=]]|[Heof' Hlen]].
      rewrite (_read_exact_short 4 rd w Hrd Hexc) by (simpl; lia). rewrite Heof'.
      exists (Ok false), (mkReader [] true None). done. }
  destruct (fail_pending_spec connection_lost
              (set_self (set_reader (Some rd') (self w)) w))
    as (fs & Hfail & _ & Hlen & _ & Hin & Hkeep); [by left|].
  exists fs, rd'.
  assert (_reader_loop_turn _reader_loop_body w
          = (Ok false, set_futures fs (set_self (set_reader (Some rd') (self w)) w))) as Hturn.
  { unfold _reader_loop_turn, bind at 1, try_except. rewrite Hbody.
    unfold connection_lost in Hfail.
    destruct r as [[]|e|]; [done| | |done]; simpl.
    - unfold bind. by rewrite Hfail.
    - destruct e; simpl; unfold bind; by rewrite Hfail. }
  split.
  { rewrite reader_turn_eq, Hturn. unfold finish, modify. simpl. by rewrite Htk. }
  split; [done|]. split; [|done].
  intros k a Hk Hp. apply Hin; [|done]. by eapply get_values.
Qed.
End connection_loss.

(** ** The further theorems at work on concrete runs *)

Lemma read_exact_witness :
  rexception (mkReader [x01; x02; x03] false None) = None
  ∧ length [x01; x02] = Z.to_nat 2
  ∧ ∃ rest, buffer (mkReader [x01; x02; x03] false None) = [x01; x02] ++ rest
      ∧ (_read_exact 2 Trial.three_bytes).2
        = set_self (set_reader
                      (Some (mkReader rest (eof (mkReader [x01; x02; x03] false None)) None))
                      (self Trial.three_bytes)) Trial.three_bytes.
Proof.
  apply (read_exact_is_all_or_nothing 2 Trial.three_bytes
           (mkReader [x01; x02; x03] false None)
           (Ok (Some [x01; x02])) (_read_exact 2 Trial.three_bytes).2).
  - reflexivity.
  - vm_compute. reflexivity.
Defined.

Lemma read_message_witness :
  (_read_message (H := Demo.lib) Trial.three_bytes).1 = Wait.
Proof.
  destruct (read_message_short_stream (H := Demo.lib) Trial.three_bytes
              (mkReader [x01; x02; x03] false None)) as [Hshort _].
  - reflexivity.
  - reflexivity.
  - apply Hshort. simpl. lia.
Defined.

Lemma length_prefix_witness :
  ∃ bs, struct_pack_I 258 = Ok bs ∧ length bs = 4%nat ∧ struct_unpack_I bs = Ok 258.
Proof.
  destruct length_prefix_is_a_bijection as [Hpack _].
  apply Hpack. lia.
Defined.

Lemma write_message_witness :
  ∃ prefix data,
    (sent <$> _writer (self (_write_message (H := Demo.lib) Scenario.request None
                               Scenario.connected).2))
    = Some (prefix ++ data)
    ∧ length prefix = 4%nat
    ∧ struct_unpack_I prefix = Ok (Z.of_nat (length data)).
Proof.
  destruct (write_message_sends_whole_frames (H := Demo.lib) Scenario.request None
              Scenario.connected (Ok tt)
              (_write_message (H := Demo.lib) Scenario.request None Scenario.connected).2)
    as [[Hsame _]|(wr & data & prefix & Hwr & _ & Hlen & Hun & Hw' & _)].
  - vm_compute. reflexivity.
  - apply (f_equal (λ w, sent <$> _writer (self w))) in Hsame.
    vm_compute in Hsame. discriminate.
  - exists prefix, data. rewrite Hw'. vm_compute in Hwr. injection Hwr as <-.
    split; [reflexivity|]. split; [exact Hlen|exact Hun].
Defined.

Lemma close_witness :
  ∃ f, futures (step (H := Demo.lib) Trial.closing_while_waiting EvCloseResume) !! 0%nat
       = Some f
       ∧ fut_is_done f = true
       ∧ futures (run (H := Demo.lib)
                    (step (H := Demo.lib) Trial.closing_while_waiting EvCloseResume)
                    [EvTask 0%nat None None; EvConnect None]) !! 0%nat = Some f
       ∧ (send_request_end (fr_msg_id (mkFrame 1 External)) 0%nat FutureDone
            (run (H := Demo.lib)
               (step (H := Demo.lib) Trial.closing_while_waiting EvCloseResume)
               [EvTask 0%nat None None; EvConnect None])).1 ≠ Wait.
Proof.
  destruct (close_leaves_no_call_pending (H := Demo.lib) [Scenario.ping]
              [EvConnect None; EvSendRequest 0%nat None None; EvClose; EvFeedEof]
              [EvTask 0%nat None None; EvConnect None] EvCloseResume) as [_ Hdone].
  - right. split; [reflexivity|]. vm_compute. lia.
  - apply (Hdone 0%nat (mkFrame 1 External)). vm_compute. reflexivity.
Defined.

Lemma matching_reply_witness :
  _handle_message (H := Demo.lib) (JDict [("reply_to", JInt 1); ("payload", JStr "pong")])
    (run (H := Demo.lib) (init [Scenario.ping]) [EvConnect None; EvSendRequest 0%nat None None])
  = (Ok tt,
     set_futures
       (<[0%nat := FResult (JDict [("reply_to", JInt 1); ("payload", JStr "pong")])]>
          (futures (run (H := Demo.lib) (init [Scenario.ping])
                      [EvConnect None; EvSendRequest 0%nat None None])))
       (run (H := Demo.lib) (init [Scenario.ping])
          [EvConnect None; EvSendRequest 0%nat None None])).
Proof.
  apply (matching_reply_completes_the_call (H := Demo.lib) [Scenario.ping]
           [EvConnect None; EvSendRequest 0%nat None None] 0%nat (mkFrame 1 External)
           [("reply_to", JInt 1); ("payload", JStr "pong")] (JInt 1)).
  - vm_compute. reflexivity.
  - vm_compute. reflexivity.
  - reflexivity.
  - discriminate.
  - vm_compute. reflexivity.
Defined.

Lemma unmatched_message_witness :
  _handle_message (H := Demo.lib) (JDict [("reply_to", JInt 7)]) Scenario.waiting
  = (Ok tt, set_stdout (stdout Scenario.waiting ++ [JDict [("reply_to", JInt 7)]])
              Scenario.waiting).
Proof.
  apply (unmatched_message_is_printed (H := Demo.lib) [("reply_to", JInt 7)] Scenario.waiting).
  intros v a Hv _ Hreg. injection Hv as <-. vm_compute in Hreg. discriminate.
Defined.

Lemma non_object_frame_witness :
  _read_message (H := Demo.lib)
    (step (H := Demo.lib) Scenario.waiting (EvFeedData (Demo.frame Trial.array)))
  = (Ok Trial.array, Scenario.waiting)
  ∧ _handle_message (H := Demo.lib) Trial.array Scenario.waiting
    = (Raise AttributeError, Scenario.waiting)
  ∧ futures (step (H := Demo.lib)
               (step (H := Demo.lib) Scenario.waiting (EvFeedData (Demo.frame Trial.array)))
               (EvTask 0%nat None None)) !! 0%nat
    = Some (FException connection_lost).
Proof.
  destruct (non_object_frame_ends_the_loop (H := Demo.lib)
              (step (H := Demo.lib) Scenario.waiting (EvFeedData (Demo.frame Trial.array)))
              (mkReader (Demo.frame Trial.array) false None)
              (take 4 (Demo.frame Trial.array)) (drop 4 (Demo.frame Trial.array)) []
              (Demo.dumps Trial.array) Trial.array 0%nat (mkTask ReaderLoop Created false))
    as (Hread & Hhandle & fs & _ & Hfail & _).
  - reflexivity.
  - reflexivity.
  - vm_compute. reflexivity.
  - vm_compute. discriminate.
  - vm_compute. reflexivity.
  - vm_compute. reflexivity.
  - vm_compute. reflexivity.
  - intros d. discriminate.
  - reflexivity.
  - split; [|split].
    + etransitivity; [exact Hread|]. vm_compute. reflexivity.
    + etransitivity; [|apply Hhandle; discriminate]. vm_compute. reflexivity.
    + vm_compute. reflexivity.
Defined.

Lemma sent_bytes_witness :
  sent_upto (H := Demo.lib)
    (_msg_id_counter (self (run (H := Demo.lib) (init [Scenario.ping])
                              [EvConnect None; EvSendRequest 0%nat None None])))
    (sent (mkWriter (Demo.frame Scenario.request) false)).
Proof.
  apply (sent_bytes_are_whole_requests (H := Demo.lib) [Scenario.ping]
           [EvConnect None; EvSendRequest 0%nat None None]
           (mkWriter (Demo.frame Scenario.request) false)).
  vm_compute. reflexivity.
Defined.

Lemma request_payload_witness :
  ∃ d' data prefix wr,
    objects (send_request_begin (H := Demo.lib) 0%nat None None
               (run (H := Demo.lib) (init [Trial.own_fields]) [EvConnect None])).2
    = objects (run (H := Demo.lib) (init [Trial.own_fields]) [EvConnect None]) ++ [d']
    ∧ Dict.get "msg_id" d' = Some (JInt 1)
    ∧ Dict.get "type" d' = Some (default (JStr "request") (Dict.get "type" Trial.own_fields))
    ∧ (∀ k, k ≠ "type" → k ≠ "msg_id" → Dict.get k d' = Dict.get k Trial.own_fields)
    ∧ @str_encode Demo.lib (@json_dumps Demo.lib (JDict d')) = Some data
    ∧ struct_pack_I (Z.of_nat (length data)) = Ok prefix
    ∧ _writer (self (send_request_begin (H := Demo.lib) 0%nat None None
                       (run (H := Demo.lib) (init [Trial.own_fields]) [EvConnect None])).2)
      = Some (mkWriter (sent wr ++ prefix ++ data) (wclosed wr)).
Proof.
  apply (request_payload_fields (H := Demo.lib) 0%nat None None
           (run (H := Demo.lib) (init [Trial.own_fields]) [EvConnect None]) 1 0%nat
           (send_request_begin (H := Demo.lib) 0%nat None None
              (run (H := Demo.lib) (init [Trial.own_fields]) [EvConnect None])).2
           Trial.own_fields).
  - reflexivity.
  - vm_compute. reflexivity.
Defined.

Lemma timeout_witness :
  frames (step (H := Demo.lib) Trial.two_waiting (EvTimeout 0%nat)) !! 1%nat
  = Some (mkFrame 2 External)
  ∧ Dict.get (pretty (fr_msg_id (mkFrame 2 External)))
      (_response_futures (self (step (H := Demo.lib) Trial.two_waiting (EvTimeout 0%nat))))
    = Dict.get (pretty (fr_msg_id (mkFrame 2 External)))
        (_response_futures (self Trial.two_waiting)).
Proof.
  destruct (timeout_is_local (H := Demo.lib) [Scenario.ping]
              [EvConnect None; EvSendRequest 0%nat None None; EvSendRequest 0%nat None None]
              0%nat (mkFrame 1 External)) as (_ & _ & _ & Hothers & _).
  - vm_compute. reflexivity.
  - apply (Hothers 1%nat (mkFrame 2 External)).
    + vm_compute. reflexivity.
    + lia.
Defined.

Lemma failed_write_witness :
  Dict.get (pretty (_msg_id_counter (self (run (H := Demo.lib) (init [Scenario.ping])
                                             [EvConnect None])) + 1))
    (_response_futures
       (self (run (H := Demo.lib)
                (send_request_begin (H := Demo.lib) 0%nat None (Some io_reset)
                   (run (H := Demo.lib) (init [Scenario.ping]) [EvConnect None])).2
                [EvFeedEof; EvTask 0%nat None None; EvClose; EvCloseResume])))
  = Some (length (futures (run (H := Demo.lib) (init [Scenario.ping]) [EvConnect None]))).
Proof.
  apply (failed_write_leaves_the_entry (H := Demo.lib) [Scenario.ping] [EvConnect None]
           [EvFeedEof; EvTask 0%nat None None; EvClose; EvCloseResume]
           0%nat None (Some io_reset) (mkWriter [] false) ConnectionResetError
           (send_request_begin (H := Demo.lib) 0%nat None (Some io_reset)
              (run (H := Demo.lib) (init [Scenario.ping]) [EvConnect None])).2).
  - reflexivity.
  - reflexivity.
  - vm_compute. reflexivity.
Defined.

Lemma closed_heartbeat_witness :
  tasks (step (H := Demo.lib)
           (run (H := Demo.lib) (init []) [EvConnect None; EvTask 1%nat None None; EvClose])
           (EvTask 1%nat None None))
  = <[1%nat := mkTask HeartbeatLoop Finished false]>
      (tasks (run (H := Demo.lib) (init [])
                [EvConnect None; EvTask 1%nat None None; EvClose])).
Proof.
  apply (closed_client_sends_no_heartbeat (H := Demo.lib)
           (run (H := Demo.lib) (init []) [EvConnect None; EvTask 1%nat None None; EvClose])
           1%nat (mkTask HeartbeatLoop AtSleep true) None None).
  - reflexivity.
  - reflexivity.
  - reflexivity.
  - right. reflexivity.
Defined.

Lemma notifications_witness :
  stdout (run (H := Demo.lib)
            (run (H := Demo.lib) Scenario.connected
               [EvFeedData (Demo.frame (JDict Trial.tick) ++ Demo.frame (JDict Trial.tock))])
            ((λ _, EvTask 0%nat None None)
               <$> [Trial.as_frame Trial.tick; Trial.as_frame Trial.tock]))
  = stdout (run (H := Demo.lib) Scenario.connected
              [EvFeedData (Demo.frame (JDict Trial.tick) ++ Demo.frame (JDict Trial.tock))])
    ++ (frame_dict <$> [Trial.as_frame Trial.tick; Trial.as_frame Trial.tock]).
Proof.
  apply (reader_loop_prints_notifications_in_order (H := Demo.lib)
           [Trial.as_frame Trial.tick; Trial.as_frame Trial.tock] []
           (run (H := Demo.lib) Scenario.connected
              [EvFeedData (Demo.frame (JDict Trial.tick) ++ Demo.frame (JDict Trial.tock))])
           (mkReader (Demo.frame (JDict Trial.tick) ++ Demo.frame (JDict Trial.tock)) false None)
           0%nat (mkTask ReaderLoop Created false) None None).
  - reflexivity.
  - reflexivity.
  - apply Forall_cons_2; [|apply Forall_cons_2; [|apply Forall_nil_2]].
    + unfold notice_frame, Trial.as_frame.
      split; [vm_compute; reflexivity|]. split; [vm_compute; discriminate|].
      split; [|reflexivity]. exists (Demo.dumps (JDict Trial.tick)).
      split; vm_compute; reflexivity.
    + unfold notice_frame, Trial.as_frame.
      split; [vm_compute; reflexivity|]. split; [vm_compute; discriminate|].
      split; [|reflexivity]. exists (Demo.dumps (JDict Trial.tock)).
      split; vm_compute; reflexivity.
  - vm_compute. reflexivity.
  - reflexivity.
  - reflexivity.
  - left. reflexivity.
  - reflexivity.
Defined.

Lemma connection_loss_witness :
  ∃ fs : list Future,
    (reader_turn 0%nat (_reader_loop_body (H := Demo.lib))
       (run (H := Demo.lib) Scenario.waiting [EvFeedEof])).1 = Ok tt
    ∧ fs !! 0%nat = Some (FException connection_lost).
Proof.
  destruct (connection_loss_ends_the_loop (H := Demo.lib)
              (run (H := Demo.lib) Scenario.waiting [EvFeedEof])
              (mkReader [] true None) 0%nat (mkTask ReaderLoop Created false))
    as (fs & rd' & Hturn & _ & Hfail & _).
  - reflexivity.
  - left. reflexivity.
  - reflexivity.
  - exists fs. split; [by rewrite Hturn|].
    apply (Hfail (pretty 1) 0%nat); vm_compute; reflexivity.
Defined.
